(** * Storyboard tool: the AI call wrapper and the settings store

    A shallow embedding of the call-wrapper core of the storyboard
    authoring tool (the normalizers, the error classifier, the retry
    wrapper, the connectivity prober, the call orchestrator, the batch
    inference and script breakdown tasks) and of the settings loader,
    followed by the properties stated about them.

    The service file exists in two revisions in the repository:
    [src/services/geminiService.ts] and [src/unnamed/part_000].  Functions
    that differ between them take a [Revision] argument; the others are
    the same text in both.

    Conventions.
    - A JavaScript string is the list of its UTF-16 code units.
    - A JavaScript [number] that the code uses as a counter or a delay is
      an integer of [Z]; so is a number inside a JSON value, which the
      code only tests for truthiness.
    - [console.*] calls are not modelled.
    - [JSON.parse] and the provider SDK's [generateContent] belong to the
      runtime, not to the repository: they are Section variables. *)

From stdpp Require Import gmap strings list fin_maps.
From Stdlib Require Import ZArith NArith Lia.

#[local] Set Warnings "-register-all".
#[local] Open Scope N_scope.

(* ===================================================================== *)
(** * Part I: the program                                                 *)
(* ===================================================================== *)

(** ** JavaScript strings *)

Abbreviation jsstring := (list N).

(** Decoding of a UTF-8 source literal into UTF-16 code units, so that the
    literals of the source can be written as they appear there. *)
Fixpoint utf16_of_utf8 (bs : list N) : jsstring :=
  match bs with
  | [] => []
  | b0 :: rest =>
      if b0 <? 0x80 then b0 :: utf16_of_utf8 rest
      else if b0 <? 0xE0 then
        match rest with
        | b1 :: rest' => ((b0 mod 32) * 64 + b1 mod 64) :: utf16_of_utf8 rest'
        | _ => [0xFFFD]
        end
      else if b0 <? 0xF0 then
        match rest with
        | b1 :: b2 :: rest' =>
            ((b0 mod 16) * 4096 + (b1 mod 64) * 64 + b2 mod 64)
              :: utf16_of_utf8 rest'
        | _ => [0xFFFD]
        end
      else
        match rest with
        | b1 :: b2 :: b3 :: rest' =>
            let cp := (b0 mod 8) * 262144 + (b1 mod 64) * 4096
                      + (b2 mod 64) * 64 + b3 mod 64 in
            let v := cp - 0x10000 in
            (0xD800 + v / 1024) :: (0xDC00 + v mod 1024) :: utf16_of_utf8 rest'
        | _ => [0xFFFD]
        end
  end.

Definition js (s : string) : jsstring :=
  utf16_of_utf8 (map Ascii.N_of_ascii (String.list_ascii_of_string s)).
Arguments js : simpl never.

(** The double quote, which the literals below cannot contain. *)
Definition dq : jsstring := [34].

(** ECMAScript [WhiteSpace] and [LineTerminator] code units: what [\s]
    matches and what [String.prototype.trim] removes. *)
Definition isWhiteSpace (c : N) : bool :=
  (c =? 9) || (c =? 10) || (c =? 11) || (c =? 12) || (c =? 13) || (c =? 32)
  || (c =? 0xA0) || (c =? 0x1680) || ((0x2000 <=? c) && (c <=? 0x200A))
  || (c =? 0x2028) || (c =? 0x2029) || (c =? 0x202F) || (c =? 0x205F)
  || (c =? 0x3000) || (c =? 0xFEFF).

Definition isSlash (c : N) : bool := c =? 47.

(** Removes the longest prefix of code units satisfying [p]. *)
Fixpoint dropStartWhile (p : N -> bool) (s : jsstring) : jsstring :=
  match s with
  | [] => []
  | c :: r => if p c then dropStartWhile p r else s
  end.

(** Removes the longest suffix of code units satisfying [p]. *)
Fixpoint dropEndWhile (p : N -> bool) (s : jsstring) : jsstring :=
  match s with
  | [] => []
  | c :: r =>
      match dropEndWhile p r with
      | [] => if p c then [] else [c]
      | r' => c :: r'
      end
  end.

(** [s.trim()] *)
Definition trim (s : jsstring) : jsstring :=
  dropEndWhile isWhiteSpace (dropStartWhile isWhiteSpace s).

(** [s.startsWith(p)] *)
Fixpoint startsWith (s p : jsstring) : bool :=
  match p, s with
  | [], _ => true
  | _ :: _, [] => false
  | a :: p', c :: s' => (a =? c) && startsWith s' p'
  end.

(** [s.endsWith(p)] *)
Definition endsWith (s p : jsstring) : bool :=
  bool_decide (drop (length s - length p) s = p).

(** [s.includes(p)] *)
Fixpoint includes (s p : jsstring) : bool :=
  startsWith s p
  || match s with
     | [] => false
     | _ :: r => includes r p
     end.

(** [s.substring(0, n)] for [0 <= n]. *)
Definition substring0 (s : jsstring) (n : nat) : jsstring := take n s.

(** [s.replace(/\/+$/, '')] *)
Definition stripTrailingSlashes (s : jsstring) : jsstring :=
  dropEndWhile isSlash s.

(** [s.replace(/[\s\uFEFF\xA0]+/g, '')]: U+FEFF and U+00A0 are already in
    the class [\s]. *)
Definition removeWhitespace (s : jsstring) : jsstring :=
  filter (fun c => isWhiteSpace c = false) s.

(** Case folding of the [i] flag for a pattern of ASCII letters: without
    the [u] flag a code unit above 127 never canonicalizes to an ASCII
    one, so only the two ASCII cases of a letter match it. *)
Definition asciiUpper (c : N) : N :=
  if (97 <=? c) && (c <=? 122) then c - 32 else c.

(** [s.replace(/^Bearer\s+/i, '')] *)
Definition stripBearer (s : jsstring) : jsstring :=
  let rest := drop 6 s in
  if bool_decide (map asciiUpper (take 6 s) = js "BEARER")
     && match rest with
        | c :: _ => isWhiteSpace c
        | [] => false
        end
  then dropStartWhile isWhiteSpace rest
  else s.

(** [s.replace(/p/g, '')] for a literal, non-empty pattern [p]: the
    matches are found left to right and do not overlap. [skip] counts the
    code units of the current match still to be dropped. *)
Fixpoint removeAllFrom (p : jsstring) (skip : nat) (s : jsstring) : jsstring :=
  match s with
  | [] => []
  | c :: r =>
      match skip with
      | S k => removeAllFrom p k r
      | O =>
          if startsWith s p
          then removeAllFrom p (length p - 1) r
          else c :: removeAllFrom p 0 r
      end
  end.

Definition removeAll (p s : jsstring) : jsstring := removeAllFrom p 0 s.

(** [s.split('\n')] *)
Fixpoint splitLines (s : jsstring) : list jsstring :=
  match s with
  | [] => [[]]
  | c :: r =>
      if c =? 10 then [] :: splitLines r
      else match splitLines r with
           | l :: ls => (c :: l) :: ls
           | [] => [[c]]
           end
  end.

(** [parts.join(sep)] *)
Fixpoint join (sep : jsstring) (parts : list jsstring) : jsstring :=
  match parts with
  | [] => []
  | [x] => x
  | x :: rest => x ++ sep ++ join sep rest
  end.

(** Decimal digits of a positive counter, as [String(n)] prints them;
    [fuel] bounds the number of digits. *)
Fixpoint decimalDigits (fuel : nat) (n : N) (acc : jsstring) : jsstring :=
  match fuel with
  | O => acc
  | S f =>
      let acc' := (48 + n mod 10) :: acc in
      if n <? 10 then acc' else decimalDigits f (n / 10) acc'
  end.

Definition decimal (n : nat) : jsstring :=
  decimalDigits (S n) (N.of_nat n) [].

(** ** The two revisions of the service file *)

Inductive Revision :=
| RevServices   (* src/services/geminiService.ts *)
| RevPart000.   (* src/unnamed/part_000 *)

(** ** Key/URL normalizer *)

Definition OFFICIAL_ENDPOINT : jsstring :=
  js "https://generativelanguage.googleapis.com".

(** [cleanBaseUrl]: [None] is [undefined]. The same text in both
    revisions. *)
Definition cleanBaseUrl (url : option jsstring) : option jsstring :=
  match url with
  | None => None
  | Some url =>
      if bool_decide (url = []) || bool_decide (trim url = []) then None
      else
        let cleaned := trim url in
        let cleaned := stripTrailingSlashes cleaned in
        let cleaned :=
          if endsWith cleaned (js "/v1beta")
          then substring0 cleaned (length cleaned - 7)
          else if endsWith cleaned (js "/v1")
               then substring0 cleaned (length cleaned - 3)
               else cleaned in
        let cleaned := stripTrailingSlashes cleaned in
        if bool_decide (cleaned = OFFICIAL_ENDPOINT) then None
        else Some cleaned
  end.

(** [cleanApiKey]. [RevServices] removes every whitespace code unit and
    then looks for a [Bearer] prefix followed by whitespace; [RevPart000]
    trims only. *)
Definition cleanApiKey (rev : Revision) (key : jsstring) : jsstring :=
  if bool_decide (key = []) then []
  else match rev with
       | RevServices => stripBearer (removeWhitespace key)
       | RevPart000 => trim key
       end.

(** ** Thrown values *)

(** What a [catch] clause can receive here: an [Error] instance with its
    message, a thrown string, [null] or [undefined]. *)
Inductive JsThrown :=
| ErrorObj (message : jsstring)
| ThrownString (s : jsstring)
| ThrownNull
| ThrownUndefined.

(** [String(error)] *)
Definition String_of (error : JsThrown) : jsstring :=
  match error with
  | ErrorObj m => if bool_decide (m = []) then js "Error" else js "Error: " ++ m
  | ThrownString s => s
  | ThrownNull => js "null"
  | ThrownUndefined => js "undefined"
  end.

(** ** Error classifier *)

Definition MSG_400 (rev : Revision) : jsstring :=
  match rev with
  | RevServices =>
      js "请求无效 (400) - 代理地址不支持当前模型，或请求格式不兼容 (已尝试自动修复)"
  | RevPart000 =>
      js "请求无效 (400) - 代理不支持此模型名，或需要 role:user 字段 (已尝试修复)"
  end.
Definition MSG_401 : jsstring :=
  js "API Key 无效或未授权 (401) - 请检查余额或 Key 是否正确".
Definition MSG_403 : jsstring := js "API Key 权限不足 (403)".
Definition MSG_404 (rev : Revision) : jsstring :=
  match rev with
  | RevServices => js "地址错误 (404) - 代理地址路径不匹配 (SDK会自动追加 /v1beta)"
  | RevPart000 => js "地址错误 (404) - 代理地址路径不匹配"
  end.
Definition MSG_429 : jsstring := js "请求过于频繁/额度耗尽 (429)".
Definition MSG_500 : jsstring := js "AI 服务内部错误 (500)".
Definition MSG_503 : jsstring := js "服务暂时不可用 (503)".
Definition MSG_NETWORK : jsstring :=
  js "网络连接失败 (请检查代理地址/VPN/跨域设置)".

(** The [if / else if] chain of [formatError] on the message. *)
Definition classify (rev : Revision) (msg : jsstring) : jsstring :=
  if includes msg (js "400") then MSG_400 rev
  else if includes msg (js "401") then MSG_401
  else if includes msg (js "403") then MSG_403
  else if includes msg (js "404") then MSG_404 rev
  else if includes msg (js "429") then MSG_429
  else if includes msg (js "500") then MSG_500
  else if includes msg (js "503") then MSG_503
  else if includes msg (js "Failed to fetch") || includes msg (js "NetworkError")
       then MSG_NETWORK
       else msg.

(** [error instanceof Error ? error.message : String(error)] *)
Definition messageOf (error : JsThrown) : jsstring :=
  match error with
  | ErrorObj m => m
  | _ => String_of error
  end.

Definition formatError (rev : Revision) (error : JsThrown) (context : jsstring)
  : jsstring :=
  let msg := classify rev (messageOf error) in
  context ++ js ": " ++ msg.


(** ** Outcomes and effects *)

(** The result of an evaluation that may throw. *)
Inductive Outcome (A : Type) :=
| Ok (a : A)
| Throw (e : JsThrown).
Arguments Ok {A} a.
Arguments Throw {A} e.

(** ** JSON values *)

Inductive Json : Type :=
| JNull
| JBool (b : bool)
| JNum (z : Z)
| JStr (s : jsstring)
| JArr (items : list Json)
| JObj (fields : gmap jsstring Json).

(** JavaScript truthiness of a JSON value; a missing property
    ([undefined]) is falsy. *)
Definition truthy (v : Json) : bool :=
  match v with
  | JNull => false
  | JBool b => b
  | JNum z => negb (z =? 0)%Z
  | JStr s => negb (bool_decide (s = []))
  | JArr _ | JObj _ => true
  end.

Definition truthyOpt (v : option Json) : bool :=
  match v with
  | Some v => truthy v
  | None => false
  end.

(** ** The provider interface *)

Record ModelRef := { value : jsstring; label : jsstring }.

Record Settings := {
  apiKey : jsstring;
  baseUrl : jsstring;
  textModel : jsstring;
  imageModel : jsstring;
  customTextModels : option (list ModelRef);
  jianYingPath : jsstring;
  outputImgPath : jsstring;
  themeColor : jsstring
}.

Record Character := {
  id : jsstring;
  name : jsstring;
  description : jsstring;
  referenceImage : option jsstring
}.

(** The options handed to [new GoogleGenAI(...)]. *)
Record Client := {
  clientApiKey : jsstring;
  clientApiVersion : jsstring;
  clientAuthorization : option jsstring;
  clientBaseUrl : option jsstring
}.

(** A text request: [{ model, contents: [{ role?, parts: [{ text }] }],
    config?: { responseMimeType } }]. *)
Record Request := {
  reqModel : jsstring;
  reqRole : option jsstring;
  reqText : jsstring;
  reqResponseMimeType : option jsstring
}.

(** The part of a response that the modelled tasks read. *)
Record Response := { text : option jsstring }.

(** Observable effects of a run, in order. [EvInvoke] is a ghost event
    that marks each call of the operation by the retry wrapper. *)
Inductive Event :=
| EvInvoke
| EvSleep (ms : Z)
| EvExchange (client : Client) (request : Request) (outcome : Outcome Response).

Record World (St : Type) := {
  ext : St;               (* the provider and the network *)
  trace : list Event
}.
Arguments ext {St} w.
Arguments trace {St} w.
Arguments Build_World {St} ext trace.

Definition initial {St : Type} (s : St) : World St :=
  {| ext := s; trace := [] |}.

(** An asynchronous computation: it runs to completion on the single
    thread, threading the world, and resolves or rejects. *)
Definition M (St A : Type) : Type := World St -> Outcome A * World St.

Definition ret {St A} (a : A) : M St A := fun w => (Ok a, w).

Definition throw {St A} (e : JsThrown) : M St A := fun w => (Throw e, w).

Definition bind {St A B} (m : M St A) (k : A -> M St B) : M St B :=
  fun w =>
    match m w with
    | (Ok a, w') => k a w'
    | (Throw e, w') => (Throw e, w')
    end.

Definition try_catch {St A} (m : M St A) (handler : JsThrown -> M St A) : M St A :=
  fun w =>
    match m w with
    | (Ok a, w') => (Ok a, w')
    | (Throw e, w') => handler e w'
    end.

Definition emit {St} (ev : Event) : M St unit :=
  fun w => (Ok tt, {| ext := ext w; trace := trace w ++ [ev] |}).

Definition liftOutcome {St A} (o : Outcome A) : M St A := fun w => (o, w).

Notation "x <- m ;; k" := (bind m (fun x => k))
  (at level 100, m at level 99, k at level 200, right associativity).
Notation "m ;; k" := (bind m (fun _ => k))
  (at level 100, k at level 200, right associativity).

(** [sleep(ms)] *)
Definition sleep {St} (ms : Z) : M St unit := emit (EvSleep ms).

(** Number of calls of the operation and total requested wait of a
    trace. *)
Definition isInvoke (ev : Event) : bool :=
  match ev with
  | EvInvoke => true
  | _ => false
  end.

Definition invocations (tr : list Event) : nat :=
  length (filter (fun ev => isInvoke ev = true) tr).

Definition waitOf (ev : Event) : Z :=
  match ev with
  | EvSleep ms => ms
  | _ => 0%Z
  end.

Definition totalWait (tr : list Event) : Z :=
  foldr (fun ev acc => (waitOf ev + acc)%Z) 0%Z tr.

Definition isExchange (ev : Event) : bool :=
  match ev with
  | EvExchange _ _ _ => true
  | _ => false
  end.

Definition isFailedExchange (ev : Event) : bool :=
  match ev with
  | EvExchange _ _ (Throw _) => true
  | _ => false
  end.

Definition isOkExchange (ev : Event) : bool :=
  match ev with
  | EvExchange _ _ (Ok _) => true
  | _ => false
  end.

Definition exchangedModel (ev : Event) : option jsstring :=
  match ev with
  | EvExchange _ r _ => Some (reqModel r)
  | _ => None
  end.

(** ** Retry wrapper *)

Definition TYPE_ERROR_READ (of_what prop : jsstring) : JsThrown :=
  ErrorObj (js "Cannot read properties of " ++ of_what ++ js " (reading '"
            ++ prop ++ js "')").

(** [error.message || String(error)]; reading [message] off [null] or
    [undefined] throws a [TypeError]. *)
Definition messageOrString (error : JsThrown) : Outcome jsstring :=
  match error with
  | ErrorObj m => Ok (if bool_decide (m = []) then String_of error else m)
  | ThrownString s => Ok s
  | ThrownNull => Throw (TYPE_ERROR_READ (js "null") (js "message"))
  | ThrownUndefined => Throw (TYPE_ERROR_READ (js "undefined") (js "message"))
  end.

Definition isTransient (msg : jsstring) : bool :=
  includes msg (js "429") || includes msg (js "503")
  || includes msg (js "Quota exceeded") || includes msg (js "NetworkError")
  || includes msg (js "Failed to fetch").

Section Retry.
Context {St T : Type}.
Variable operation : M St T.
Variables maxRetries baseDelay : Z.

(** The [for] loop of [retryOperation], entered with [iterations]
    rounds left, the loop counter at [attempt], and [lastError] as
    assigned so far. *)
Fixpoint retryLoop (iterations : nat) (attempt : Z) (lastError : JsThrown)
  : M St T :=
  match iterations with
  | O => throw lastError
  | S rounds =>
      try_catch (emit EvInvoke ;; operation)
        (fun error =>
           msg <- liftOutcome (messageOrString error) ;;
           if isTransient msg then
             if (attempt <? maxRetries)%Z then
               sleep (baseDelay * 2 ^ attempt)%Z ;;
               retryLoop rounds (attempt + 1)%Z error
             else throw error
           else throw error)
  end.

(** [attempt] runs from [0] while [attempt <= maxRetries]. *)
Definition retryOperation : M St T :=
  retryLoop (Z.to_nat (maxRetries + 1)) 0%Z ThrownUndefined.
End Retry.

(** ** Call orchestrator *)

(** [createClient] of [RevPart000]; [RevServices] builds the options in
    place, without the [Authorization] header. A falsy [baseUrl] (absent
    or empty) is not set. *)
Definition createClient (rev : Revision) (apiKey : jsstring)
    (baseUrl : option jsstring) : Client :=
  {| clientApiKey := apiKey;
     clientApiVersion := js "v1beta";
     clientAuthorization :=
       match rev with
       | RevServices => None
       | RevPart000 => Some (js "Bearer " ++ apiKey)
       end;
     clientBaseUrl :=
       match baseUrl with
       | Some u => if bool_decide (u = []) then None else Some u
       | None => None
       end |}.

Section Provider.
Context {St : Type}.

(** [ai.models.generateContent(request)] on the provider state. *)
Variable generateContent :
  Client -> Request -> St -> Outcome Response * St.

(** [JSON.parse]; it throws a [SyntaxError] whose message is the
    engine's. *)
Variable JSON_parse : jsstring -> Outcome Json.

(** The model list of [RevServices], imported from a types module that
    is not in the repository. *)
Variable TEXT_MODELS : list ModelRef.

Definition generate (ai : Client) (request : Request) : M St Response :=
  fun w =>
    let '(o, s') := generateContent ai request (ext w) in
    (o, {| ext := s'; trace := trace w ++ [EvExchange ai request o] |}).

Definition executeGeminiCall {T} (rev : Revision) (settings : Settings)
    (operation : Client -> M St T) (contextName : jsstring) : M St T :=
  let key := cleanApiKey rev (apiKey settings) in
  if bool_decide (key = []) then throw (ErrorObj (js "未配置 API Key"))
  else
    let baseUrl := cleanBaseUrl (Some (baseUrl settings)) in
    try_catch
      (let ai := createClient rev key baseUrl in
       retryOperation (operation ai) 3 2000)
      (fun error =>
         let errorMsg := formatError rev error contextName in
         throw (ErrorObj errorMsg)).

(** ** Connectivity prober *)

Definition DEFAULT_TEXT_MODELS : list ModelRef :=
  [ {| value := js "gemini-2.5-pro"; label := js "gemini-2.5-pro" |};
    {| value := js "gemini-3-pro-preview"; label := js "gemini-3-pro-preview" |};
    {| value := js "gemini-1.5-pro"; label := js "gemini-1.5-pro" |};
    {| value := js "gemini-2.5-flash"; label := js "gemini-2.5-flash" |} ].

(** [[...new Set(xs)]]: the first occurrence of each value, in order. *)
Fixpoint dedupFrom (seen xs : list jsstring) : list jsstring :=
  match xs with
  | [] => []
  | x :: r =>
      if bool_decide (x ∈ seen) then dedupFrom seen r
      else x :: dedupFrom (x :: seen) r
  end.

Definition dedup (xs : list jsstring) : list jsstring := dedupFrom [] xs.

Definition modelsToTry (rev : Revision) (priorityModels : list jsstring)
  : list jsstring :=
  match rev with
  | RevServices => map value TEXT_MODELS
  | RevPart000 => dedup (priorityModels ++ map value DEFAULT_TEXT_MODELS)
  end.

Definition pingRequest (rev : Revision) (modelName : jsstring) : Request :=
  {| reqModel := modelName;
     reqRole := match rev with RevServices => None | RevPart000 => Some (js "user") end;
     reqText := js "Ping";
     reqResponseMimeType := None |}.

Definition ALL_FAILED : jsstring := js "所有模型连接测试均失败".

(** [if (!modelName) continue;], which only [RevPart000] has. *)
Definition skipsModel (rev : Revision) (modelName : jsstring) : bool :=
  match rev with
  | RevServices => false
  | RevPart000 => bool_decide (modelName = [])
  end.

(** The [for ... of] loop of [testApiConnection] over the candidates
    still to try. *)
Fixpoint probeModels (rev : Revision) (ai : Client) (models : list jsstring)
    (lastError : JsThrown) : M St jsstring :=
  match models with
  | [] => throw (ErrorObj (formatError rev lastError ALL_FAILED))
  | modelName :: rest =>
      if skipsModel rev modelName
      then probeModels rev ai rest lastError
      else
        try_catch
          (generate ai (pingRequest rev modelName) ;; ret modelName)
          (fun error => probeModels rev ai rest error)
  end.

Definition testApiConnection (rev : Revision) (apiKey baseUrl : jsstring)
    (priorityModels : list jsstring) : M St jsstring :=
  let cleanKey := cleanApiKey rev apiKey in
  let cleanUrl := cleanBaseUrl (Some baseUrl) in
  if bool_decide (cleanKey = []) then throw (ErrorObj (js "API Key 为空"))
  else
    let ai := createClient rev cleanKey cleanUrl in
    probeModels rev ai (modelsToTry rev priorityModels) ThrownNull.

(** ** Prompt/response tasks *)

Definition textRequest (rev : Revision) (model prompt : jsstring) : Request :=
  {| reqModel := model;
     reqRole := match rev with RevServices => None | RevPart000 => Some (js "user") end;
     reqText := prompt;
     reqResponseMimeType := Some (js "application/json") |}.

(** [response.text || dflt] *)
Definition textOr (response : Response) (dflt : jsstring) : jsstring :=
  match text response with
  | Some t => if bool_decide (t = []) then dflt else t
  | None => dflt
  end.

(** [text.replace(/```json/g, '').replace(/```/g, '').trim()] *)
Definition stripFences (t : jsstring) : jsstring :=
  trim (removeAll (js "```") (removeAll (js "```json") t)).

(** *** Batch shot inference *)

Record InferenceResult := { prompt : Json; activeNames : list Json }.

Definition PLACEHOLDER : InferenceResult :=
  {| prompt := JStr []; activeNames := [] |}.

(** [item.key] for the three keys read below, none of which is a
    property of a primitive wrapper or of an array: reading off [null]
    throws, reading off anything but an object gives [undefined]. *)
Definition getProp (item : Json) (key : jsstring) : Outcome (option Json) :=
  match item with
  | JNull => Throw (TYPE_ERROR_READ (js "null") key)
  | JObj fields => Ok (fields !! key)
  | _ => Ok None
  end.

Definition andThen {A B} (o : Outcome A) (k : A -> Outcome B) : Outcome B :=
  match o with
  | Ok a => k a
  | Throw e => Throw e
  end.

(** [Array.isArray(v) ? v : other] *)
Definition arrayOr (v : option Json) (other : list Json) : list Json :=
  match v with
  | Some (JArr items) => items
  | _ => other
  end.

(** [v || ""] *)
Definition valueOrEmpty (v : option Json) : Json :=
  match v with
  | Some x => if truthy x then x else JStr []
  | None => JStr []
  end.

(** The callback of [json.map] in [inferBatchPrompts]. *)
Definition toInferenceResult (item : Json) : Outcome InferenceResult :=
  andThen (getProp item (js "prompt")) (fun p =>
  andThen (getProp item (js "activeCharacterNames")) (fun a =>
  andThen (getProp item (js "activeNames")) (fun b =>
  Ok {| prompt := valueOrEmpty p;
        activeNames := arrayOr a (arrayOr b []) |}))).

(** [items.map(f)] for a callback that may throw. *)
Fixpoint mapOutcome {A B} (f : A -> Outcome B) (items : list A)
  : Outcome (list B) :=
  match items with
  | [] => Ok []
  | x :: r =>
      andThen (f x) (fun y =>
      andThen (mapOutcome f r) (fun ys => Ok (y :: ys)))
  end.

Definition nl : jsstring := [10].

Definition libContextBatch (allCharacters : list Character) : jsstring :=
  if (0 <? length allCharacters)%nat
  then js "【可用角色库】:" ++ nl
       ++ join nl (map (fun c => js "- " ++ name c ++ js ": " ++ description c)
                       allCharacters)
  else js "无角色库".

Definition batchPrompt (scripts : list jsstring)
    (allCharacters : list Character) (prevContextSummary : jsstring)
  : jsstring :=
  js "你是一个AI分镜师。分析剧本生成画面描述。" ++ nl
  ++ js "    " ++ libContextBatch allCharacters ++ nl
  ++ js "    要求: 禁用人名，禁用代词，使用外貌描述。" ++ nl
  ++ js "    输出 JSON 数组: [{" ++ dq ++ js "activeCharacterNames" ++ dq
  ++ js ":[], " ++ dq ++ js "prompt" ++ dq ++ js ":" ++ dq ++ js "..." ++ dq
  ++ js "}]。" ++ nl
  ++ js "    " ++ nl
  ++ js "    上文: " ++ prevContextSummary ++ nl
  ++ js "    " ++ nl
  ++ js "    剧本:" ++ nl
  ++ js "    "
  ++ join nl (imap (fun i s => decimal (i + 1) ++ js ": " ++ s) scripts) ++ nl
  ++ js "    ".

(** [Array(n).fill({ prompt: "", activeNames: [] })] *)
Definition placeholders (n : nat) : list InferenceResult :=
  replicate n PLACEHOLDER.

(** The [operation] closure of [inferBatchPrompts]. *)
Definition batchOperation (rev : Revision) (settings : Settings)
    (prompt : jsstring) (scripts : list jsstring) (ai : Client)
  : M St (list InferenceResult) :=
  response <- generate ai (textRequest rev (textModel settings) prompt) ;;
  let text := stripFences (textOr response (js "[]")) in
  mapped <- try_catch
              (json <- liftOutcome (JSON_parse text) ;;
               match json with
               | JArr items =>
                   r <- liftOutcome (mapOutcome toInferenceResult items) ;;
                   ret (Some r)
               | _ => ret None
               end)
              (fun _ => ret None) ;;
  match mapped with
  | Some r => ret r
  | None => ret (placeholders (length scripts))
  end.

Definition BATCH_CONTEXT : jsstring := js "批量推理失败".

Definition inferBatchPrompts (rev : Revision) (scripts : list jsstring)
    (allCharacters : list Character) (settings : Settings)
    (prevContextSummary : jsstring) : M St (list InferenceResult) :=
  sleep 500 ;;
  let prompt := batchPrompt scripts allCharacters prevContextSummary in
  try_catch
    (executeGeminiCall rev settings
       (batchOperation rev settings prompt scripts) BATCH_CONTEXT)
    (fun _ => ret (placeholders (length scripts))).

(** *** Script breakdown *)

Definition breakdownPrompt (scriptText : jsstring) : jsstring :=
  js "拆分剧本为分镜列表。保持原文。" ++ nl
  ++ js "  输出 JSON 字符串数组: [" ++ dq ++ js "分镜1" ++ dq ++ js ", "
  ++ dq ++ js "分镜2" ++ dq ++ js "]。" ++ nl
  ++ js "  文本：" ++ scriptText.

(** The [operation] closure of [breakdownScript]. *)
Definition breakdownOperation (rev : Revision) (settings : Settings)
    (prompt : jsstring) (ai : Client) : M St Json :=
  response <- generate ai (textRequest rev (textModel settings) prompt) ;;
  let text := stripFences (textOr response (js "[]")) in
  liftOutcome (JSON_parse text).

(** [scriptText.split('\n').filter(l => l.trim().length > 0)] *)
Definition nonBlankLines (scriptText : jsstring) : list jsstring :=
  filter (fun l => trim l ≠ []) (splitLines scriptText).

Definition BREAKDOWN_CONTEXT : jsstring := js "分镜拆解失败".

(** The declared result is [string[]], but the [try] branch returns
    whatever [JSON.parse] produced: the result is a JSON value. *)
Definition breakdownScript (rev : Revision) (scriptText : jsstring)
    (settings : Settings) : M St Json :=
  let prompt := breakdownPrompt scriptText in
  try_catch
    (executeGeminiCall rev settings
       (breakdownOperation rev settings prompt) BREAKDOWN_CONTEXT)
    (fun _ => ret (JArr (map JStr (nonBlankLines scriptText)))).
End Provider.

(** ** Settings store (src/utils/storage.ts) *)

Definition KEYS_SETTINGS : jsstring := js "baojian_settings".

(** A JavaScript object as the finite map of its own enumerable
    properties. *)
Definition DEFAULT_SETTINGS : gmap jsstring Json :=
  list_to_map
    [ (js "apiKey", JStr []);
      (js "baseUrl", JStr []);
      (js "textModel", JStr (js "gemini-2.5-pro"));
      (js "imageModel", JStr (js "gemini-2.5-flash-image"));
      (js "customTextModels", JArr []);
      (js "jianYingPath",
        JStr (js "C:/Users/Admin/AppData/Local/JianYingPro/User Data/Projects/"));
      (js "outputImgPath", JStr (js "D:/AI_Output/"));
      (js "themeColor", JStr (js "#f97316")) ].

(** The keys of the [Settings] interface. *)
Definition SETTINGS_SCHEMA : list jsstring :=
  [ js "apiKey"; js "baseUrl"; js "textModel"; js "imageModel";
    js "customTextModels"; js "jianYingPath"; js "outputImgPath";
    js "themeColor" ].

(** The own enumerable properties of an array: its indices. *)
Definition arrayProps (items : list Json) : gmap jsstring Json :=
  list_to_map (imap (fun i v => (decimal i, v)) items).

(** The [TypeError] of ['apiKeys' in v] for a primitive [v]; the
    engine's message goes on with [ in ] and the value. *)
Definition TYPE_ERROR_IN : JsThrown :=
  ErrorObj (js "Cannot use 'in' operator to search for 'apiKeys'").

Section Storage.
Variable JSON_parse : jsstring -> Outcome Json.

(** The body of [getSettingsSync] once [localSettings] is an object
    with own properties [props]: the cleanup of [apiKeys], the default
    of [customTextModels], and the spread over the defaults, where the
    later (stored) properties win. *)
Definition mergeSettings (props : gmap jsstring Json) : gmap jsstring Json :=
  let props := delete (js "apiKeys") props in
  let props :=
    if truthyOpt (props !! js "customTextModels") then props
    else <[ js "customTextModels" := JArr [] ]> props in
  props ∪ DEFAULT_SETTINGS.

(** [getSettingsSync] on the contents of [localStorage]. *)
Definition getSettingsSync (localStorage : gmap jsstring jsstring)
  : Outcome (gmap jsstring Json) :=
  let data := localStorage !! KEYS_SETTINGS in
  let localSettings :=
    match data with
    | Some d =>
        if bool_decide (d = []) then Ok (JObj DEFAULT_SETTINGS)
        else JSON_parse d
    | None => Ok (JObj DEFAULT_SETTINGS)
    end in
  match localSettings with
  | Throw e => Throw e
  | Ok (JObj props) => Ok (mergeSettings props)
  | Ok (JArr items) => Ok (mergeSettings (arrayProps items))
  | Ok _ => Throw TYPE_ERROR_IN
  end.

(** [loadSettings] and [getSettings] return [getSettingsSync()]. *)
Definition loadSettings := getSettingsSync.
Definition getSettings := getSettingsSync.
End Storage.

(** ** Vocabulary of the statements *)

(** [n] trailing slashes. *)
Definition slashes (n : nat) : jsstring := replicate n 47.

(** The result of the endpoint normalizer on a clean base: no override
    for the official endpoint, the base otherwise. *)
Definition noOverrideOr (base : jsstring) : option jsstring :=
  if bool_decide (base = OFFICIAL_ENDPOINT) then None else Some base.

(** The patterns that [formatError] tests before ["429"], and all the
    patterns it tests. *)
Definition PATTERNS_BEFORE_429 : list jsstring :=
  [js "400"; js "401"; js "403"; js "404"].

Definition PATTERNS : list jsstring :=
  PATTERNS_BEFORE_429
  ++ [js "429"; js "500"; js "503"; js "Failed to fetch"; js "NetworkError"].

Definition matchesNone (patterns : list jsstring) (msg : jsstring) : Prop :=
  Forall (fun p => includes msg p = false) patterns.

(** The transient markers of the retry wrapper. *)
Definition TRANSIENT_MARKERS : list jsstring :=
  [js "429"; js "503"; js "Quota exceeded"; js "NetworkError";
   js "Failed to fetch"].

(** The message that the retry wrapper reads off [error] carries a
    transient marker. *)
Definition transientMarked (error : JsThrown) : Prop :=
  exists msg, messageOrString error = Ok msg
              /\ Exists (fun p => includes msg p = true) TRANSIENT_MARKERS.

(** An operation that acts on the provider state only. *)
Definition liftOp {St T} (op : St -> Outcome T * St) : M St T :=
  fun w =>
    let '(o, s') := op (ext w) in
    (o, {| ext := s'; trace := trace w |}).

(** [k] successive calls of [op] from the state [s] that all throw: the
    thrown values in order, and the state reached. *)
Fixpoint failures {St T} (op : St -> Outcome T * St) (k : nat) (s : St)
  : option (list JsThrown * St) :=
  match k with
  | O => Some ([], s)
  | S k' =>
      match op s with
      | (Throw e, s1) =>
          match failures op k' s1 with
          | Some (errs, s') => Some (e :: errs, s')
          | None => None
          end
      | (Ok _, _) => None
      end
  end.

(** The events of [k] failed rounds of the retry loop from round
    [attempt]: a call, then the backoff wait. *)
Fixpoint backoffTrace (baseDelay attempt : Z) (k : nat) : list Event :=
  match k with
  | O => []
  | S k' =>
      EvInvoke :: EvSleep (baseDelay * 2 ^ attempt)
        :: backoffTrace baseDelay (attempt + 1) k'
  end.

Definition isSleep (ev : Event) : bool :=
  match ev with
  | EvSleep _ => true
  | _ => false
  end.

(** Failed and successful provider exchanges in a trace. *)
Definition failedAttempts (tr : list Event) : nat :=
  length (filter (fun ev => isFailedExchange ev = true) tr).

Definition successfulAttempts (tr : list Event) : nat :=
  length (filter (fun ev => isOkExchange ev = true) tr).

(** The models that a trace shows as requested, in order. *)
Definition requestedModels (tr : list Event) : list jsstring :=
  omap exchangedModel tr.

(** Successive pings of [models] from the state [s] that all fail: the
    thrown values in order, and the state reached. *)
Fixpoint failedPings {St} (generateContent : Client -> Request -> St -> Outcome Response * St)
    (rev : Revision) (ai : Client) (models : list jsstring) (s : St)
  : option (list JsThrown * St) :=
  match models with
  | [] => Some ([], s)
  | modelName :: rest =>
      if skipsModel rev modelName then failedPings generateContent rev ai rest s
      else
        match generateContent ai (pingRequest rev modelName) s with
        | (Throw e, s1) =>
            match failedPings generateContent rev ai rest s1 with
            | Some (errs, s') => Some (e :: errs, s')
            | None => None
            end
        | (Ok _, _) => None
        end
  end.

(** An operation that makes one exchange with the provider and computes
    its result from the outcome of the exchange, with no other effect. *)
Definition exchangeOp {St T}
    (generateContent : Client -> Request -> St -> Outcome Response * St)
    (ai : Client) (request : Request) (post : Outcome Response -> Outcome T)
  : M St T :=
  fun w =>
    let '(o, s') := generateContent ai request (ext w) in
    (post o, {| ext := s'; trace := trace w ++ [EvExchange ai request o] |}).

(** The text that a task hands to [JSON.parse] for a response. *)
Definition parsedText (response : Response) : jsstring :=
  stripFences (textOr response (js "[]")).

(** What the closure of [breakdownScript] makes of an exchange. *)
Definition breakdownPost (JSON_parse : jsstring -> Outcome Json)
    (o : Outcome Response) : Outcome Json :=
  match o with
  | Ok response => JSON_parse (parsedText response)
  | Throw e => Throw e
  end.

(** What the closure of [inferBatchPrompts] makes of an exchange. *)
Definition batchPost (JSON_parse : jsstring -> Outcome Json) (n : nat)
    (o : Outcome Response) : Outcome (list InferenceResult) :=
  match o with
  | Ok response =>
      Ok match JSON_parse (parsedText response) with
         | Ok (JArr items) =>
             match mapOutcome toInferenceResult items with
             | Ok results => results
             | Throw _ => placeholders n
             end
         | _ => placeholders n
         end
  | Throw e => Throw e
  end.

Definition isArray (v : Json) : bool :=
  match v with
  | JArr _ => true
  | _ => false
  end.

(** The world in which a round of the retry loop calls the operation. *)
Definition calling {St} (w : World St) : World St :=
  {| ext := ext w; trace := trace w ++ [EvInvoke] |}.

(** An exchange from whose outcome the operation resolves. *)
Definition resolves {T} (post : Outcome Response -> Outcome T) (ev : Event)
  : Prop :=
  match ev with
  | EvExchange _ _ o => exists v, post o = Ok v
  | _ => False
  end.

(** An exchange after which the retry wrapper calls the operation no
    more, whatever the round: the operation resolves from it, or rejects
    with an error that carries no transient marker. *)
Definition decisive {T} (post : Outcome Response -> Outcome T) (ev : Event)
  : Prop :=
  match ev with
  | EvExchange _ _ o =>
      match post o with
      | Ok _ => True
      | Throw e => ~ transientMarked e
      end
  | _ => False
  end.

(** What leaves the [catch] clause of the retry wrapper when it gives up
    on [error]: the error itself, or the [TypeError] of reading [message]
    off [null] or [undefined]. *)
Definition rethrown (error : JsThrown) : JsThrown :=
  match messageOrString error with
  | Ok _ => error
  | Throw typeError => typeError
  end.

(** ** Fixtures: concrete operations, transports and parsers *)

Module Fixtures.
(** The credential of the normalizer example: two spaces, [Bearer], a
    space, [sk-abc123], U+FEFF, a space. *)
Definition BEARER_INPUT : jsstring :=
  [32; 32] ++ js "Bearer sk-abc123" ++ [0xFEFF; 32].

Definition PROXY : jsstring := js "https://api.example.com".

(** An endpoint with two version suffixes and a trailing slash. *)
Definition DOUBLE_SUFFIX : jsstring := PROXY ++ js "/v1/v1beta/".

(** A rate-limit message that also carries the digits 400. *)
Definition RATE_LIMIT_400 : jsstring :=
  js "429 Too Many Requests: quota exceeded, retry in 400 ms".

Definition RATE_LIMIT : jsstring := js "429 Too Many Requests".

Definition CONTEXT : jsstring := js "生图失败".

(** An operation that is rate limited twice and then answers [7]; the
    state counts the calls. *)
Definition flaky (calls : nat) : Outcome Z * nat :=
  if (calls <? 2)%nat then (Throw (ErrorObj RATE_LIMIT), S calls)
  else (Ok 7%Z, S calls).

(** An operation that is refused. *)
Definition UNAUTHORIZED : jsstring := js "401 Unauthorized".

Definition refused (calls : nat) : Outcome Z * nat :=
  (Throw (ErrorObj UNAUTHORIZED), S calls).

(** A provider on which only [MODEL_B] answers; the state counts the
    requests. *)
Definition MODEL_A : jsstring := js "model-a".
Definition MODEL_B : jsstring := js "model-b".
Definition MODEL_C : jsstring := js "model-c".
Definition PONG : Response := {| text := Some (js "pong") |}.
Definition NOT_FOUND : JsThrown := ErrorObj (js "404 model not found").

Definition onlyB (ai : Client) (request : Request) (served : nat)
  : Outcome Response * nat :=
  if bool_decide (reqModel request = MODEL_B) then (Ok PONG, S served)
  else (Throw NOT_FOUND, S served).

(** A provider on which every model is overloaded. *)
Definition overloaded (ai : Client) (request : Request) (served : nat)
  : Outcome Response * nat :=
  (Throw (ErrorObj (js "503 overloaded: " ++ reqModel request)), S served).

Definition KEY : jsstring := js "sk-abc123".

Definition CLIENT : Client := createClient RevPart000 KEY (Some PROXY).

(** A provider that answers every request with the same text. *)
Definition answering (answer : jsstring) (ai : Client) (request : Request)
    (served : nat) : Outcome Response * nat :=
  (Ok {| text := Some answer |}, S served).

Definition APOLOGY : jsstring := js "Sorry, I cannot split this script.".

(** The JSON object [{ shots: 3 }], bare and inside a code fence. *)
Definition OBJECT_TEXT : jsstring :=
  js "{" ++ dq ++ js "shots" ++ dq ++ js ":3}".

Definition FENCED_OBJECT : jsstring :=
  js "```json" ++ nl ++ OBJECT_TEXT ++ nl ++ js "```".

(** A stored settings record with a key that the schema does not
    have. *)
Definition LEGACY_TEXT : jsstring :=
  js "{" ++ dq ++ js "legacyTheme" ++ dq ++ js ":1}".

(** A parser that knows the texts above and the empty array, and
    rejects everything else. *)
Definition parse (t : jsstring) : Outcome Json :=
  if bool_decide (t = OBJECT_TEXT) then Ok (JObj {[ js "shots" := JNum 3 ]})
  else if bool_decide (t = LEGACY_TEXT)
       then Ok (JObj {[ js "legacyTheme" := JNum 1 ]})
       else if bool_decide (t = js "[]") then Ok (JArr [])
            else Throw (ErrorObj (js "Unexpected token")).

Definition SETTINGS : Settings :=
  {| apiKey := KEY;
     baseUrl := PROXY;
     textModel := js "gemini-2.5-pro";
     imageModel := js "gemini-2.5-flash-image";
     customTextModels := Some [];
     jianYingPath := [];
     outputImgPath := [];
     themeColor := js "#f97316" |}.

(** A script of three lines, the second one blank. *)
Definition SCRIPT : jsstring :=
  js "INT. ROOM" ++ nl ++ js "   " ++ nl ++ js "She waits.".

Definition SEGMENTS : list jsstring :=
  [js "INT. ROOM"; js "She waits."; js "A knock."].

(** The client and the requests that the tasks build from [SETTINGS]. *)
Definition TASK_CLIENT : Client :=
  createClient RevPart000 (cleanApiKey RevPart000 (apiKey SETTINGS))
    (cleanBaseUrl (Some (baseUrl SETTINGS))).

Definition BREAKDOWN_REQUEST : Request :=
  textRequest RevPart000 (textModel SETTINGS) (breakdownPrompt SCRIPT).

Definition BATCH_REQUEST : Request :=
  textRequest RevPart000 (textModel SETTINGS) (batchPrompt SEGMENTS [] []).

Definition OVERLOADED_PRO : JsThrown :=
  ErrorObj (js "503 overloaded: " ++ textModel SETTINGS).
End Fixtures.

(** ** The other tasks of the service file *)

Section MoreTasks.
Context {St : Type}.
Variable generateContent : Client -> Request -> St -> Outcome Response * St.
Variable JSON_parse : jsstring -> Outcome Json.

(** *** Role analysis *)

(** [script.length > 30000 ? script.substring(0, 30000) + "..." : script] *)
Definition safeScript (script : jsstring) : jsstring :=
  if (30000 <? Z.of_nat (length script))%Z
  then substring0 script (Z.to_nat 30000) ++ js "..."
  else script.

Definition rolesPrompt (script : jsstring) : jsstring :=
  js "你是一个专业的电影选角导演。分析剧本提取主要角色。" ++ nl
  ++ js "  输出 JSON 数组: [{" ++ dq ++ js "name" ++ dq ++ js ":" ++ dq
  ++ js "名" ++ dq ++ js "," ++ dq ++ js "description" ++ dq ++ js ":" ++ dq
  ++ js "外貌描述" ++ dq ++ js "}]。" ++ nl
  ++ js "  剧本: " ++ safeScript script.

(** An entry of the result of [analyzeRoles]: the declared type is
    [Character], but [name] and [description] are whatever the parsed
    item carries. *)
Record Role := { roleId : jsstring; roleName : Json; roleDescription : Json }.

Definition UNKNOWN : Json := JStr (js "未知").

(** [v || "未知"] *)
Definition valueOrUnknown (v : option Json) : Json :=
  match v with
  | Some x => if truthy x then x else UNKNOWN
  | None => UNKNOWN
  end.

(** The callback of [parsed.map] in [analyzeRoles]; [name] and
    [description], like the keys of [getProp], are no properties of a
    primitive wrapper or of an array. *)
Definition toRole (c : Json) : Outcome Role :=
  andThen (getProp c (js "name")) (fun n =>
  andThen (getProp c (js "description")) (fun d =>
  Ok {| roleId := []; roleName := valueOrUnknown n;
        roleDescription := valueOrUnknown d |})).

(** The [operation] closure of [analyzeRoles]. *)
Definition rolesOperation (rev : Revision) (settings : Settings)
    (prompt : jsstring) (ai : Client) : M St (list Role) :=
  response <- generate generateContent ai
                (textRequest rev (textModel settings) prompt) ;;
  let text := stripFences (textOr response (js "[]")) in
  try_catch
    (parsed <- liftOutcome (JSON_parse text) ;;
     match parsed with
     | JArr items => liftOutcome (mapOutcome toRole items)
     | _ => ret []
     end)
    (fun _ => ret []).

Definition ROLES_CONTEXT : jsstring := js "角色分析失败".

Definition analyzeRoles (rev : Revision) (script : jsstring)
    (settings : Settings) : M St (list Role) :=
  executeGeminiCall rev settings
    (rolesOperation rev settings (rolesPrompt script)) ROLES_CONTEXT.

(** *** Single-frame inference *)

Definition libContextFrame (allCharacters : list Character) : jsstring :=
  if (0 <? length allCharacters)%nat
  then js "【角色库】:" ++ nl
       ++ join nl (map (fun c => name c ++ js ":" ++ description c)
                       allCharacters)
  else [].

Definition framePrompt (currentScript : jsstring)
    (allCharacters : list Character) (contextBefore contextAfter : list jsstring)
  : jsstring :=
  js "AI分镜师任务。" ++ nl
  ++ js "  " ++ libContextFrame allCharacters ++ nl
  ++ js "  根据剧本生成画面描述。禁用人名代词。" ++ nl
  ++ js "  前文:" ++ join (js "; ") contextBefore ++ nl
  ++ js "  当前:" ++ currentScript ++ nl
  ++ js "  后文:" ++ join (js "; ") contextAfter ++ nl
  ++ js "  " ++ nl
  ++ js "  输出 JSON: {" ++ dq ++ js "activeCharacterNames" ++ dq ++ js ":[], "
  ++ dq ++ js "prompt" ++ dq ++ js ":" ++ dq ++ js "..." ++ dq ++ js "}".

(** The object built from the parsed response in [inferFrameData]. *)
Definition toFrameResult (json : Json) : Outcome InferenceResult :=
  andThen (getProp json (js "prompt")) (fun p =>
  andThen (getProp json (js "activeCharacterNames")) (fun a =>
  Ok {| prompt := valueOrEmpty p; activeNames := arrayOr a [] |})).

(** The [operation] closure of [inferFrameData]: nothing is caught. *)
Definition frameOperation (rev : Revision) (settings : Settings)
    (prompt : jsstring) (ai : Client) : M St InferenceResult :=
  response <- generate generateContent ai
                (textRequest rev (textModel settings) prompt) ;;
  let text := stripFences (textOr response (js "{}")) in
  json <- liftOutcome (JSON_parse text) ;;
  liftOutcome (toFrameResult json).

Definition FRAME_CONTEXT : jsstring := js "推理失败".

Definition inferFrameData (rev : Revision) (currentScript : jsstring)
    (allCharacters : list Character) (settings : Settings)
    (contextBefore contextAfter : list jsstring) : M St InferenceResult :=
  executeGeminiCall rev settings
    (frameOperation rev settings
       (framePrompt currentScript allCharacters contextBefore contextAfter))
    FRAME_CONTEXT.
End MoreTasks.

(** *** Image generation *)

(** The parts of an image request: an inline image or a text. *)
Inductive RequestPart :=
| InlinePart (data mimeType : jsstring)
| TextPart (partText : jsstring).

Record ImageRequest := {
  imgModel : jsstring;
  imgRole : option jsstring;
  imgParts : list RequestPart;
  imgAspectRatio : jsstring
}.

(** What [generateImage] reads of a response: [candidates?.[0]], its
    [content?.parts], each part's [inlineData?.data], and the
    [finishReason]. *)
Record InlineData := { data : option jsstring }.
Record ResponsePart := { inlineData : option InlineData }.
Record Candidate := {
  contentParts : option (list ResponsePart);
  finishReason : option jsstring
}.
Record ImageResponse := { candidates : option (list Candidate) }.

Definition GEMINI_2_5_FLASH_IMAGE : jsstring := js "gemini-2.5-flash-image".
Definition GEMINI_3_PRO_IMAGE_PREVIEW : jsstring :=
  js "gemini-3-pro-image-preview".

(** The class [\w]. *)
Definition isWordChar (c : N) : bool :=
  ((48 <=? c) && (c <=? 57)) || ((65 <=? c) && (c <=? 90))
  || ((97 <=? c) && (c <=? 122)) || (c =? 95).

(** [s.replace(/^data:image\/\w+;base64,/, "")]: [\w+] takes every word
    character that follows, since the next code unit must be [;]. *)
Definition stripDataUrl (s : jsstring) : jsstring :=
  if startsWith s (js "data:image/") then
    let rest := drop 11 s in
    let after := dropStartWhile isWordChar rest in
    if (length after <? length rest)%nat && startsWith after (js ";base64,")
    then drop 8 after
    else s
  else s.

(** A truthy optional string: present and not empty. *)
Definition truthyString (s : option jsstring) : option jsstring :=
  match s with
  | Some x => if bool_decide (x = []) then None else Some x
  | None => None
  end.

Definition STYLE_CAPTION : jsstring :=
  js "【Visual Style Reference】: Apply ONLY the art style of the FIRST image. Do NOT copy characters/content. " ++ [10].

Definition CHARACTER_CAPTION : jsstring :=
  js "【Character Reference】: Maintain character facial features, hair, and clothing. " ++ [10].

(** The [parts] array and the text that [generateImage] builds. *)
Definition imageParts (prompt : jsstring)
    (characterImageBase64 styleImageBase64 : option jsstring)
  : list RequestPart :=
  let stylePart :=
    match truthyString styleImageBase64 with
    | Some x => [InlinePart (stripDataUrl x) (js "image/png")]
    | None => []
    end in
  let styleText :=
    match truthyString styleImageBase64 with
    | Some _ => STYLE_CAPTION
    | None => []
    end in
  let characterPart :=
    match truthyString characterImageBase64 with
    | Some x => [InlinePart (stripDataUrl x) (js "image/png")]
    | None => []
    end in
  let characterText :=
    match truthyString characterImageBase64 with
    | Some _ => CHARACTER_CAPTION
    | None => []
    end in
  stylePart ++ characterPart
  ++ [TextPart (styleText ++ characterText ++ js "【Description】: " ++ prompt)].

Definition imageRequest (rev : Revision) (model prompt aspectRatio : jsstring)
    (characterImageBase64 styleImageBase64 : option jsstring) : ImageRequest :=
  {| imgModel := model;
     imgRole := match rev with RevServices => None | RevPart000 => Some (js "user") end;
     imgParts := imageParts prompt characterImageBase64 styleImageBase64;
     imgAspectRatio := aspectRatio |}.

(** The [for] loop over [candidate.content.parts]: the data of the first
    part with a truthy [inlineData.data]. *)
Fixpoint firstInlineData (parts : list ResponsePart) : option jsstring :=
  match parts with
  | [] => None
  | part :: rest =>
      match inlineData part with
      | Some inline =>
          match truthyString (data inline) with
          | Some d => Some d
          | None => firstInlineData rest
          end
      | None => firstInlineData rest
      end
  end.

Definition BLOCKED (reason : jsstring) : jsstring :=
  js "生成阻止 (" ++ reason ++ js ")".

Definition EMPTY_RESPONSE : jsstring := js "API 返回空数据".

(** What the closure of [generateImage] makes of a response. *)
Definition imageResult (response : ImageResponse) : Outcome jsstring :=
  let candidate :=
    match candidates response with
    | Some (c :: _) => Some c
    | _ => None
    end in
  let found :=
    match candidate with
    | Some c =>
        match contentParts c with
        | Some parts => firstInlineData parts
        | None => None
        end
    | None => None
    end in
  match found with
  | Some d => Ok (js "data:image/png;base64," ++ d)
  | None =>
      match candidate with
      | Some c =>
          match truthyString (finishReason c) with
          | Some reason => Throw (ErrorObj (BLOCKED reason))
          | None => Throw (ErrorObj EMPTY_RESPONSE)
          end
      | None => Throw (ErrorObj EMPTY_RESPONSE)
      end
  end.

Section ImageTask.
Context {St : Type}.

(** [ai.models.generateContent] at the type of an image request; this
    exchange is not recorded in the trace. *)
Variable generateImageContent :
  Client -> ImageRequest -> St -> Outcome ImageResponse * St.

(** One call of the [operation] closure of [generateImage], on the
    provider state. *)
Definition imageCall (ai : Client) (request : ImageRequest) (s : St)
  : Outcome jsstring * St :=
  match generateImageContent ai request s with
  | (Ok response, s') => (imageResult response, s')
  | (Throw e, s') => (Throw e, s')
  end.

Definition IMAGE_CONTEXT : jsstring := js "生图失败".

Definition generateImage (rev : Revision) (prompt : jsstring)
    (settings : Settings) (aspectRatio : jsstring)
    (characterImageBase64 styleImageBase64 : option jsstring) (isHD : bool)
  : M St jsstring :=
  let model := if isHD then GEMINI_3_PRO_IMAGE_PREVIEW else imageModel settings in
  executeGeminiCall rev settings
    (fun ai =>
       liftOp (imageCall ai (imageRequest rev model prompt aspectRatio
                               characterImageBase64 styleImageBase64)))
    IMAGE_CONTEXT.
End ImageTask.

(** ** The rest of the store (src/utils/storage.ts) *)

Definition KEYS_PROJECTS : jsstring := js "baojian_projects".
Definition KEYS_CHARACTERS : jsstring := js "baojian_characters".
Definition KEYS_AUTH_TOKEN : jsstring := js "baojian_auth_token".
Definition KEYS_AUTH_USER : jsstring := js "baojian_user".

Section ProjectStore.
(** A project, of which the store reads the [id] only, and
    [JSON.stringify] and [JSON.parse] at the type [Project[]]. *)
Variable Project : Type.
Variable projectId : Project -> jsstring.
Variable stringifyProjects : list Project -> jsstring.
Variable parseProjects : jsstring -> Outcome (list Project).

(** [getProjectsSync], and [loadProjects] and [getProjects], which read
    the same way. *)
Definition getProjectsSync (localStorage : gmap jsstring jsstring)
  : Outcome (list Project) :=
  match localStorage !! KEYS_PROJECTS with
  | Some d => if bool_decide (d = []) then Ok [] else parseProjects d
  | None => Ok []
  end.

Definition loadProjects := getProjectsSync.

Definition saveProjects (localStorage : gmap jsstring jsstring)
    (projects : list Project) : gmap jsstring jsstring :=
  <[ KEYS_PROJECTS := stringifyProjects projects ]> localStorage.

(** The list [updated] of [saveSingleProject]: the project replaces
    every entry with its [id], or goes first when there is none. *)
Definition upsertProject (project : Project) (projects : list Project)
  : list Project :=
  if bool_decide (Exists (fun p => projectId p = projectId project) projects)
  then map (fun p => if bool_decide (projectId p = projectId project)
                     then project else p) projects
  else project :: projects.

Definition saveSingleProject (localStorage : gmap jsstring jsstring)
    (project : Project) : Outcome (gmap jsstring jsstring) :=
  match getProjectsSync localStorage with
  | Ok projects => Ok (saveProjects localStorage (upsertProject project projects))
  | Throw e => Throw e
  end.

Definition deleteProject (localStorage : gmap jsstring jsstring)
    (id : jsstring) : Outcome (gmap jsstring jsstring) :=
  match getProjectsSync localStorage with
  | Ok projects =>
      Ok (saveProjects localStorage
            (filter (fun p => projectId p <> id) projects))
  | Throw e => Throw e
  end.
End ProjectStore.

Section SettingsStore.
Variable JSON_stringify : Json -> jsstring.

(** [saveSettings], on the settings object as a finite map. *)
Definition saveSettings (localStorage : gmap jsstring jsstring)
    (settings : gmap jsstring Json) : gmap jsstring jsstring :=
  <[ KEYS_SETTINGS := JSON_stringify (JObj settings) ]> localStorage.

Definition setAuth (localStorage : gmap jsstring jsstring)
    (token : jsstring) (user : Json) : gmap jsstring jsstring :=
  <[ KEYS_AUTH_USER := JSON_stringify user ]>
    (<[ KEYS_AUTH_TOKEN := token ]> localStorage).
End SettingsStore.

Definition getAuthToken (localStorage : gmap jsstring jsstring)
  : option jsstring :=
  localStorage !! KEYS_AUTH_TOKEN.

Definition clearAuth (localStorage : gmap jsstring jsstring)
  : gmap jsstring jsstring :=
  delete KEYS_AUTH_USER (delete KEYS_AUTH_TOKEN localStorage).

(** ** The settings dialog (src/components/SettingsModal.tsx) *)

(** The state of the dialog that the handlers below change, and the
    toasts they show. *)
Record DialogState := {
  localSettings : Settings;
  customModelInput : jsstring;
  toasts : list jsstring
}.

Definition customModelsOf (settings : Settings) : list ModelRef :=
  match customTextModels settings with
  | Some models => models
  | None => []
  end.

Definition withModels (settings : Settings) (models : list ModelRef)
    (selected : jsstring) : Settings :=
  {| apiKey := apiKey settings;
     baseUrl := baseUrl settings;
     textModel := selected;
     imageModel := imageModel settings;
     customTextModels := Some models;
     jianYingPath := jianYingPath settings;
     outputImgPath := outputImgPath settings;
     themeColor := themeColor settings |}.

(** [handleAddCustomModel] of the revision of the dialog that has custom
    models. *)
Definition handleAddCustomModel (st : DialogState) : DialogState :=
  let val := trim (customModelInput st) in
  if bool_decide (val = []) then st
  else
    let existing := customModelsOf (localSettings st) in
    if bool_decide (Exists (fun m => value m = val) existing)
       || bool_decide (Exists (fun m => value m = val) DEFAULT_TEXT_MODELS)
    then {| localSettings := localSettings st;
            customModelInput := customModelInput st;
            toasts := toasts st ++ [js "该模型已存在"] |}
    else
      let newModels := existing ++ [{| value := val; label := val |}] in
      {| localSettings := withModels (localSettings st) newModels val;
         customModelInput := [];
         toasts := toasts st ++ [js "已添加模型: " ++ val] |}.

Definition DEFAULT_TEXT_MODEL : jsstring := js "gemini-2.5-pro".

(** [handleRemoveCustomModel]; [DEFAULT_TEXT_MODELS[0].value] is
    [DEFAULT_TEXT_MODEL]. *)
Definition handleRemoveCustomModel (st : DialogState) (val : jsstring)
  : DialogState :=
  let newModels :=
    filter (fun m => value m <> val) (customModelsOf (localSettings st)) in
  let newSelected :=
    if bool_decide (textModel (localSettings st) = val)
    then DEFAULT_TEXT_MODEL
    else textModel (localSettings st) in
  {| localSettings := withModels (localSettings st) newModels newSelected;
     customModelInput := customModelInput st;
     toasts := toasts st |}.

Definition FALLBACK_PROXY : jsstring := js "https://api.xxapi.xyz".

(** The credential and the endpoint that [handleSave] stores: the older
    revision of the dialog removes every whitespace code unit of the key
    and defaults an empty endpoint; the newer one trims the key and
    leaves the endpoint alone. The revisions of the dialog go with the
    revisions of the service file. *)
Definition savedApiKey (rev : Revision) (settings : Settings) : jsstring :=
  match rev with
  | RevServices => removeWhitespace (trim (apiKey settings))
  | RevPart000 => trim (apiKey settings)
  end.

Definition savedBaseUrl (rev : Revision) (settings : Settings) : jsstring :=
  match rev with
  | RevServices =>
      let finalBaseUrl := stripTrailingSlashes (trim (baseUrl settings)) in
      if bool_decide (finalBaseUrl = []) then FALLBACK_PROXY else finalBaseUrl
  | RevPart000 => baseUrl settings
  end.

(** [cleanedSettings] of [handleSave]. *)
Definition cleanedSettings (rev : Revision) (settings : Settings) : Settings :=
  {| apiKey := savedApiKey rev settings;
     baseUrl := savedBaseUrl rev settings;
     textModel := textModel settings;
     imageModel := imageModel settings;
     customTextModels := customTextModels settings;
     jianYingPath := jianYingPath settings;
     outputImgPath := outputImgPath settings;
     themeColor := themeColor settings |}.

(** [handleTestKey] of the newer revision of the dialog, up to the
    toasts: the connection test with the selected text model as the one
    priority model. *)
Definition handleTestKey {St}
    (generateContent : Client -> Request -> St -> Outcome Response * St)
    (TEXT_MODELS : list ModelRef) (settings : Settings) : M St jsstring :=
  let cleanUrl := trim (baseUrl settings) in
  let cleanKey := trim (apiKey settings) in
  testApiConnection generateContent TEXT_MODELS RevPart000 cleanKey cleanUrl
    [textModel settings].

(** ** Vocabulary of the further statements *)

(** An operation that emits no call mark and no wait of its own. *)
Definition quiet {St T} (operation : M St T) : Prop :=
  forall w, exists evs,
    trace (snd (operation w)) = trace w ++ evs
    /\ Forall (fun ev => isExchange ev = true) evs.

Definition sleeps (tr : list Event) : nat :=
  length (filter (fun ev => isSleep ev = true) tr).

(** The candidates that the probing loop does not skip. *)
Definition probed (rev : Revision) (models : list jsstring) : list jsstring :=
  filter (fun m => skipsModel rev m = false) models.

(** What the closures of [analyzeRoles] and [inferFrameData] make of an
    exchange. *)
Definition rolesPost (JSON_parse : jsstring -> Outcome Json)
    (o : Outcome Response) : Outcome (list Role) :=
  match o with
  | Ok response =>
      Ok match JSON_parse (parsedText response) with
         | Ok (JArr items) =>
             match mapOutcome toRole items with
             | Ok roles => roles
             | Throw _ => []
             end
         | _ => []
         end
  | Throw e => Throw e
  end.

Definition framePost (JSON_parse : jsstring -> Outcome Json)
    (o : Outcome Response) : Outcome InferenceResult :=
  match o with
  | Ok response =>
      andThen (JSON_parse (stripFences (textOr response (js "{}"))))
        toFrameResult
  | Throw e => Throw e
  end.

(** The values of a list of model references. *)
Definition valuesOf (models : list ModelRef) : list jsstring :=
  map value models.

(** The invariant of the custom models of the dialog: no value twice,
    none that is a built-in model, none blank. *)
Definition customModelsOk (settings : Settings) : Prop :=
  NoDup (valuesOf (customModelsOf settings))
  /\ (forall v, (v ∈ valuesOf (customModelsOf settings)) ->
                (v ∉ valuesOf DEFAULT_TEXT_MODELS) /\ v <> []).

(** The selected text model is one that the dialog offers. *)
Definition selectable (settings : Settings) : Prop :=
  textModel settings
  ∈ valuesOf DEFAULT_TEXT_MODELS ++ valuesOf (customModelsOf settings).

Module MoreFixtures.
(** A project of the store, cut down to an id and a name, and a codec
    for lists of them: a code unit [0] ends each field, the code units
    of a field are shifted by one. *)
Definition Project : Type := jsstring * jsstring.

Definition projectId (p : Project) : jsstring := fst p.

Definition field (s : jsstring) : jsstring := map N.succ s ++ [0].

Definition stringifyProjects (ps : list Project) : jsstring :=
  91 :: flat_map (fun p => field (fst p) ++ field (snd p)) ps.

Fixpoint fields (acc : jsstring) (t : jsstring) : list jsstring :=
  match t with
  | [] => []
  | c :: r =>
      if c =? 0 then reverse acc :: fields [] r
      else fields (N.pred c :: acc) r
  end.

Fixpoint pairs (fs : list jsstring) : list Project :=
  match fs with
  | a :: b :: rest => (a, b) :: pairs rest
  | _ => []
  end.

Definition parseProjects (t : jsstring) : Outcome (list Project) :=
  match t with
  | 91 :: r => Ok (pairs (fields [] r))
  | _ => Throw (ErrorObj (js "Unexpected token"))
  end.

Definition DRAFT : Project := (js "p1", js "Draft").
Definition DRAFT_RENAMED : Project := (js "p1", js "Final cut").
Definition TRAILER : Project := (js "p2", js "Trailer").

Definition STORE : gmap jsstring jsstring :=
  {[ KEYS_PROJECTS := stringifyProjects [DRAFT; TRAILER] ]}.

(** A stringifier for the one settings object of [Fixtures.parse]. *)
Definition stringify (v : Json) : jsstring := Fixtures.LEGACY_TEXT.

Definition LEGACY_SETTINGS : gmap jsstring Json :=
  {[ js "legacyTheme" := JNum 1 ]}.

(** The settings read from [LEGACY_TEXT], a text for them, and a codec
    that knows this text too. *)
Definition MERGED_SETTINGS : gmap jsstring Json :=
  mergeSettings LEGACY_SETTINGS.

Definition MERGED_TEXT : jsstring := js "{merged}".

Definition stringifyMerged (v : Json) : jsstring := MERGED_TEXT.

Definition parseMerged (t : jsstring) : Outcome Json :=
  if bool_decide (t = MERGED_TEXT) then Ok (JObj MERGED_SETTINGS)
  else Fixtures.parse t.

Definition LEGACY_STORE : gmap jsstring jsstring :=
  {[ KEYS_SETTINGS := Fixtures.LEGACY_TEXT ]}.

(** An image provider that answers with one inline image, one that
    answers with no candidate, and one that stops for safety. *)
Definition PIXELS : jsstring := js "iVBORw0KGgo".

Definition painting (ai : Client) (request : ImageRequest) (served : nat)
  : Outcome ImageResponse * nat :=
  (Ok {| candidates :=
           Some [{| contentParts :=
                      Some [{| inlineData := None |};
                            {| inlineData := Some {| data := Some PIXELS |} |}];
                    finishReason := Some (js "STOP") |}] |},
   S served).

Definition blank (ai : Client) (request : ImageRequest) (served : nat)
  : Outcome ImageResponse * nat :=
  (Ok {| candidates := None |}, S served).

Definition censoring (ai : Client) (request : ImageRequest) (served : nat)
  : Outcome ImageResponse * nat :=
  (Ok {| candidates :=
           Some [{| contentParts := None; finishReason := Some (js "SAFETY") |}] |},
   S served).

(** Three more texts and a parser that knows them: [null], an array
    with a [null] item, and an array of one shot under the older field
    name and one string. *)
Definition NULL_TEXT : jsstring := js "null".

Definition NULL_ITEM_TEXT : jsstring := js "[null]".

Definition SHOTS_TEXT : jsstring :=
  js "[{" ++ dq ++ js "prompt" ++ dq ++ js ":" ++ dq ++ js "a door" ++ dq
  ++ js "," ++ dq ++ js "activeNames" ++ dq ++ js ":[" ++ dq ++ js "Ann" ++ dq
  ++ js "]}," ++ dq ++ js "x" ++ dq ++ js "]".

Definition SHOTS : list Json :=
  [ JObj (<[ js "prompt" := JStr (js "a door") ]>
            {[ js "activeNames" := JArr [JStr (js "Ann")] ]});
    JStr (js "x") ].

Definition parseMore (t : jsstring) : Outcome Json :=
  if bool_decide (t = NULL_TEXT) then Ok JNull
  else if bool_decide (t = NULL_ITEM_TEXT) then Ok (JArr [JNull])
       else if bool_decide (t = SHOTS_TEXT) then Ok (JArr SHOTS)
            else Fixtures.parse t.

Definition ROLES_REQUEST : Request :=
  textRequest RevPart000 (textModel Fixtures.SETTINGS)
    (rolesPrompt Fixtures.SCRIPT).

Definition FRAME_REQUEST : Request :=
  textRequest RevPart000 (textModel Fixtures.SETTINGS)
    (framePrompt Fixtures.SCRIPT [] [] []).

Definition IMAGE_REQUEST : ImageRequest :=
  imageRequest RevPart000 GEMINI_3_PRO_IMAGE_PREVIEW (js "a door")
    (js "16:9") None None.

(** A provider whose first answer is the text of an outage page and
    whose later answers are the empty array, and a parser whose
    [SyntaxError] quotes the text it rejects, as V8's does. *)
Definition OUTAGE : jsstring := js "Error 503".

Definition recovering (ai : Client) (request : Request) (served : nat)
  : Outcome Response * nat :=
  if (served =? 0)%nat then (Ok {| text := Some OUTAGE |}, S served)
  else (Ok {| text := Some (js "[]") |}, S served).

Definition parseQuoting (t : jsstring) : Outcome Json :=
  if bool_decide (t = js "[]") then Ok (JArr [])
  else Throw (ErrorObj (js "Unexpected token '" ++ take 1 t ++ js "', " ++ dq
                        ++ t ++ dq ++ js " is not valid JSON")).

(** An operation that throws [null]. *)
Definition throwsNull (calls : nat) : Outcome Z * nat :=
  (Throw ThrownNull, S calls).

(** The orchestrated call of [breakdownScript] on an overloaded
    provider. *)
Definition OVERLOADED_RUN : Outcome Json * World nat :=
  executeGeminiCall RevPart000 Fixtures.SETTINGS
    (breakdownOperation Fixtures.overloaded Fixtures.parse RevPart000
       Fixtures.SETTINGS (breakdownPrompt Fixtures.SCRIPT))
    BREAKDOWN_CONTEXT (initial 0%nat).

(** A dialog with one custom model, selected. *)
Definition CUSTOM : jsstring := js "my-tuned-model".

Definition DIALOG : DialogState :=
  {| localSettings :=
       withModels Fixtures.SETTINGS [{| value := CUSTOM; label := CUSTOM |}] CUSTOM;
     customModelInput := js "  another-model ";
     toasts := [] |}.
End MoreFixtures.

(* ===================================================================== *)
(** * Part II: properties                                                 *)
(* ===================================================================== *)

(** ** Facts about the string primitives *)

Lemma dropEndWhile_app (p : N -> bool) (s t : jsstring) :
  dropEndWhile p (s ++ t) =
  match dropEndWhile p t with
  | [] => dropEndWhile p s
  | t' => s ++ t'
  end.
Proof.
  induction s as [|c r IH]; simpl.
  - by destruct (dropEndWhile p t).
  - rewrite IH. destruct (dropEndWhile p t) eqn:Et; [done|].
    by destruct r.
Qed.

Lemma dropEndWhile_length (p : N -> bool) (s : jsstring) :
  (length (dropEndWhile p s) <= length s)%nat.
Proof.
  induction s as [|c r IH]; simpl; [lia|].
  destruct (dropEndWhile p r); simpl in *; [destruct (p c); simpl; lia | lia].
Qed.

Lemma dropStartWhile_length (p : N -> bool) (s : jsstring) :
  (length (dropStartWhile p s) <= length s)%nat.
Proof.
  induction s as [|c r IH]; simpl; [lia|].
  destruct (p c); simpl; lia.
Qed.

Lemma dropEndWhile_none (p : N -> bool) (s : jsstring) :
  Forall (fun c => p c = false) s -> dropEndWhile p s = s.
Proof.
  induction 1 as [|c r Hc _ IH]; simpl; [done|].
  rewrite IH. destruct r; [by rewrite Hc | done].
Qed.

Lemma dropEndWhile_all (p : N -> bool) (s : jsstring) :
  Forall (fun c => p c = true) s -> dropEndWhile p s = [].
Proof.
  induction 1 as [|c r Hc _ IH]; simpl; [done|].
  by rewrite IH, Hc.
Qed.

Lemma dropEndWhile_idem (p : N -> bool) (s : jsstring) :
  dropEndWhile p (dropEndWhile p s) = dropEndWhile p s.
Proof.
  induction s as [|c r IH]; simpl; [done|].
  destruct (dropEndWhile p r) as [|d r'] eqn:Er.
  - destruct (p c) eqn:Ec; simpl; [done | by rewrite Ec].
  - simpl in *. rewrite IH. done.
Qed.

(** A trimmed, non-empty string starts with a code unit that is not
    whitespace, and trimming its end changes nothing. *)
Lemma trim_fixed_start (s : jsstring) :
  trim s = s -> dropStartWhile isWhiteSpace s = s.
Proof.
  unfold trim. intros H.
  destruct s as [|c r]; [done|]. simpl in *.
  destruct (isWhiteSpace c) eqn:Ec; [|done].
  exfalso.
  pose proof (dropEndWhile_length isWhiteSpace (dropStartWhile isWhiteSpace r)).
  pose proof (dropStartWhile_length isWhiteSpace r).
  rewrite H in *. simpl in *. lia.
Qed.

Lemma trim_fixed_end (s : jsstring) :
  trim s = s -> dropEndWhile isWhiteSpace s = s.
Proof.
  intros H. pose proof (trim_fixed_start s H) as Hs.
  unfold trim in H. by rewrite Hs in H.
Qed.

Lemma dropStartWhile_app_fixed (p : N -> bool) (s t : jsstring) :
  s <> [] -> dropStartWhile p s = s -> dropStartWhile p (s ++ t) = s ++ t.
Proof.
  destruct s as [|c r]; [done|]. simpl. intros _ H.
  destruct (p c) eqn:Ec; [|done].
  exfalso. pose proof (dropStartWhile_length p r) as Hl.
  rewrite H in Hl. simpl in Hl. lia.
Qed.

Lemma endsWith_spec (s p : jsstring) :
  endsWith s p = true <-> exists k, s = k ++ p.
Proof.
  unfold endsWith. rewrite bool_decide_eq_true. split.
  - intros H. exists (take (length s - length p) s).
    by rewrite <- H at 2; rewrite take_drop.
  - intros [k ->]. rewrite length_app.
    replace (length k + length p - length p)%nat with (length k) by lia.
    by rewrite drop_app_length.
Qed.

Lemma endsWith_app (k p : jsstring) : endsWith (k ++ p) p = true.
Proof. apply endsWith_spec. by exists k. Qed.

(** Two strings with different last code units: neither ends with the
    other. *)
Lemma endsWith_last_differs (s p : jsstring) (a b : N) :
  a <> b -> endsWith (s ++ [a]) (p ++ [b]) = false.
Proof.
  intros Hab. apply not_true_is_false. intros H.
  apply endsWith_spec in H as [k Hk].
  rewrite app_assoc in Hk. apply app_inj_tail in Hk as [_ ?]. done.
Qed.

Lemma removeWhitespace_clean (s : jsstring) :
  Forall (fun c => isWhiteSpace c = false) (removeWhitespace s).
Proof.
  unfold removeWhitespace. apply Forall_forall. intros c Hc.
  by apply list_elem_of_filter in Hc as [? _].
Qed.

(** After every whitespace code unit is gone, the pattern
    [/^Bearer\s+/i] has nothing to match: it needs a whitespace code unit
    after the word. *)
Lemma stripBearer_no_whitespace (s : jsstring) :
  Forall (fun c => isWhiteSpace c = false) s -> stripBearer s = s.
Proof.
  intros Hs. unfold stripBearer.
  destruct (bool_decide _); [|done]. simpl.
  destruct (drop 6 s) as [|c r] eqn:Ed; [done|].
  assert (Hc : c ∈ s).
  { rewrite <- (take_drop 6 s), Ed. apply elem_of_app. right. left. }
  rewrite Forall_forall in Hs. by rewrite (Hs c Hc).
Qed.

Lemma cleanApiKey_services_is_removeWhitespace (key : jsstring) :
  cleanApiKey RevServices key = removeWhitespace key.
Proof.
  unfold cleanApiKey. case_bool_decide as Hk.
  - by subst.
  - apply stripBearer_no_whitespace, removeWhitespace_clean.
Qed.

(** ** Credential normalizer *)

Lemma removeWhitespace_blank (s : jsstring) :
  Forall (fun c => isWhiteSpace c = true) s -> removeWhitespace s = [].
Proof.
  unfold removeWhitespace. induction 1 as [|c r Hc _ IH]; [done|].
  rewrite filter_cons_False; [done | by rewrite Hc].
Qed.

Lemma trim_blank (s : jsstring) :
  Forall (fun c => isWhiteSpace c = true) s -> trim s = [].
Proof.
  unfold trim. induction 1 as [|c r Hc _ IH]; [done|].
  simpl. by rewrite Hc.
Qed.

(** Both revisions map an empty or whitespace-only credential to the
    empty string. *)
Lemma cleanApiKey_blank (rev : Revision) (key : jsstring) :
  Forall (fun c => isWhiteSpace c = true) key -> cleanApiKey rev key = [].
Proof.
  intros Hws. unfold cleanApiKey. case_bool_decide; [done|].
  destruct rev.
  - rewrite stripBearer_no_whitespace by apply removeWhitespace_clean.
    by apply removeWhitespace_blank.
  - by apply trim_blank.
Qed.

(** C4. On the credential ["  Bearer sk-abc123\uFEFF "] neither revision
    of [cleanApiKey] returns ["sk-abc123"]: the revision that removes
    whitespace returns ["Bearersk-abc123"], because the whitespace after
    [Bearer] is gone before the prefix pattern is tried, and the revision
    that trims returns ["Bearer sk-abc123"]. *)
Theorem cleanApiKey_bearer_example :
  cleanApiKey RevServices Fixtures.BEARER_INPUT = js "Bearersk-abc123"
  /\ cleanApiKey RevPart000 Fixtures.BEARER_INPUT = js "Bearer sk-abc123"
  /\ cleanApiKey RevServices Fixtures.BEARER_INPUT <> js "sk-abc123"
  /\ cleanApiKey RevPart000 Fixtures.BEARER_INPUT <> js "sk-abc123".
Proof. vm_compute. repeat split; discriminate. Qed.

(** ** Endpoint normalizer *)

Lemma dropEndWhile_app_fixed (p : N -> bool) (s t : jsstring) :
  dropEndWhile p s = s -> Forall (fun c => p c = false) t ->
  dropEndWhile p (s ++ t) = s ++ t.
Proof.
  intros Hs Ht. rewrite dropEndWhile_app, (dropEndWhile_none p t Ht).
  destruct t; [by rewrite app_nil_r | done].
Qed.

Lemma stripTrailingSlashes_slashes (s : jsstring) (n : nat) :
  stripTrailingSlashes (s ++ slashes n) = stripTrailingSlashes s.
Proof.
  unfold stripTrailingSlashes. rewrite dropEndWhile_app.
  rewrite dropEndWhile_all; [done|].
  unfold slashes. apply Forall_replicate. done.
Qed.

Lemma slashes_not_whitespace (n : nat) :
  Forall (fun c => isWhiteSpace c = false) (slashes n).
Proof. apply Forall_replicate. done. Qed.

Lemma v1_snoc : js "/v1" = js "/v" ++ [49].
Proof. reflexivity. Qed.

Lemma v1beta_snoc : js "/v1beta" = js "/v1bet" ++ [97].
Proof. reflexivity. Qed.

(** A string that ends in [/v1] does not end in [/v1beta]. *)
Lemma endsWith_v1_not_v1beta (base : jsstring) :
  endsWith (base ++ js "/v1") (js "/v1beta") = false.
Proof.
  rewrite v1_snoc, v1beta_snoc, app_assoc.
  by apply endsWith_last_differs.
Qed.

(** The normalizer on a string that is already trimmed, free of trailing
    slashes and of a version suffix. *)
Lemma cleanBaseUrl_clean (base : jsstring) :
  base <> [] -> trim base = base -> stripTrailingSlashes base = base ->
  endsWith base (js "/v1beta") = false -> endsWith base (js "/v1") = false ->
  cleanBaseUrl (Some base) = noOverrideOr base.
Proof.
  intros Hne Ht Hs H7 H3. unfold cleanBaseUrl, noOverrideOr.
  rewrite Ht, Hs, H7, H3, Hs.
  by rewrite (bool_decide_eq_false_2 _ Hne).
Qed.

(** One pass over [base ++ suffix ++ slashes n], for a version suffix. *)
Lemma cleanBaseUrl_suffix (base suffix : jsstring) (n : nat) :
  base <> [] -> trim base = base -> stripTrailingSlashes base = base ->
  suffix = js "/v1beta" \/ suffix = js "/v1" ->
  cleanBaseUrl (Some (base ++ suffix ++ slashes n)) = noOverrideOr base.
Proof.
  intros Hne Ht Hs Hsuf.
  assert (Hclean : Forall (fun c => isWhiteSpace c = false) (suffix ++ slashes n)).
  { apply Forall_app. split; [|apply slashes_not_whitespace].
    destruct Hsuf as [-> | ->]; by repeat constructor. }
  assert (Hu : base ++ suffix ++ slashes n <> []) by by destruct base.
  assert (Htrim : trim (base ++ suffix ++ slashes n) = base ++ suffix ++ slashes n).
  { unfold trim.
    rewrite dropStartWhile_app_fixed; [|done|by apply trim_fixed_start].
    apply dropEndWhile_app_fixed; [by apply trim_fixed_end | done]. }
  assert (Hstrip : stripTrailingSlashes (base ++ suffix ++ slashes n) = base ++ suffix).
  { rewrite app_assoc, stripTrailingSlashes_slashes.
    unfold stripTrailingSlashes. rewrite dropEndWhile_app.
    by destruct Hsuf as [-> | ->]. }
  unfold cleanBaseUrl, noOverrideOr.
  rewrite Htrim, (bool_decide_eq_false_2 _ Hu). simpl.
  rewrite Hstrip.
  assert (Hcut : (if endsWith (base ++ suffix) (js "/v1beta")
                  then substring0 (base ++ suffix) (length (base ++ suffix) - 7)
                  else if endsWith (base ++ suffix) (js "/v1")
                       then substring0 (base ++ suffix) (length (base ++ suffix) - 3)
                       else base ++ suffix) = base).
  { unfold substring0. destruct Hsuf as [-> | ->].
    - rewrite endsWith_app, length_app.
      replace (length base + length (js "/v1beta") - 7)%nat with (length base)
        by (change (length (js "/v1beta")) with 7%nat; lia).
      by rewrite take_app_length.
    - rewrite endsWith_v1_not_v1beta, endsWith_app, length_app.
      replace (length base + length (js "/v1") - 3)%nat with (length base)
        by (change (length (js "/v1")) with 3%nat; lia).
      by rewrite take_app_length. }
  rewrite Hcut, Hs. done.
Qed.

Lemma cleanBaseUrl_noOverrideOr (base : jsstring) :
  base <> [] -> trim base = base -> stripTrailingSlashes base = base ->
  endsWith base (js "/v1beta") = false -> endsWith base (js "/v1") = false ->
  cleanBaseUrl (noOverrideOr base) = noOverrideOr base.
Proof.
  intros. unfold noOverrideOr at 1. case_bool_decide as Ho.
  - unfold noOverrideOr. by rewrite bool_decide_eq_true_2.
  - by apply cleanBaseUrl_clean.
Qed.

(** C5, as amended. For an endpoint [base ++ suffix ++ slashes n], where
    [base] is non-empty, trimmed and without a trailing slash, and
    [suffix] is [/v1beta], [/v1] or empty, the normalizer removes the
    slashes and exactly that one suffix: it returns [base] (no override
    when [base] is the official endpoint), also when [base] itself ends
    in a version suffix. It is idempotent there when [base] does not
    itself end in [/v1beta] or [/v1]. *)
Theorem cleanBaseUrl_one_suffix_idempotent (base suffix : jsstring) (n : nat) :
  base <> [] -> trim base = base -> stripTrailingSlashes base = base ->
  suffix = js "/v1beta" \/ suffix = js "/v1"
  \/ (suffix = [] /\ endsWith base (js "/v1beta") = false
      /\ endsWith base (js "/v1") = false) ->
  cleanBaseUrl (Some (base ++ suffix ++ slashes n)) = noOverrideOr base
  /\ (endsWith base (js "/v1beta") = false ->
      endsWith base (js "/v1") = false ->
      cleanBaseUrl (cleanBaseUrl (Some (base ++ suffix ++ slashes n)))
      = cleanBaseUrl (Some (base ++ suffix ++ slashes n))).
Proof.
  intros Hne Ht Hs Hsuf.
  assert (Hone : cleanBaseUrl (Some (base ++ suffix ++ slashes n))
                 = noOverrideOr base).
  { destruct Hsuf as [H | [H | (-> & H7 & H3)]].
    - apply cleanBaseUrl_suffix; auto.
    - apply cleanBaseUrl_suffix; auto.
    - simpl.
      assert (Hu : base ++ slashes n <> []) by by destruct base.
      unfold cleanBaseUrl, noOverrideOr.
      assert (Htrim : trim (base ++ slashes n) = base ++ slashes n).
      { unfold trim.
        rewrite dropStartWhile_app_fixed; [|done|by apply trim_fixed_start].
        apply dropEndWhile_app_fixed;
          [by apply trim_fixed_end | apply slashes_not_whitespace]. }
      rewrite Htrim, (bool_decide_eq_false_2 _ Hu). simpl.
      rewrite stripTrailingSlashes_slashes, Hs, H7, H3, Hs. done. }
  split; [done|].
  intros H7 H3. rewrite Hone. by apply cleanBaseUrl_noOverrideOr.
Qed.

(** The official endpoint, with or without a trailing slash or a version
    suffix, gives no override. *)
Example cleanBaseUrl_official :
  cleanBaseUrl (Some OFFICIAL_ENDPOINT) = None
  /\ cleanBaseUrl (Some (OFFICIAL_ENDPOINT ++ js "/")) = None
  /\ cleanBaseUrl (Some (OFFICIAL_ENDPOINT ++ js "/v1beta/")) = None
  /\ cleanBaseUrl None = None
  /\ cleanBaseUrl (Some (js "   ")) = None.
Proof. vm_compute. repeat split. Qed.

(** C5, as stated, fails on an endpoint with two version suffixes: one
    pass removes one of them, a second pass removes the other. *)
Lemma cleanBaseUrl_not_idempotent :
  cleanBaseUrl (Some Fixtures.DOUBLE_SUFFIX)
  = Some (Fixtures.PROXY ++ js "/v1")
  /\ cleanBaseUrl (cleanBaseUrl (Some Fixtures.DOUBLE_SUFFIX))
     = Some Fixtures.PROXY
  /\ cleanBaseUrl (cleanBaseUrl (Some Fixtures.DOUBLE_SUFFIX))
     <> cleanBaseUrl (Some Fixtures.DOUBLE_SUFFIX).
Proof. vm_compute. repeat split; discriminate. Qed.

Lemma cleanBaseUrl_one_suffix_idempotent_witness :
  cleanBaseUrl (Some (Fixtures.PROXY ++ js "/v1beta" ++ slashes 2))
  = Some Fixtures.PROXY
  /\ cleanBaseUrl (cleanBaseUrl (Some (Fixtures.PROXY ++ js "/v1beta" ++ slashes 2)))
     = cleanBaseUrl (Some (Fixtures.PROXY ++ js "/v1beta" ++ slashes 2)).
Proof.
  destruct (cleanBaseUrl_one_suffix_idempotent
              Fixtures.PROXY (js "/v1beta") 2) as [Hone Hidem].
  - intros H. vm_compute in H. discriminate H.
  - vm_compute. reflexivity.
  - vm_compute. reflexivity.
  - left. reflexivity.
  - split.
    + rewrite Hone. vm_compute. reflexivity.
    + apply Hidem; vm_compute; reflexivity.
Defined.

(** ** Error classifier *)

Lemma matchesNone_cons (p : jsstring) (ps : list jsstring) (msg : jsstring) :
  matchesNone (p :: ps) msg -> includes msg p = false /\ matchesNone ps msg.
Proof. intros H. by inversion H. Qed.

(** C6, as stated, fails on a message that contains ["429"] and also an
    earlier pattern of the chain: the earlier pattern decides. *)
Lemma formatError_429_shadowed :
  includes Fixtures.RATE_LIMIT_400 (js "429") = true
  /\ formatError RevPart000 (ErrorObj Fixtures.RATE_LIMIT_400) Fixtures.CONTEXT
     = Fixtures.CONTEXT ++ js ": " ++ MSG_400 RevPart000
  /\ formatError RevPart000 (ErrorObj Fixtures.RATE_LIMIT_400) Fixtures.CONTEXT
     <> Fixtures.CONTEXT ++ js ": " ++ MSG_429
  /\ formatError RevServices (ErrorObj Fixtures.RATE_LIMIT_400) Fixtures.CONTEXT
     <> Fixtures.CONTEXT ++ js ": " ++ MSG_429.
Proof. vm_compute. repeat split; discriminate. Qed.

(** C6, as amended. For every error whose message contains ["429"] and
    none of the patterns tested before it (["400"], ["401"], ["403"],
    ["404"]), and every context label, the classifier returns the
    rate-limit display string prefixed with the label; an error whose
    message matches none of the patterns keeps its message, prefixed with
    the label; and every result is the label, [": "], and a text. *)
Theorem formatError_rate_limit (rev : Revision) (error : JsThrown)
    (context : jsstring) :
  (includes (messageOf error) (js "429") = true ->
   matchesNone PATTERNS_BEFORE_429 (messageOf error) ->
   formatError rev error context = context ++ js ": " ++ MSG_429)
  /\ (matchesNone PATTERNS (messageOf error) ->
      formatError rev error context = context ++ js ": " ++ messageOf error)
  /\ exists shown, formatError rev error context = context ++ js ": " ++ shown.
Proof.
  unfold formatError, classify. repeat split.
  - intros H429 Hnone.
    repeat (apply matchesNone_cons in Hnone as [-> Hnone]).
    by rewrite H429.
  - intros Hnone. unfold PATTERNS, PATTERNS_BEFORE_429 in Hnone. simpl in Hnone.
    repeat (apply matchesNone_cons in Hnone as [-> Hnone]).
    done.
  - eexists. reflexivity.
Qed.

Lemma formatError_rate_limit_witness :
  formatError RevPart000 (ErrorObj Fixtures.RATE_LIMIT) Fixtures.CONTEXT
  = Fixtures.CONTEXT ++ js ": " ++ MSG_429
  /\ formatError RevPart000 (ErrorObj (js "model overloaded")) Fixtures.CONTEXT
     = Fixtures.CONTEXT ++ js ": " ++ js "model overloaded".
Proof.
  destruct (formatError_rate_limit RevPart000 (ErrorObj Fixtures.RATE_LIMIT)
              Fixtures.CONTEXT) as (Hrate & _ & _).
  destruct (formatError_rate_limit RevPart000 (ErrorObj (js "model overloaded"))
              Fixtures.CONTEXT) as (_ & Hnone & _).
  split.
  - apply Hrate.
    + vm_compute. reflexivity.
    + repeat constructor.
  - apply Hnone. repeat constructor.
Defined.

(** ** Retry wrapper *)

Lemma isTransient_true (msg : jsstring) :
  isTransient msg = true
  <-> Exists (fun p => includes msg p = true) TRANSIENT_MARKERS.
Proof.
  unfold isTransient, TRANSIENT_MARKERS.
  rewrite !Exists_cons, Exists_nil, !orb_true_iff. tauto.
Qed.

Lemma isTransient_false (msg : jsstring) :
  isTransient msg = false <-> matchesNone TRANSIENT_MARKERS msg.
Proof.
  unfold isTransient, TRANSIENT_MARKERS, matchesNone.
  rewrite !Forall_cons, Forall_nil, !orb_false_iff. tauto.
Qed.

(** For an [Error] instance the message read by the wrapper carries a
    marker exactly when [message] does: the fallback ["Error"] of an
    empty message carries none. *)
Lemma transientMarked_ErrorObj (m : jsstring) :
  transientMarked (ErrorObj m) <-> isTransient m = true.
Proof.
  unfold transientMarked, messageOrString. split.
  - intros (msg & Hmsg & Hex). apply isTransient_true in Hex.
    case_bool_decide as Hm; [|by simplify_eq].
    subst m. injection Hmsg as <-. by vm_compute in Hex.
  - intros Ht. case_bool_decide as Hm.
    + subst. by vm_compute in Ht.
    + exists m. split; [done | by apply isTransient_true].
Qed.

Section RetryFacts.
Context {St T : Type}.
Variable operation : M St T.
Variables maxRetries baseDelay : Z.

Lemma retryLoop_ok n a le w v w1 :
  operation (calling w) = (Ok v, w1) ->
  retryLoop operation maxRetries baseDelay (S n) a le w = (Ok v, w1).
Proof.
  intros H. cbn [retryLoop]. unfold try_catch, bind, emit. simpl.
  fold (calling w). by rewrite H.
Qed.

Lemma retryLoop_retry n a le w e w1 msg :
  operation (calling w) = (Throw e, w1) ->
  messageOrString e = Ok msg -> isTransient msg = true ->
  (a < maxRetries)%Z ->
  retryLoop operation maxRetries baseDelay (S n) a le w
  = retryLoop operation maxRetries baseDelay n (a + 1) e
      {| ext := ext w1; trace := trace w1 ++ [EvSleep (baseDelay * 2 ^ a)] |}.
Proof.
  intros H Hmsg Ht Ha. cbn [retryLoop].
  unfold try_catch, bind, emit, liftOutcome, sleep. simpl.
  fold (calling w). rewrite H, Hmsg, Ht.
  by rewrite (proj2 (Z.ltb_lt _ _) Ha).
Qed.

Lemma retryLoop_rethrow n a le w e w1 msg :
  operation (calling w) = (Throw e, w1) ->
  messageOrString e = Ok msg ->
  isTransient msg = false \/ (maxRetries <= a)%Z ->
  retryLoop operation maxRetries baseDelay (S n) a le w = (Throw e, w1).
Proof.
  intros H Hmsg Hcase. cbn [retryLoop].
  unfold try_catch, bind, emit, liftOutcome, sleep, throw. simpl.
  fold (calling w). rewrite H, Hmsg.
  destruct Hcase as [-> | Ha]; [done|].
  rewrite (proj2 (Z.ltb_ge _ _) Ha). by destruct (isTransient msg).
Qed.

Lemma retryLoop_type_error n a le w e w1 te :
  operation (calling w) = (Throw e, w1) ->
  messageOrString e = Throw te ->
  retryLoop operation maxRetries baseDelay (S n) a le w = (Throw te, w1).
Proof.
  intros H Hmsg. cbn [retryLoop].
  unfold try_catch, bind, emit, liftOutcome. simpl.
  fold (calling w). by rewrite H, Hmsg.
Qed.

(** Nothing happens after the last call of the operation: the loop
    ends in the world in which that call ended, with its value if it
    resolved and with a thrown value if it rejected. *)
Lemma retryLoop_last n a le w o w' :
  (0 < n)%nat -> Z.of_nat n = (maxRetries + 1 - a)%Z ->
  retryLoop operation maxRetries baseDelay n a le w = (o, w') ->
  exists w0 o1,
    operation w0 = (o1, w')
    /\ match o1 with
       | Ok v => o = Ok v
       | Throw _ => exists e, o = Throw e
       end.
Proof.
  revert a le w. induction n as [|n IH]; intros a le w Hn Hinv Hrun; [lia|].
  destruct (operation (calling w)) as [[v|e] w1] eqn:Hop.
  - rewrite (retryLoop_ok _ _ _ _ _ _ Hop) in Hrun. simplify_eq.
    exists (calling w), (Ok v). done.
  - destruct (messageOrString e) as [msg|te] eqn:Hmsg.
    + destruct (isTransient msg) eqn:Ht.
      * destruct (Z_lt_le_dec a maxRetries) as [Ha|Ha].
        -- rewrite (retryLoop_retry _ _ _ _ _ _ _ Hop Hmsg Ht Ha) in Hrun.
           apply IH in Hrun; [done | lia | lia].
        -- rewrite (retryLoop_rethrow _ _ _ _ _ _ _ Hop Hmsg (or_intror Ha)) in Hrun.
           simplify_eq. exists (calling w), (Throw e). eauto.
      * rewrite (retryLoop_rethrow _ _ _ _ _ _ _ Hop Hmsg (or_introl Ht)) in Hrun.
        simplify_eq. exists (calling w), (Throw e). eauto.
    + rewrite (retryLoop_type_error _ _ _ _ _ _ _ Hop Hmsg) in Hrun.
      simplify_eq. exists (calling w), (Throw e). eauto.
Qed.
End RetryFacts.

Lemma invocations_app (tr1 tr2 : list Event) :
  invocations (tr1 ++ tr2) = (invocations tr1 + invocations tr2)%nat.
Proof. unfold invocations. by rewrite filter_app, length_app. Qed.

Lemma totalWait_app (tr1 tr2 : list Event) :
  totalWait (tr1 ++ tr2) = (totalWait tr1 + totalWait tr2)%Z.
Proof.
  unfold totalWait. induction tr1 as [|ev tr IH]; simpl; [done|].
  rewrite IH. lia.
Qed.

Lemma invocations_backoffTrace (baseDelay a : Z) (k : nat) :
  invocations (backoffTrace baseDelay a k) = k.
Proof.
  revert a. induction k as [|k IH]; intros a; [done|].
  cbn [backoffTrace].
  specialize (IH (a + 1)%Z).
  unfold invocations in *. rewrite filter_cons_True by done.
  rewrite filter_cons_False by done. simpl. by rewrite IH.
Qed.

Lemma totalWait_backoffTrace (baseDelay a : Z) (k : nat) :
  (0 <= a)%Z ->
  totalWait (backoffTrace baseDelay a k)
  = (baseDelay * 2 ^ a * (2 ^ Z.of_nat k - 1))%Z.
Proof.
  revert a. induction k as [|k IH]; intros a Ha.
  - simpl. lia.
  - cbn [backoffTrace]. unfold totalWait in *. cbn [foldr waitOf].
    rewrite IH by lia.
    rewrite Nat2Z.inj_succ, !Z.pow_succ_r by lia.
    rewrite Z.add_1_r, Z.pow_succ_r by lia. ring.
Qed.

Section RetryScript.
Context {St T : Type}.
Variable op : St -> Outcome T * St.
Variables maxRetries baseDelay : Z.

Lemma liftOp_calling (w : World St) :
  liftOp op (calling w)
  = (fst (op (ext w)),
     {| ext := snd (op (ext w)); trace := trace w ++ [EvInvoke] |}).
Proof. unfold liftOp, calling. simpl. by destruct (op (ext w)). Qed.

(** [k] transient failures and then a success, with rounds to spare:
    the loop returns the value after [k] backoff rounds and one more
    call. *)
Lemma retryLoop_succeeds k : forall n a le w errs sk v s',
  failures op k (ext w) = Some (errs, sk) ->
  Forall transientMarked errs ->
  op sk = (Ok v, s') ->
  (0 <= a)%Z -> Z.of_nat n = (maxRetries + 1 - a)%Z -> (k < n)%nat ->
  retryLoop (liftOp op) maxRetries baseDelay n a le w
  = (Ok v, {| ext := s';
              trace := trace w ++ backoffTrace baseDelay a k ++ [EvInvoke] |}).
Proof.
  induction k as [|k IH]; intros n a le w errs sk v s' Hf Hall Hok Ha Hinv Hk.
  - simpl in Hf. simplify_eq. destruct n as [|n]; [lia|].
    apply retryLoop_ok. rewrite liftOp_calling, Hok. done.
  - cbn [failures] in Hf.
    destruct (op (ext w)) as [[?|e] s1] eqn:Hop; [done|].
    destruct (failures op k s1) as [[errs' sk']|] eqn:Hf'; [|done].
    simplify_eq. apply Forall_cons in Hall as [(msg & Hmsg & Hex) Hall].
    apply isTransient_true in Hex.
    destruct n as [|n]; [lia|].
    erewrite retryLoop_retry; [| by rewrite liftOp_calling, Hop | done | done | lia].
    erewrite IH; [|done|done|done|lia|lia|lia].
    simpl. by rewrite <- !app_assoc.
Qed.

(** More transient failures than rounds: the loop throws what the last
    round caught, after as many calls as rounds. *)
Lemma retryLoop_exhausted n : forall a le w k errs sk,
  failures op k (ext w) = Some (errs, sk) ->
  Forall transientMarked errs ->
  (0 <= a)%Z -> Z.of_nat n = (maxRetries + 1 - a)%Z ->
  (0 < n <= k)%nat ->
  exists e s1,
    errs !! (n - 1)%nat = Some e
    /\ retryLoop (liftOp op) maxRetries baseDelay n a le w
       = (Throw e,
          {| ext := s1;
             trace := trace w ++ backoffTrace baseDelay a (n - 1) ++ [EvInvoke] |}).
Proof.
  induction n as [|n IH]; intros a le w k errs sk Hf Hall Ha Hinv Hk; [lia|].
  destruct k as [|k]; [lia|]. cbn [failures] in Hf.
  destruct (op (ext w)) as [[?|e] s1] eqn:Hop; [done|].
  destruct (failures op k s1) as [[errs' sk']|] eqn:Hf'; [|done].
  simplify_eq. apply Forall_cons in Hall as [(msg & Hmsg & Hex) Hall].
  apply isTransient_true in Hex.
  destruct (decide (n = 0%nat)) as [->|Hn].
  - exists e, s1. split; [done|].
    erewrite retryLoop_rethrow;
      [done | by rewrite liftOp_calling, Hop | done | right; lia].
  - erewrite retryLoop_retry; [| by rewrite liftOp_calling, Hop | done | done | lia].
    edestruct (IH (a + 1)%Z e
                 {| ext := s1;
                    trace := (trace w ++ [EvInvoke]) ++ [EvSleep (baseDelay * 2 ^ a)] |}
                 k errs' sk) as (e' & s2 & Hlook & Hrun);
      [done | done | lia | lia | lia |].
    exists e', s2. split.
    + replace (S n - 1)%nat with (S (n - 1)) by lia. done.
    + simpl in *. rewrite Hrun. f_equal. f_equal.
      replace (n - 0)%nat with (S (n - 1)) by lia.
      simpl. by rewrite <- !app_assoc.
Qed.

(** C1. An operation that fails with a transient-marked error exactly
    [k] times and then succeeds: when [k <= maxRetries] the wrapper
    returns the success value after exactly [k + 1] calls of the
    operation, having requested a total wait of at least
    [baseDelay * (2 ^ k - 1)]; when [k > maxRetries] it throws the
    error of its last call, after exactly [maxRetries + 1] calls. *)
Theorem retryOperation_transient_failures k s errs sk v s' :
  failures op k s = Some (errs, sk) ->
  Forall transientMarked errs ->
  op sk = (Ok v, s') ->
  ((Z.of_nat k <= maxRetries)%Z ->
   exists w',
     retryOperation (liftOp op) maxRetries baseDelay (initial s) = (Ok v, w')
     /\ invocations (trace w') = (k + 1)%nat
     /\ (totalWait (trace w') >= baseDelay * (2 ^ Z.of_nat k - 1))%Z)
  /\ ((0 <= maxRetries < Z.of_nat k)%Z ->
      exists e w',
        retryOperation (liftOp op) maxRetries baseDelay (initial s)
        = (Throw e, w')
        /\ errs !! Z.to_nat maxRetries = Some e
        /\ invocations (trace w') = (Z.to_nat maxRetries + 1)%nat).
Proof.
  intros Hf Hall Hok. split.
  - intros Hk. eexists. split; [|split].
    + unfold retryOperation.
      eapply (retryLoop_succeeds k); eauto; simpl; lia.
    + simpl. rewrite invocations_app, invocations_backoffTrace. done.
    + simpl. rewrite totalWait_app, totalWait_backoffTrace by lia.
      simpl. lia.
  - intros Hk.
    destruct (retryLoop_exhausted (Z.to_nat (maxRetries + 1)) 0 ThrownUndefined
                (initial s) k errs sk) as (e & s1 & Hlook & Hrun);
      [done | done | lia | lia | lia |].
    exists e. eexists. split; [exact Hrun|]. split.
    + rewrite <- Hlook. f_equal. lia.
    + simpl. rewrite invocations_app, invocations_backoffTrace. simpl.
      unfold invocations. simpl. lia.
Qed.

(** C2. An operation whose first call fails with an error whose message
    carries no transient marker: the wrapper throws that error after
    exactly one call, with no wait. *)
Theorem retryOperation_non_transient s e s1 msg :
  (0 <= maxRetries)%Z ->
  op s = (Throw e, s1) ->
  messageOrString e = Ok msg ->
  matchesNone TRANSIENT_MARKERS msg ->
  exists w',
    retryOperation (liftOp op) maxRetries baseDelay (initial s) = (Throw e, w')
    /\ invocations (trace w') = 1%nat
    /\ Forall (fun ev => isSleep ev = false) (trace w')
    /\ totalWait (trace w') = 0%Z.
Proof.
  intros Hmr Hop Hmsg Hnone. apply isTransient_false in Hnone.
  exists {| ext := s1; trace := [EvInvoke] |}. split; [|by repeat constructor].
  unfold retryOperation.
  destruct (Z.to_nat (maxRetries + 1)) as [|n] eqn:Hn; [lia|].
  eapply retryLoop_rethrow; [|exact Hmsg|by left].
  rewrite liftOp_calling. simpl. by rewrite Hop.
Qed.
End RetryScript.

Lemma retryOperation_transient_failures_witness :
  (exists w',
     retryOperation (liftOp Fixtures.flaky) 3 2000 (initial 0%nat) = (Ok 7%Z, w')
     /\ invocations (trace w') = (2 + 1)%nat
     /\ (totalWait (trace w') >= 2000 * (2 ^ Z.of_nat 2 - 1))%Z)
  /\ (exists e w',
        retryOperation (liftOp Fixtures.flaky) 1 2000 (initial 0%nat) = (Throw e, w')
        /\ [ErrorObj Fixtures.RATE_LIMIT; ErrorObj Fixtures.RATE_LIMIT] !! Z.to_nat 1
           = Some e
        /\ invocations (trace w') = (Z.to_nat 1 + 1)%nat).
Proof.
  assert (Hmarked : Forall transientMarked
            [ErrorObj Fixtures.RATE_LIMIT; ErrorObj Fixtures.RATE_LIMIT]).
  { repeat constructor; apply transientMarked_ErrorObj; vm_compute; reflexivity. }
  split.
  - apply (retryOperation_transient_failures Fixtures.flaky 3 2000 2 0%nat
             [ErrorObj Fixtures.RATE_LIMIT; ErrorObj Fixtures.RATE_LIMIT]
             2%nat 7%Z 3%nat);
      [reflexivity | exact Hmarked | reflexivity | lia].
  - apply (retryOperation_transient_failures Fixtures.flaky 1 2000 2 0%nat
             [ErrorObj Fixtures.RATE_LIMIT; ErrorObj Fixtures.RATE_LIMIT]
             2%nat 7%Z 3%nat);
      [reflexivity | exact Hmarked | reflexivity | lia].
Defined.

Lemma retryOperation_non_transient_witness :
  exists w',
    retryOperation (liftOp Fixtures.refused) 3 2000 (initial 0%nat)
    = (Throw (ErrorObj Fixtures.UNAUTHORIZED), w')
    /\ invocations (trace w') = 1%nat
    /\ Forall (fun ev => isSleep ev = false) (trace w')
    /\ totalWait (trace w') = 0%Z.
Proof.
  apply (retryOperation_non_transient Fixtures.refused 3 2000 0%nat
           (ErrorObj Fixtures.UNAUTHORIZED) 1%nat Fixtures.UNAUTHORIZED).
  - lia.
  - reflexivity.
  - reflexivity.
  - repeat constructor.
Defined.

(** ** Connectivity prober *)

Lemma dedupFrom_ext (seen1 seen2 xs : list jsstring) :
  (forall z, z ∈ seen1 <-> z ∈ seen2) ->
  dedupFrom seen1 xs = dedupFrom seen2 xs.
Proof.
  revert seen1 seen2. induction xs as [|x r IH]; intros seen1 seen2 Hs; [done|].
  simpl. rewrite (bool_decide_ext _ _ (Hs x)).
  destruct (bool_decide (x ∈ seen2)); [by apply IH|].
  f_equal. apply IH. intros z. rewrite !elem_of_cons. by rewrite Hs.
Qed.

Lemma dedupFrom_extra (xs seen extra : list jsstring) :
  dedupFrom (extra ++ seen) xs
  = filter (fun y => y ∉ extra) (dedupFrom seen xs).
Proof.
  revert seen extra. induction xs as [|x r IH]; intros seen extra; [done|].
  simpl. destruct (decide (x ∈ seen)) as [Hseen|Hseen].
  - rewrite (bool_decide_eq_true_2 (x ∈ seen)) by done.
    rewrite bool_decide_eq_true_2 by (apply elem_of_app; by right). apply IH.
  - rewrite (bool_decide_eq_false_2 (x ∈ seen)) by done.
    destruct (decide (x ∈ extra)) as [Hex|Hex].
    + rewrite bool_decide_eq_true_2 by (apply elem_of_app; by left).
      rewrite filter_cons_False by (by intros ?).
      rewrite (IH seen extra). change (x :: seen) with ([x] ++ seen).
      rewrite (IH seen [x]), list_filter_filter.
      apply list_filter_iff. intros y. split; [|tauto].
      intros Hy. split; [done|]. intros ->%list_elem_of_singleton. done.
    + rewrite bool_decide_eq_false_2
        by (rewrite elem_of_app; intros [?|?]; done).
      rewrite filter_cons_True by done. f_equal.
      rewrite <- (IH (x :: seen) extra). apply dedupFrom_ext.
      intros z. rewrite !elem_of_cons, !elem_of_app, !elem_of_cons. tauto.
Qed.

Lemma dedupFrom_app (xs ys seen : list jsstring) :
  dedupFrom seen (xs ++ ys) = dedupFrom seen xs ++ dedupFrom (xs ++ seen) ys.
Proof.
  revert seen. induction xs as [|x r IH]; intros seen; [done|].
  simpl. destruct (decide (x ∈ seen)) as [Hseen|Hseen].
  - rewrite (bool_decide_eq_true_2 (x ∈ seen)) by done.
    rewrite IH. f_equal. apply dedupFrom_ext.
    intros z. rewrite !elem_of_cons, !elem_of_app. split; [tauto|].
    intros [-> | [?|?]]; tauto.
  - rewrite (bool_decide_eq_false_2 (x ∈ seen)) by done.
    simpl. f_equal. rewrite IH. f_equal. apply dedupFrom_ext.
    intros z. rewrite !elem_of_cons, !elem_of_app, !elem_of_cons. tauto.
Qed.

(** The distinct values of [xs], each at its first occurrence, followed
    by the distinct values of [ys] that [xs] does not have. *)
Lemma dedup_app (xs ys : list jsstring) :
  dedup (xs ++ ys) = dedup xs ++ filter (fun y => y ∉ xs) (dedup ys).
Proof.
  unfold dedup. rewrite dedupFrom_app. f_equal.
  rewrite <- (dedupFrom_extra ys [] xs). done.
Qed.

Lemma elem_of_dedupFrom (xs seen : list jsstring) (y : jsstring) :
  y ∈ dedupFrom seen xs <-> y ∈ xs /\ y ∉ seen.
Proof.
  revert seen. induction xs as [|x r IH]; intros seen; simpl.
  - rewrite elem_of_nil. tauto.
  - case_bool_decide as Hseen.
    + rewrite IH, elem_of_cons. split; [tauto|].
      intros [[-> | ?] ?]; tauto.
    + rewrite !elem_of_cons, IH, elem_of_cons.
      destruct (decide (y = x)) as [->|]; tauto.
Qed.

Lemma NoDup_dedupFrom (xs seen : list jsstring) : NoDup (dedupFrom seen xs).
Proof.
  revert seen. induction xs as [|x r IH]; intros seen; simpl; [constructor|].
  case_bool_decide; [apply IH|].
  constructor; [|apply IH].
  rewrite elem_of_dedupFrom, elem_of_cons. tauto.
Qed.

Lemma default_last_cons {A} (a x : A) (l : list A) :
  default a (last (x :: l)) = default x (last l).
Proof.
  revert a x. induction l as [|y l IH]; intros a x; [done|].
  rewrite last_cons_cons, IH. symmetry. apply IH.
Qed.

Section ProbeFacts.
Context {St : Type}.
Variable generateContent : Client -> Request -> St -> Outcome Response * St.

Lemma probeModels_skip rev ai modelName rest le (w : World St) :
  skipsModel rev modelName = true ->
  probeModels generateContent rev ai (modelName :: rest) le w
  = probeModels generateContent rev ai rest le w.
Proof. intros H. cbn [probeModels]. by rewrite H. Qed.

Lemma probeModels_ok rev ai modelName rest le (w : World St) r s1 :
  skipsModel rev modelName = false ->
  generateContent ai (pingRequest rev modelName) (ext w) = (Ok r, s1) ->
  probeModels generateContent rev ai (modelName :: rest) le w
  = (Ok modelName,
     {| ext := s1;
        trace := trace w ++ [EvExchange ai (pingRequest rev modelName) (Ok r)] |}).
Proof.
  intros Hs H. cbn [probeModels]. rewrite Hs.
  unfold try_catch, bind, generate, ret. by rewrite H.
Qed.

Lemma probeModels_fail rev ai modelName rest le (w : World St) e s1 :
  skipsModel rev modelName = false ->
  generateContent ai (pingRequest rev modelName) (ext w) = (Throw e, s1) ->
  probeModels generateContent rev ai (modelName :: rest) le w
  = probeModels generateContent rev ai rest e
      {| ext := s1;
         trace := trace w ++ [EvExchange ai (pingRequest rev modelName) (Throw e)] |}.
Proof.
  intros Hs H. cbn [probeModels]. rewrite Hs.
  unfold try_catch, bind, generate, ret. by rewrite H.
Qed.

(** When every candidate fails, the loop throws the classified form of
    the last failure, or of the initial [lastError] when no candidate
    was tried; each failure is one failed exchange. *)
Lemma probeModels_all_fail rev ai models : forall le (w : World St) errs s',
  failedPings generateContent rev ai models (ext w) = Some (errs, s') ->
  exists evs,
    probeModels generateContent rev ai models le w
    = (Throw (ErrorObj (formatError rev (default le (last errs)) ALL_FAILED)),
       {| ext := s'; trace := trace w ++ evs |})
    /\ Forall (fun ev => isFailedExchange ev = true) evs
    /\ length evs = length errs.
Proof.
  induction models as [|m rest IH]; intros le w errs s' Hf.
  - simpl in Hf. simplify_eq. exists []. rewrite app_nil_r.
    by destruct w.
  - cbn [failedPings] in Hf. destruct (skipsModel rev m) eqn:Hs.
    + rewrite probeModels_skip by done. by apply IH.
    + destruct (generateContent ai (pingRequest rev m) (ext w))
        as [[?|e] s1] eqn:Hg; [done|].
      destruct (failedPings generateContent rev ai rest s1)
        as [[errs' s'']|] eqn:Hf'; [|done].
      simplify_eq. erewrite probeModels_fail by done.
      edestruct (IH e {| ext := s1;
                         trace := trace w ++ [EvExchange ai (pingRequest rev m) (Throw e)] |})
        as (evs & Hrun & Hall & Hlen); [exact Hf'|].
      exists (EvExchange ai (pingRequest rev m) (Throw e) :: evs).
      split; [|split].
      * rewrite Hrun. simpl. rewrite <- app_assoc. simpl.
        by rewrite (default_last_cons le e errs').
      * by constructor.
      * simpl. by rewrite Hlen.
Qed.

Variable TEXT_MODELS : list ModelRef.

(** C7, as amended. With candidates [A; B; ...] of which [A]'s ping
    fails and [B]'s succeeds, the prober returns [B] after exactly one
    failed attempt and one successful attempt, and requests no later
    candidate. When every candidate fails, it throws the classified
    form of the last candidate's failure. In [RevPart000] the
    candidates are the caller's priority models, then the built-in
    ones that are not among them, each once, in first-seen order; with
    a non-empty credential [testApiConnection] is the probing loop over
    them. *)
Theorem testApiConnection_probe :
  (forall rev ai A B rest le (w : World St) eA sA rB sB,
     skipsModel rev A = false -> skipsModel rev B = false ->
     generateContent ai (pingRequest rev A) (ext w) = (Throw eA, sA) ->
     generateContent ai (pingRequest rev B) sA = (Ok rB, sB) ->
     exists evs,
       probeModels generateContent rev ai (A :: B :: rest) le w
       = (Ok B, {| ext := sB; trace := trace w ++ evs |})
       /\ failedAttempts evs = 1%nat
       /\ successfulAttempts evs = 1%nat
       /\ requestedModels evs = [A; B])
  /\ (forall rev ai models le (w : World St) errs s' e,
        failedPings generateContent rev ai models (ext w) = Some (errs, s') ->
        last errs = Some e ->
        exists evs,
          probeModels generateContent rev ai models le w
          = (Throw (ErrorObj (formatError rev e ALL_FAILED)),
             {| ext := s'; trace := trace w ++ evs |})
          /\ failedAttempts evs = length errs
          /\ successfulAttempts evs = 0%nat)
  /\ (forall priorityModels,
        modelsToTry TEXT_MODELS RevPart000 priorityModels
        = dedup priorityModels
          ++ filter (fun m => m ∉ priorityModels) (map value DEFAULT_TEXT_MODELS)
        /\ NoDup (modelsToTry TEXT_MODELS RevPart000 priorityModels))
  /\ (forall rev apiKey baseUrl priorityModels (w : World St),
        cleanApiKey rev apiKey <> [] ->
        testApiConnection generateContent TEXT_MODELS rev apiKey baseUrl
          priorityModels w
        = probeModels generateContent rev
            (createClient rev (cleanApiKey rev apiKey) (cleanBaseUrl (Some baseUrl)))
            (modelsToTry TEXT_MODELS rev priorityModels) ThrownNull w).
Proof.
  repeat split.
  - intros rev ai A B rest le w eA sA rB sB HA HB HgA HgB.
    exists [EvExchange ai (pingRequest rev A) (Throw eA);
            EvExchange ai (pingRequest rev B) (Ok rB)].
    split; [|by repeat split].
    erewrite probeModels_fail by done.
    erewrite probeModels_ok by done.
    simpl. by rewrite <- app_assoc.
  - intros rev ai models le w errs s' e Hf Hlast.
    destruct (probeModels_all_fail rev ai models le w errs s' Hf)
      as (evs & Hrun & Hall & Hlen).
    rewrite Hlast in Hrun. exists evs. split; [done|]. split.
    + unfold failedAttempts. rewrite <- Hlen. f_equal.
      clear -Hall. induction Hall as [|ev evs Hev _ IH]; [done|].
      rewrite filter_cons_True by done. by f_equal.
    + unfold successfulAttempts. clear -Hall.
      induction Hall as [|ev evs Hev _ IH]; [done|].
      rewrite filter_cons_False; [done|].
      destruct ev as [| |? ? [?|?]]; done.
  - unfold modelsToTry. rewrite dedup_app. done.
  - apply NoDup_dedupFrom.
  - intros rev apiKey baseUrl priorityModels w Hkey.
    unfold testApiConnection. by rewrite bool_decide_eq_false_2.
Qed.
End ProbeFacts.

(** C7, as stated, fails: with candidates [A; B; C] of which only [B]
    answers, the prober returns [B] after one failed attempt, not two. *)
Lemma probeModels_one_failure_before_B :
  let run := probeModels Fixtures.onlyB RevPart000 Fixtures.CLIENT
               [Fixtures.MODEL_A; Fixtures.MODEL_B; Fixtures.MODEL_C]
               ThrownNull (initial 0%nat) in
  fst run = Ok Fixtures.MODEL_B
  /\ failedAttempts (trace (snd run)) = 1%nat
  /\ successfulAttempts (trace (snd run)) = 1%nat
  /\ requestedModels (trace (snd run)) = [Fixtures.MODEL_A; Fixtures.MODEL_B]
  /\ failedAttempts (trace (snd run)) <> 2%nat.
Proof. vm_compute. repeat split; discriminate. Qed.

Lemma testApiConnection_probe_witness :
  (exists evs,
     probeModels Fixtures.onlyB RevPart000 Fixtures.CLIENT
       [Fixtures.MODEL_A; Fixtures.MODEL_B; Fixtures.MODEL_C]
       ThrownNull (initial 0%nat)
     = (Ok Fixtures.MODEL_B, {| ext := 2%nat; trace := trace (initial 0%nat) ++ evs |})
     /\ failedAttempts evs = 1%nat
     /\ successfulAttempts evs = 1%nat
     /\ requestedModels evs = [Fixtures.MODEL_A; Fixtures.MODEL_B])
  /\ (exists evs,
        probeModels Fixtures.overloaded RevPart000 Fixtures.CLIENT
          [Fixtures.MODEL_A; Fixtures.MODEL_B; Fixtures.MODEL_C]
          ThrownNull (initial 0%nat)
        = (Throw (ErrorObj (formatError RevPart000
                              (ErrorObj (js "503 overloaded: " ++ Fixtures.MODEL_C))
                              ALL_FAILED)),
           {| ext := 3%nat; trace := trace (initial 0%nat) ++ evs |})
        /\ failedAttempts evs = 3%nat
        /\ successfulAttempts evs = 0%nat).
Proof.
  destruct (testApiConnection_probe Fixtures.onlyB []) as (Hfirst & _).
  destruct (testApiConnection_probe Fixtures.overloaded []) as (_ & Hlast & _).
  split.
  - apply (Hfirst RevPart000 Fixtures.CLIENT Fixtures.MODEL_A Fixtures.MODEL_B
             [Fixtures.MODEL_C] ThrownNull (initial 0%nat)
             Fixtures.NOT_FOUND 1%nat Fixtures.PONG 2%nat);
      vm_compute; reflexivity.
  - apply (Hlast RevPart000 Fixtures.CLIENT
             [Fixtures.MODEL_A; Fixtures.MODEL_B; Fixtures.MODEL_C]
             ThrownNull (initial 0%nat)
             [ErrorObj (js "503 overloaded: " ++ Fixtures.MODEL_A);
              ErrorObj (js "503 overloaded: " ++ Fixtures.MODEL_B);
              ErrorObj (js "503 overloaded: " ++ Fixtures.MODEL_C)]
             3%nat);
      vm_compute; reflexivity.
Defined.

(** ** Call orchestrator *)

Section OrchestratorFacts.
Context {St T : Type}.
Variable generateContent : Client -> Request -> St -> Outcome Response * St.

(** The orchestrator around an operation that is one exchange: either
    the credential is empty and nothing happens, or the run ends with
    an exchange, and returns what the operation makes of it or throws
    when the operation does. *)
Lemma executeGeminiCall_exchange rev settings (operation : Client -> M St T)
    contextName request post (w : World St) res w' :
  (forall ai w0, operation ai w0 = exchangeOp generateContent ai request post w0) ->
  executeGeminiCall rev settings operation contextName w = (res, w') ->
  (cleanApiKey rev (apiKey settings) = [] /\ w' = w
   /\ res = Throw (ErrorObj (js "未配置 API Key")))
  \/ (cleanApiKey rev (apiKey settings) <> []
      /\ exists ai tr o,
           trace w' = tr ++ [EvExchange ai request o]
           /\ match post o with
              | Ok v => res = Ok v
              | Throw _ => exists e, res = Throw e
              end).
Proof.
  intros Hop. unfold executeGeminiCall. case_bool_decide as Hkey.
  - unfold throw. intros ?; simplify_eq. by left.
  - intros Hrun. right. split; [done|].
    unfold try_catch in Hrun.
    set (ai := createClient rev (cleanApiKey rev (apiKey settings))
                 (cleanBaseUrl (Some (baseUrl settings)))) in *.
    destruct (retryOperation (operation ai) 3 2000 w) as [o1 w1] eqn:Hretry.
    unfold retryOperation in Hretry.
    apply retryLoop_last in Hretry as (w0 & o0 & Hcall & Hres); [|simpl; lia|simpl; lia].
    rewrite Hop in Hcall. unfold exchangeOp in Hcall.
    destruct (generateContent ai request (ext w0)) as [o s'] eqn:Hg.
    simplify_eq. exists ai, (trace w0), o.
    destruct (post o) as [v|e0].
    + subst o1. simplify_eq. done.
    + destruct Hres as [e ->]. unfold throw in Hrun. simplify_eq. eauto.
Qed.

(** An exchange from which the operation resolves ends the retry loop:
    it is the last event of the run. *)
Lemma retryLoop_resolved_last (operation : M St T) ai request post
    maxRetries baseDelay n : forall a le (w : World St) o w',
  (forall w0, operation w0 = exchangeOp generateContent ai request post w0) ->
  retryLoop operation maxRetries baseDelay n a le w = (o, w') ->
  (forall ev, ev ∈ trace w -> ~ resolves post ev) ->
  forall ev, ev ∈ trace w' -> resolves post ev -> last (trace w') = Some ev.
Proof.
  induction n as [|n IH]; intros a le w o w' Hop Hrun Hinit ev Hev Hres.
  - simpl in Hrun. unfold throw in Hrun. simplify_eq. by destruct (Hinit ev).
  - pose proof (Hop (calling w)) as Hcall. unfold exchangeOp in Hcall.
    destruct (generateContent ai request (ext (calling w))) as [o1 s1] eqn:Hg.
    simpl in Hcall.
    assert (Hstep : forall ev0,
              ev0 ∈ (trace w ++ [EvInvoke]) ++ [EvExchange ai request o1] ->
              resolves post ev0 -> ev0 = EvExchange ai request o1).
    { intros ev0 [[Hin| ->%list_elem_of_singleton]%elem_of_app
                 | ->%list_elem_of_singleton]%elem_of_app Hr;
        [by destruct (Hinit ev0) | done | done]. }
    destruct (post o1) as [v|e] eqn:Hpost.
    + rewrite (retryLoop_ok _ _ _ _ _ _ _ _ _ Hcall) in Hrun. simplify_eq.
      simpl in *. rewrite (Hstep ev Hev Hres). apply last_snoc.
    + assert (Hno : forall ev0,
                ev0 ∈ (trace w ++ [EvInvoke]) ++ [EvExchange ai request o1] ->
                ~ resolves post ev0).
      { intros ev0 Hin Hr. rewrite (Hstep ev0 Hin Hr) in Hr.
        simpl in Hr. destruct Hr as [v Hv]. congruence. }
      destruct (messageOrString e) as [msg|te] eqn:Hmsg.
      * destruct (isTransient msg) eqn:Ht.
        -- destruct (Z_lt_le_dec a maxRetries) as [Ha|Ha].
           ++ rewrite (retryLoop_retry _ _ _ _ _ _ _ _ _ _ Hcall Hmsg Ht Ha) in Hrun.
              eapply IH; [exact Hop | exact Hrun | | exact Hev | exact Hres].
              simpl. intros ev0 [Hin| ->%list_elem_of_singleton]%elem_of_app;
                [by apply Hno | by intros ?].
           ++ rewrite (retryLoop_rethrow _ _ _ _ _ _ _ _ _ _ Hcall Hmsg (or_intror Ha))
                in Hrun.
              simplify_eq. by destruct (Hno ev).
        -- rewrite (retryLoop_rethrow _ _ _ _ _ _ _ _ _ _ Hcall Hmsg (or_introl Ht))
             in Hrun.
           simplify_eq. by destruct (Hno ev).
      * rewrite (retryLoop_type_error _ _ _ _ _ _ _ _ _ _ Hcall Hmsg) in Hrun.
        simplify_eq. by destruct (Hno ev).
Qed.

Lemma executeGeminiCall_resolved_last rev settings (operation : Client -> M St T)
    contextName request post (w : World St) res w' :
  (forall ai w0, operation ai w0 = exchangeOp generateContent ai request post w0) ->
  executeGeminiCall rev settings operation contextName w = (res, w') ->
  (forall ev, ev ∈ trace w -> ~ resolves post ev) ->
  forall ev, ev ∈ trace w' -> resolves post ev -> last (trace w') = Some ev.
Proof.
  intros Hop. unfold executeGeminiCall. case_bool_decide as Hkey.
  - unfold throw. intros ? Hinit ev Hev Hres. simplify_eq. by destruct (Hinit ev).
  - unfold try_catch.
    set (ai := createClient rev (cleanApiKey rev (apiKey settings))
                 (cleanBaseUrl (Some (baseUrl settings)))).
    destruct (retryOperation (operation ai) 3 2000 w) as [o1 w1] eqn:Hretry.
    intros Hrun Hinit ev Hev Hres.
    assert (w' = w1) as -> by (destruct o1; unfold throw in Hrun; by simplify_eq).
    unfold retryOperation in Hretry.
    eapply retryLoop_resolved_last; [apply Hop | exact Hretry | done | done | done].
Qed.

(** A decisive exchange ends the retry loop: it is the last event of
    the run. *)
Lemma retryLoop_decisive_last (operation : M St T) ai request post
    maxRetries baseDelay n : forall a le (w : World St) o w',
  (forall w0, operation w0 = exchangeOp generateContent ai request post w0) ->
  retryLoop operation maxRetries baseDelay n a le w = (o, w') ->
  (forall ev, ev ∈ trace w -> ~ decisive post ev) ->
  forall ev, ev ∈ trace w' -> decisive post ev -> last (trace w') = Some ev.
Proof.
  induction n as [|n IH]; intros a le w o w' Hop Hrun Hinit ev Hev Hdec.
  - simpl in Hrun. unfold throw in Hrun. simplify_eq. by destruct (Hinit ev).
  - pose proof (Hop (calling w)) as Hcall. unfold exchangeOp in Hcall.
    destruct (generateContent ai request (ext (calling w))) as [o1 s1] eqn:Hg.
    simpl in Hcall.
    assert (Hstep : forall ev0,
              ev0 ∈ (trace w ++ [EvInvoke]) ++ [EvExchange ai request o1] ->
              decisive post ev0 -> ev0 = EvExchange ai request o1).
    { intros ev0 [[Hin| ->%list_elem_of_singleton]%elem_of_app
                 | ->%list_elem_of_singleton]%elem_of_app Hd;
        [by destruct (Hinit ev0) | done | done]. }
    destruct (post o1) as [v|e] eqn:Hpost.
    + rewrite (retryLoop_ok _ _ _ _ _ _ _ _ _ Hcall) in Hrun. simplify_eq.
      simpl in *. rewrite (Hstep ev Hev Hdec). apply last_snoc.
    + destruct (messageOrString e) as [msg|te] eqn:Hmsg.
      * destruct (isTransient msg) eqn:Ht.
        -- destruct (Z_lt_le_dec a maxRetries) as [Ha|Ha].
           ++ rewrite (retryLoop_retry _ _ _ _ _ _ _ _ _ _ Hcall Hmsg Ht Ha) in Hrun.
              eapply IH; [exact Hop | exact Hrun | | exact Hev | exact Hdec].
              simpl.
              intros ev0 [Hin| ->%list_elem_of_singleton]%elem_of_app Hd;
                [|done].
              rewrite (Hstep ev0 Hin Hd) in Hd. simpl in Hd.
              rewrite Hpost in Hd. apply Hd. exists msg.
              split; [done | by apply isTransient_true].
           ++ rewrite (retryLoop_rethrow _ _ _ _ _ _ _ _ _ _ Hcall Hmsg (or_intror Ha))
                in Hrun.
              simplify_eq. simpl in *. rewrite (Hstep ev Hev Hdec). apply last_snoc.
        -- rewrite (retryLoop_rethrow _ _ _ _ _ _ _ _ _ _ Hcall Hmsg (or_introl Ht))
             in Hrun.
           simplify_eq. simpl in *. rewrite (Hstep ev Hev Hdec). apply last_snoc.
      * rewrite (retryLoop_type_error _ _ _ _ _ _ _ _ _ _ Hcall Hmsg) in Hrun.
        simplify_eq. simpl in *. rewrite (Hstep ev Hev Hdec). apply last_snoc.
Qed.

Lemma executeGeminiCall_decisive_last rev settings (operation : Client -> M St T)
    contextName request post (w : World St) res w' :
  (forall ai w0, operation ai w0 = exchangeOp generateContent ai request post w0) ->
  executeGeminiCall rev settings operation contextName w = (res, w') ->
  (forall ev, ev ∈ trace w -> ~ decisive post ev) ->
  forall ev, ev ∈ trace w' -> decisive post ev -> last (trace w') = Some ev.
Proof.
  intros Hop. unfold executeGeminiCall. case_bool_decide as Hkey.
  - unfold throw. intros ? Hinit ev Hev Hdec. simplify_eq. by destruct (Hinit ev).
  - unfold try_catch.
    set (ai := createClient rev (cleanApiKey rev (apiKey settings))
                 (cleanBaseUrl (Some (baseUrl settings)))).
    destruct (retryOperation (operation ai) 3 2000 w) as [o1 w1] eqn:Hretry.
    intros Hrun Hinit ev Hev Hdec.
    assert (w' = w1) as -> by (destruct o1; unfold throw in Hrun; by simplify_eq).
    unfold retryOperation in Hretry.
    eapply retryLoop_decisive_last; [apply Hop | exact Hretry | done | done | done].
Qed.
End OrchestratorFacts.

(** ** Prompt/response tasks *)

Lemma length_placeholders (n : nat) : length (placeholders n) = n.
Proof. apply length_replicate. Qed.

Lemma Forall_placeholders (n : nat) :
  Forall (fun entry => entry = PLACEHOLDER) (placeholders n).
Proof. apply Forall_replicate. done. Qed.

Lemma join_splitLines (s : jsstring) : join nl (splitLines s) = s.
Proof.
  induction s as [|c r IH]; [done|]. simpl.
  destruct (N.eqb_spec c 10) as [->|Hc].
  - destruct (splitLines r) as [|l ls] eqn:Hs.
    + by destruct r; simplify_eq/=; repeat case_match.
    + simpl. by rewrite <- IH.
  - destruct (splitLines r) as [|l ls] eqn:Hs.
    + simpl in IH. by subst.
    + destruct ls; simpl in *; by rewrite <- IH.
Qed.

Lemma splitLines_no_newline (s l : jsstring) :
  l ∈ splitLines s -> 10 ∉ l.
Proof.
  revert l. induction s as [|c r IH]; intros l; simpl.
  - intros ->%list_elem_of_singleton. apply not_elem_of_nil.
  - destruct (N.eqb_spec c 10) as [->|Hc].
    + intros [->|?]%elem_of_cons; [apply not_elem_of_nil | by apply IH].
    + destruct (splitLines r) as [|l0 ls].
      * intros ->%list_elem_of_singleton. rewrite list_elem_of_singleton. congruence.
      * intros [->|?]%elem_of_cons.
        -- rewrite elem_of_cons. intros [?|?]; [congruence|].
           by apply (IH l0); [left|].
        -- apply IH. by right.
Qed.

(** The fallback of [breakdownScript]: the lines of the script that are
    not blank, in their order, none containing a line break. *)
Lemma nonBlankLines_spec (scriptText : jsstring) :
  nonBlankLines scriptText `sublist_of` splitLines scriptText
  /\ (forall l, l ∈ nonBlankLines scriptText
                <-> l ∈ splitLines scriptText /\ trim l <> [])
  /\ (forall l, l ∈ nonBlankLines scriptText -> 10 ∉ l)
  /\ join nl (splitLines scriptText) = scriptText.
Proof.
  unfold nonBlankLines. split; [|split; [|split]].
  - apply sublist_filter.
  - intros l. rewrite list_elem_of_filter. tauto.
  - intros l [_ Hl]%list_elem_of_filter. by apply splitLines_no_newline in Hl.
  - apply join_splitLines.
Qed.

Section TaskFacts.
Context {St : Type}.
Variable generateContent : Client -> Request -> St -> Outcome Response * St.
Variable JSON_parse : jsstring -> Outcome Json.

Lemma breakdownOperation_exchange rev settings prompt ai (w : World St) :
  breakdownOperation generateContent JSON_parse rev settings prompt ai w
  = exchangeOp generateContent ai (textRequest rev (textModel settings) prompt)
      (breakdownPost JSON_parse) w.
Proof.
  unfold breakdownOperation, exchangeOp, bind, generate, liftOutcome.
  by destruct (generateContent _ _ _) as [[r|e] s'].
Qed.

Lemma batchOperation_exchange rev settings prompt scripts ai (w : World St) :
  batchOperation generateContent JSON_parse rev settings prompt scripts ai w
  = exchangeOp generateContent ai (textRequest rev (textModel settings) prompt)
      (batchPost JSON_parse (length scripts)) w.
Proof.
  unfold batchOperation, exchangeOp, bind, generate, try_catch, liftOutcome, ret.
  destruct (generateContent _ _ _) as [[r|e] s']; [|done].
  unfold batchPost, parsedText.
  destruct (JSON_parse _) as [[| | | |items|]|]; try done.
  by destruct (mapOutcome toInferenceResult items).
Qed.

(** The two ways in which [breakdownScript] ends: with the value of the
    orchestrated call, or, when that call threw, with the fallback. *)
Lemma breakdownScript_cases rev scriptText settings (w : World St) res w' :
  breakdownScript generateContent JSON_parse rev scriptText settings w
  = (res, w') ->
  (exists v,
     executeGeminiCall rev settings
       (breakdownOperation generateContent JSON_parse rev settings
          (breakdownPrompt scriptText)) BREAKDOWN_CONTEXT w = (Ok v, w')
     /\ res = Ok v)
  \/ (exists e,
        executeGeminiCall rev settings
          (breakdownOperation generateContent JSON_parse rev settings
             (breakdownPrompt scriptText)) BREAKDOWN_CONTEXT w = (Throw e, w')
        /\ res = Ok (JArr (map JStr (nonBlankLines scriptText)))).
Proof.
  unfold breakdownScript, try_catch, ret.
  destruct (executeGeminiCall _ _ _ _ _) as [[v|e] w1];
    intros ?; simplify_eq; eauto.
Qed.

(** What the last exchange of a run of [breakdownScript] decides. *)
Lemma breakdownScript_last_exchange rev scriptText settings s res w' ai rq o :
  breakdownScript generateContent JSON_parse rev scriptText settings (initial s)
  = (res, w') ->
  last (trace w') = Some (EvExchange ai rq o) ->
  match breakdownPost JSON_parse o with
  | Ok v => res = Ok v
  | Throw _ => res = Ok (JArr (map JStr (nonBlankLines scriptText)))
  end.
Proof.
  intros Hrun Hlast.
  destruct (breakdownScript_cases _ _ _ _ _ _ Hrun) as [(v & Hexec & ->)|(e & Hexec & ->)].
  all: eapply executeGeminiCall_exchange in Hexec;
    [|apply breakdownOperation_exchange].
  all: destruct Hexec as [(_ & -> & _)|(_ & ai' & tr & o' & Htr & Hpost)];
    [done|].
  all: rewrite Htr, last_snoc in Hlast; simplify_eq.
  all: destruct (breakdownPost JSON_parse o); [|by destruct Hpost].
  - done.
  - done.
Qed.

(** A run of [breakdownScript] in which no response parses ends with
    the fallback, however many times the call was retried. *)
Lemma breakdownScript_no_valid_response rev scriptText settings s res w' :
  breakdownScript generateContent JSON_parse rev scriptText settings (initial s)
  = (res, w') ->
  (forall ai rq response,
     EvExchange ai rq (Ok response) ∈ trace w' ->
     exists e, JSON_parse (parsedText response) = Throw e) ->
  res = Ok (JArr (map JStr (nonBlankLines scriptText))).
Proof.
  intros Hrun Hall.
  destruct (breakdownScript_cases _ _ _ _ _ _ Hrun)
    as [(v & Hexec & ->)|(e & _ & ->)]; [|done].
  exfalso.
  eapply executeGeminiCall_exchange in Hexec; [|apply breakdownOperation_exchange].
  destruct Hexec as [(_ & _ & ?)|(_ & ai & tr & o & Htr & Hpost)]; [done|].
  destruct o as [response|e]; simpl in Hpost; [|by destruct Hpost].
  destruct (Hall ai (textRequest rev (textModel settings) (breakdownPrompt scriptText))
              response) as [e He].
  - rewrite Htr. apply elem_of_app. right. left.
  - rewrite He in Hpost. by destruct Hpost.
Qed.

(** A response of a run of [breakdownScript] that does not parse, with
    a [SyntaxError] that carries no transient marker, is the last event
    of the run. *)
Lemma breakdownScript_unparsed_last rev scriptText settings s res w'
    ai rq response e :
  breakdownScript generateContent JSON_parse rev scriptText settings (initial s)
  = (res, w') ->
  EvExchange ai rq (Ok response) ∈ trace w' ->
  JSON_parse (parsedText response) = Throw e ->
  ~ transientMarked e ->
  last (trace w') = Some (EvExchange ai rq (Ok response)).
Proof.
  intros Hrun Hev Hparse Hmark.
  assert (Hdec : decisive (breakdownPost JSON_parse)
                   (EvExchange ai rq (Ok response))).
  { simpl. by rewrite Hparse. }
  destruct (breakdownScript_cases _ _ _ _ _ _ Hrun)
    as [(v & Hexec & _)|(e' & Hexec & _)].
  all: eapply executeGeminiCall_decisive_last;
    [apply breakdownOperation_exchange | exact Hexec | | exact Hev | exact Hdec].
  all: simpl; by intros ? ?%elem_of_nil.
Qed.

(** C8, amended. [breakdownScript] returns the lines of the input
    script that are not blank, in their order, when the orchestrated
    call fails terminally; this is so when the text of the last response
    of the run, fences stripped, is not valid JSON, and when the text of
    any response of the run is not valid JSON and the message of the
    [SyntaxError] carries no transient marker. *)
Theorem breakdownScript_fallback rev scriptText settings s res w' :
  breakdownScript generateContent JSON_parse rev scriptText settings (initial s)
  = (res, w') ->
  (exists e w1,
     executeGeminiCall rev settings
       (breakdownOperation generateContent JSON_parse rev settings
          (breakdownPrompt scriptText)) BREAKDOWN_CONTEXT (initial s)
     = (Throw e, w1))
  \/ (exists ai rq response e,
        last (trace w') = Some (EvExchange ai rq (Ok response))
        /\ JSON_parse (parsedText response) = Throw e)
  \/ (exists ai rq response e,
        EvExchange ai rq (Ok response) ∈ trace w'
        /\ JSON_parse (parsedText response) = Throw e
        /\ ~ transientMarked e) ->
  res = Ok (JArr (map JStr (nonBlankLines scriptText))).
Proof.
  intros Hrun [(e & w1 & Hexec)
              |[(ai & rq & response & e & Hlast & Hparse)
               |(ai & rq & response & e & Hin & Hparse & Hmark)]].
  - destruct (breakdownScript_cases _ _ _ _ _ _ Hrun)
      as [(v & Hexec' & _)|(e' & _ & ->)]; [|done].
    rewrite Hexec in Hexec'. done.
  - pose proof (breakdownScript_last_exchange _ _ _ _ _ _ _ _ _ Hrun Hlast) as H.
    simpl in H. by rewrite Hparse in H.
  - pose proof (breakdownScript_unparsed_last _ _ _ _ _ _ _ _ _ _
                  Hrun Hin Hparse Hmark) as Hlast.
    pose proof (breakdownScript_last_exchange _ _ _ _ _ _ _ _ _ Hrun Hlast) as H.
    simpl in H. by rewrite Hparse in H.
Qed.

(** A response of a run of [breakdownScript] that parses is the last
    event of the run: the call returns on it. *)
Lemma breakdownScript_resolved_last rev scriptText settings s res w' ev :
  breakdownScript generateContent JSON_parse rev scriptText settings (initial s)
  = (res, w') ->
  ev ∈ trace w' -> resolves (breakdownPost JSON_parse) ev ->
  last (trace w') = Some ev.
Proof.
  intros Hrun Hev Hres.
  destruct (breakdownScript_cases _ _ _ _ _ _ Hrun)
    as [(v & Hexec & _)|(e & Hexec & _)].
  all: eapply executeGeminiCall_resolved_last;
    [apply breakdownOperation_exchange | exact Hexec | | exact Hev | exact Hres].
  all: simpl; by intros ? ?%elem_of_nil.
Qed.

(** C10. When the text of a response, fences stripped, parses,
    [breakdownScript] returns the parsed value as it is, whatever its
    shape; and the fallback is returned only when the orchestrated call
    threw, which includes [JSON.parse] throwing. *)
Theorem breakdownScript_returns_parsed rev scriptText settings s res w' :
  breakdownScript generateContent JSON_parse rev scriptText settings (initial s)
  = (res, w') ->
  (forall ai rq response v,
     EvExchange ai rq (Ok response) ∈ trace w' ->
     JSON_parse (parsedText response) = Ok v ->
     res = Ok v)
  /\ ((exists v,
         executeGeminiCall rev settings
           (breakdownOperation generateContent JSON_parse rev settings
              (breakdownPrompt scriptText)) BREAKDOWN_CONTEXT (initial s)
         = (Ok v, w')
         /\ res = Ok v)
      \/ (exists e,
            executeGeminiCall rev settings
              (breakdownOperation generateContent JSON_parse rev settings
                 (breakdownPrompt scriptText)) BREAKDOWN_CONTEXT (initial s)
            = (Throw e, w')
            /\ res = Ok (JArr (map JStr (nonBlankLines scriptText))))).
Proof.
  intros Hrun. split.
  - intros ai rq response v Hin Hparse.
    assert (Hlast : last (trace w') = Some (EvExchange ai rq (Ok response))).
    { eapply breakdownScript_resolved_last; [exact Hrun | exact Hin |].
      simpl. eauto. }
    pose proof (breakdownScript_last_exchange _ _ _ _ _ _ _ _ _ Hrun Hlast) as H.
    simpl in H. by rewrite Hparse in H.
  - by apply breakdownScript_cases.
Qed.

(** The two ways in which [inferBatchPrompts] ends. *)
Lemma inferBatchPrompts_cases rev scripts allCharacters settings prev s res w' :
  inferBatchPrompts generateContent JSON_parse rev scripts allCharacters
    settings prev (initial s) = (res, w') ->
  (exists results,
     executeGeminiCall rev settings
       (batchOperation generateContent JSON_parse rev settings
          (batchPrompt scripts allCharacters prev) scripts)
       BATCH_CONTEXT {| ext := s; trace := [EvSleep 500] |} = (Ok results, w')
     /\ res = Ok results)
  \/ (exists e,
        executeGeminiCall rev settings
          (batchOperation generateContent JSON_parse rev settings
             (batchPrompt scripts allCharacters prev) scripts)
          BATCH_CONTEXT {| ext := s; trace := [EvSleep 500] |} = (Throw e, w')
        /\ res = Ok (placeholders (length scripts))).
Proof.
  unfold inferBatchPrompts, bind, sleep, emit, try_catch, ret. simpl.
  destruct (executeGeminiCall _ _ _ _ _) as [[v|e] w1];
    intros ?; simplify_eq; eauto.
Qed.

(** C3. [inferBatchPrompts] never throws, and on each of its failures
    (the orchestrated call fails terminally, or the text of a response
    does not parse, or parses to something that is not an array) it
    returns one placeholder [{ prompt: "", activeNames: [] }] per input
    segment. *)
Theorem inferBatchPrompts_placeholders rev scripts allCharacters settings
    prev s res w' :
  inferBatchPrompts generateContent JSON_parse rev scripts allCharacters
    settings prev (initial s) = (res, w') ->
  (exists results, res = Ok results)
  /\ ((exists e w1,
         executeGeminiCall rev settings
           (batchOperation generateContent JSON_parse rev settings
              (batchPrompt scripts allCharacters prev) scripts)
           BATCH_CONTEXT {| ext := s; trace := [EvSleep 500] |} = (Throw e, w1))
      \/ (exists ai rq response e,
            EvExchange ai rq (Ok response) ∈ trace w'
            /\ JSON_parse (parsedText response) = Throw e)
      \/ (exists ai rq response v,
            EvExchange ai rq (Ok response) ∈ trace w'
            /\ JSON_parse (parsedText response) = Ok v
            /\ isArray v = false) ->
      res = Ok (placeholders (length scripts))
      /\ length (placeholders (length scripts)) = length scripts
      /\ Forall (fun entry => entry = PLACEHOLDER)
           (placeholders (length scripts))).
Proof.
  intros Hrun.
  destruct (inferBatchPrompts_cases _ _ _ _ _ _ _ _ Hrun)
    as [(results & Hexec & ->)|(e & Hexec & ->)].
  - split; [eauto|]. intros Hfail.
    split; [|split; [apply length_placeholders | apply Forall_placeholders]].
    destruct Hfail as [(e & w1 & Hthrow)|Hfail];
      [by rewrite Hexec in Hthrow|].
    assert (Hlast : forall ai rq response,
              EvExchange ai rq (Ok response) ∈ trace w' ->
              last (trace w') = Some (EvExchange ai rq (Ok response))).
    { intros ai rq response Hin.
      eapply executeGeminiCall_resolved_last;
        [apply batchOperation_exchange | exact Hexec | | exact Hin | simpl; eauto].
      intros ev0 Hin0 Hr. apply list_elem_of_singleton in Hin0.
      subst ev0. exact Hr. }
    eapply executeGeminiCall_exchange in Hexec;
      [|apply batchOperation_exchange].
    destruct Hexec as [(_ & _ & ?)|(_ & ai' & tr & o & Htr & Hpost)]; [done|].
    destruct Hfail as [(ai & rq & response & e & Hin & Hparse)
                      |(ai & rq & response & v & Hin & Hparse & Harr)].
    + apply Hlast in Hin. rewrite Htr, last_snoc in Hin.
      simplify_eq. simpl in Hpost. rewrite Hparse in Hpost. by simplify_eq.
    + apply Hlast in Hin. rewrite Htr, last_snoc in Hin.
      simplify_eq. simpl in Hpost. rewrite Hparse in Hpost.
      destruct v; by simplify_eq.
  - split; [eauto|]. intros _.
    split; [done|split; [apply length_placeholders | apply Forall_placeholders]].
Qed.
End TaskFacts.

(** C8, as stated, fails: a response that is not valid JSON does not
    always give the line split. When the message of the [SyntaxError]
    quotes a text that carries a transient marker, here [503], the retry
    wrapper calls again, and [breakdownScript] returns what the next
    response parses to. *)
Lemma breakdownScript_retried_past_syntax_error :
  let run := breakdownScript MoreFixtures.recovering MoreFixtures.parseQuoting
               RevPart000 Fixtures.SCRIPT Fixtures.SETTINGS (initial 0%nat) in
  trace (snd run) !! 1%nat
  = Some (EvExchange Fixtures.TASK_CLIENT Fixtures.BREAKDOWN_REQUEST
            (Ok {| text := Some MoreFixtures.OUTAGE |}))
  /\ (exists e,
        MoreFixtures.parseQuoting (parsedText {| text := Some MoreFixtures.OUTAGE |})
        = Throw e)
  /\ fst run = Ok (JArr [])
  /\ nonBlankLines Fixtures.SCRIPT = [js "INT. ROOM"; js "She waits."]
  /\ fst run <> Ok (JArr (map JStr (nonBlankLines Fixtures.SCRIPT)))
  /\ invocations (trace (snd run)) = 2%nat
  /\ totalWait (trace (snd run)) = 2000%Z.
Proof.
  split; [vm_compute; reflexivity|].
  split; [eexists; vm_compute; reflexivity|].
  split; [vm_compute; reflexivity|].
  split; [vm_compute; reflexivity|].
  split; [intros E; vm_compute in E; discriminate E|].
  split; vm_compute; reflexivity.
Qed.

Lemma breakdownScript_fallback_witness :
  fst (breakdownScript (Fixtures.answering Fixtures.APOLOGY) Fixtures.parse
         RevPart000 Fixtures.SCRIPT Fixtures.SETTINGS (initial 0%nat))
  = Ok (JArr (map JStr (nonBlankLines Fixtures.SCRIPT)))
  /\ fst (breakdownScript Fixtures.overloaded Fixtures.parse
            RevPart000 Fixtures.SCRIPT Fixtures.SETTINGS (initial 0%nat))
     = Ok (JArr (map JStr (nonBlankLines Fixtures.SCRIPT)))
  /\ nonBlankLines Fixtures.SCRIPT = [js "INT. ROOM"; js "She waits."].
Proof.
  split; [|split].
  - eapply (breakdownScript_fallback (Fixtures.answering Fixtures.APOLOGY)
              Fixtures.parse RevPart000 Fixtures.SCRIPT Fixtures.SETTINGS 0%nat).
    + apply surjective_pairing.
    + right. right.
      exists Fixtures.TASK_CLIENT, Fixtures.BREAKDOWN_REQUEST,
        {| text := Some Fixtures.APOLOGY |}, (ErrorObj (js "Unexpected token")).
      split; [|split].
      * apply (list_elem_of_lookup_2 _ 1%nat). vm_compute. reflexivity.
      * vm_compute. reflexivity.
      * intros Hmark. apply transientMarked_ErrorObj in Hmark.
        vm_compute in Hmark. discriminate Hmark.
  - eapply (breakdownScript_fallback Fixtures.overloaded
              Fixtures.parse RevPart000 Fixtures.SCRIPT Fixtures.SETTINGS 0%nat).
    + apply surjective_pairing.
    + left.
      exists (ErrorObj (formatError RevPart000 Fixtures.OVERLOADED_PRO
                          BREAKDOWN_CONTEXT)).
      eexists. apply injective_projections; [vm_compute; reflexivity | reflexivity].
  - vm_compute. reflexivity.
Defined.

Lemma breakdownScript_returns_parsed_witness :
  fst (breakdownScript (Fixtures.answering Fixtures.FENCED_OBJECT) Fixtures.parse
         RevPart000 Fixtures.SCRIPT Fixtures.SETTINGS (initial 0%nat))
  = Ok (JObj {[ js "shots" := JNum 3 ]}).
Proof.
  eapply (breakdownScript_returns_parsed (Fixtures.answering Fixtures.FENCED_OBJECT)
            Fixtures.parse RevPart000 Fixtures.SCRIPT Fixtures.SETTINGS 0%nat).
  - apply surjective_pairing.
  - instantiate (1 := {| text := Some Fixtures.FENCED_OBJECT |}).
    instantiate (1 := Fixtures.BREAKDOWN_REQUEST).
    instantiate (1 := Fixtures.TASK_CLIENT).
    apply (list_elem_of_lookup_2 _ 1). vm_compute. reflexivity.
  - vm_compute. reflexivity.
Defined.

Lemma inferBatchPrompts_placeholders_witness :
  fst (inferBatchPrompts Fixtures.overloaded Fixtures.parse RevPart000
         Fixtures.SEGMENTS [] Fixtures.SETTINGS [] (initial 0%nat))
  = Ok [PLACEHOLDER; PLACEHOLDER; PLACEHOLDER]
  /\ fst (inferBatchPrompts (Fixtures.answering Fixtures.APOLOGY) Fixtures.parse
            RevPart000 Fixtures.SEGMENTS [] Fixtures.SETTINGS [] (initial 0%nat))
     = Ok [PLACEHOLDER; PLACEHOLDER; PLACEHOLDER]
  /\ fst (inferBatchPrompts (Fixtures.answering Fixtures.FENCED_OBJECT)
            Fixtures.parse RevPart000 Fixtures.SEGMENTS [] Fixtures.SETTINGS []
            (initial 0%nat))
     = Ok [PLACEHOLDER; PLACEHOLDER; PLACEHOLDER].
Proof.
  split; [|split].
  - eapply (inferBatchPrompts_placeholders Fixtures.overloaded Fixtures.parse
              RevPart000 Fixtures.SEGMENTS [] Fixtures.SETTINGS [] 0%nat).
    + apply surjective_pairing.
    + left.
      exists (ErrorObj (formatError RevPart000 Fixtures.OVERLOADED_PRO BATCH_CONTEXT)).
      eexists. apply injective_projections; [vm_compute; reflexivity | reflexivity].
  - eapply (inferBatchPrompts_placeholders (Fixtures.answering Fixtures.APOLOGY)
              Fixtures.parse RevPart000 Fixtures.SEGMENTS [] Fixtures.SETTINGS []
              0%nat).
    + apply surjective_pairing.
    + right. left.
      exists Fixtures.TASK_CLIENT, Fixtures.BATCH_REQUEST,
        {| text := Some Fixtures.APOLOGY |}, (ErrorObj (js "Unexpected token")).
      split; [apply (list_elem_of_lookup_2 _ 2)|]; vm_compute; reflexivity.
  - eapply (inferBatchPrompts_placeholders (Fixtures.answering Fixtures.FENCED_OBJECT)
              Fixtures.parse RevPart000 Fixtures.SEGMENTS [] Fixtures.SETTINGS []
              0%nat).
    + apply surjective_pairing.
    + right. right.
      exists Fixtures.TASK_CLIENT, Fixtures.BATCH_REQUEST,
        {| text := Some Fixtures.FENCED_OBJECT |},
        (JObj {[ js "shots" := JNum 3 ]}).
      split; [apply (list_elem_of_lookup_2 _ 2)|split]; vm_compute; reflexivity.
Defined.

(** ** Settings store *)

Lemma DEFAULT_SETTINGS_customTextModels :
  DEFAULT_SETTINGS !! js "customTextModels" = Some (JArr []).
Proof. vm_compute. reflexivity. Qed.

Lemma DEFAULT_SETTINGS_apiKeys : DEFAULT_SETTINGS !! js "apiKeys" = None.
Proof. vm_compute. reflexivity. Qed.

Lemma customTextModels_not_apiKeys : js "apiKeys" <> js "customTextModels".
Proof. intros H. vm_compute in H. discriminate H. Qed.

(** The properties of the merged record, key by key. *)
Lemma mergeSettings_lookup (props : gmap jsstring Json) (k : jsstring) :
  mergeSettings props !! k =
  if bool_decide (k = js "apiKeys") then None
  else if bool_decide (k = js "customTextModels")
       then match props !! k with
            | Some v => Some (if truthy v then v else JArr [])
            | None => Some (JArr [])
            end
       else match props !! k with
            | Some v => Some v
            | None => DEFAULT_SETTINGS !! k
            end.
Proof.
  pose proof customTextModels_not_apiKeys as Hne.
  unfold mergeSettings.
  rewrite (lookup_delete_ne props (js "apiKeys") (js "customTextModels")) by done.
  case_bool_decide as Hk1; [subst k|case_bool_decide as Hk2; [subst k|]].
  - rewrite lookup_union_r; [apply DEFAULT_SETTINGS_apiKeys|].
    destruct (truthyOpt _).
    + apply lookup_delete_eq.
    + rewrite lookup_insert_ne by done. apply lookup_delete_eq.
  - destruct (props !! js "customTextModels") as [v|] eqn:Hv; simpl.
    + destruct (truthy v) eqn:Ht.
      * apply lookup_union_Some_l. by rewrite lookup_delete_ne.
      * apply lookup_union_Some_l. apply lookup_insert_eq.
    + apply lookup_union_Some_l. apply lookup_insert_eq.
  - assert (Hl : (if truthyOpt (props !! js "customTextModels")
                  then delete (js "apiKeys") props
                  else <[js "customTextModels" := JArr []]>
                         (delete (js "apiKeys") props)) !! k = props !! k).
    { destruct (truthyOpt _).
      - by rewrite lookup_delete_ne.
      - rewrite lookup_insert_ne by done. by rewrite lookup_delete_ne. }
    destruct (props !! k) as [v|] eqn:Hv.
    + by apply lookup_union_Some_l.
    + by rewrite lookup_union_r.
Qed.

(** C9, as stated, fails on a stored record with a key that the schema
    does not have: the key is still there after loading. *)
Lemma getSettingsSync_keeps_unknown_key :
  (exists result,
     getSettingsSync Fixtures.parse {[ KEYS_SETTINGS := Fixtures.LEGACY_TEXT ]}
     = Ok result
     /\ result !! js "legacyTheme" = Some (JNum 1))
  /\ js "legacyTheme" ∉ SETTINGS_SCHEMA.
Proof.
  split.
  - eexists. split; [vm_compute; reflexivity|]. vm_compute. reflexivity.
  - apply (bool_decide_eq_false_1 (js "legacyTheme" ∈ SETTINGS_SCHEMA)).
    vm_compute. reflexivity.
Qed.

(** C9, as amended. For every stored settings record, loading returns a
    record in which every key missing from storage has its value from
    the default set, the legacy key [apiKeys] is absent, and every other
    stored key keeps its stored value, whether the schema has it or not;
    a stored [customTextModels] that is falsy becomes the empty list. *)
Theorem getSettingsSync_backfills (JSON_parse : jsstring -> Outcome Json)
    (localStorage : gmap jsstring jsstring) (data : jsstring)
    (props : gmap jsstring Json) :
  localStorage !! KEYS_SETTINGS = Some data ->
  data <> [] ->
  JSON_parse data = Ok (JObj props) ->
  exists result,
    getSettingsSync JSON_parse localStorage = Ok result
    /\ (forall k, props !! k = None -> result !! k = DEFAULT_SETTINGS !! k)
    /\ result !! js "apiKeys" = None
    /\ (forall k v, props !! k = Some v -> k <> js "apiKeys" ->
                    k <> js "customTextModels" -> result !! k = Some v)
    /\ (forall v, props !! js "customTextModels" = Some v ->
                  result !! js "customTextModels"
                  = Some (if truthy v then v else JArr [])).
Proof.
  intros Hdata Hne Hparse. exists (mergeSettings props).
  split; [|split; [|split; [|split]]].
  - unfold getSettingsSync. rewrite Hdata, (bool_decide_eq_false_2 _ Hne).
    by rewrite Hparse.
  - intros k Hk. rewrite mergeSettings_lookup, Hk.
    case_bool_decide as Hk1; [subst; by rewrite DEFAULT_SETTINGS_apiKeys|].
    case_bool_decide as Hk2; [subst; by rewrite DEFAULT_SETTINGS_customTextModels|].
    done.
  - rewrite mergeSettings_lookup. by rewrite bool_decide_eq_true_2.
  - intros k v Hk Hk1 Hk2. rewrite mergeSettings_lookup, Hk.
    by rewrite !bool_decide_eq_false_2.
  - intros v Hv. rewrite mergeSettings_lookup, Hv.
    rewrite bool_decide_eq_false_2
      by (intros H; symmetry in H; by apply customTextModels_not_apiKeys).
    by rewrite bool_decide_eq_true_2.
Qed.

Lemma getSettingsSync_backfills_witness :
  exists result,
    getSettingsSync Fixtures.parse {[ KEYS_SETTINGS := Fixtures.LEGACY_TEXT ]}
    = Ok result
    /\ (forall k, ({[ js "legacyTheme" := JNum 1 ]} : gmap jsstring Json) !! k = None ->
                  result !! k = DEFAULT_SETTINGS !! k)
    /\ result !! js "apiKeys" = None
    /\ (forall k v, ({[ js "legacyTheme" := JNum 1 ]} : gmap jsstring Json) !! k = Some v ->
                    k <> js "apiKeys" -> k <> js "customTextModels" ->
                    result !! k = Some v)
    /\ (forall v, ({[ js "legacyTheme" := JNum 1 ]} : gmap jsstring Json)
                    !! js "customTextModels" = Some v ->
                  result !! js "customTextModels"
                  = Some (if truthy v then v else JArr [])).
Proof.
  apply (getSettingsSync_backfills Fixtures.parse
           {[ KEYS_SETTINGS := Fixtures.LEGACY_TEXT ]} Fixtures.LEGACY_TEXT
           {[ js "legacyTheme" := JNum 1 ]}).
  - vm_compute. reflexivity.
  - intros H. vm_compute in H. discriminate H.
  - vm_compute. reflexivity.
Defined.

(** Without stored data the defaults are returned as they are. *)
Lemma getSettingsSync_no_data (JSON_parse : jsstring -> Outcome Json) :
  getSettingsSync JSON_parse ∅ = Ok DEFAULT_SETTINGS.
Proof.
  unfold getSettingsSync. rewrite lookup_empty.
  vm_compute. reflexivity.
Qed.

(* ===================================================================== *)
(** * Part III: further properties of the code                            *)
(* ===================================================================== *)

(** ** Normalizers *)

Lemma dropEndWhile_fixed_last (p : N -> bool) (s : jsstring) (c : N) :
  dropEndWhile p (s ++ [c]) = s ++ [c] -> p c = false.
Proof.
  intros H. rewrite dropEndWhile_app in H. simpl in H.
  destruct (p c) eqn:Hc; [|done]. exfalso.
  pose proof (dropEndWhile_length p s) as Hl.
  rewrite H, length_app in Hl. simpl in Hl. lia.
Qed.

Lemma stripTrailingSlashes_no_slash (s : jsstring) :
  endsWith (stripTrailingSlashes s) (js "/") = false.
Proof.
  apply not_true_is_false. intros [k Hk]%endsWith_spec.
  pose proof (dropEndWhile_idem isSlash s) as Hidem.
  fold (stripTrailingSlashes s) in Hidem. rewrite Hk in Hidem.
  by apply dropEndWhile_fixed_last in Hidem.
Qed.

(** X1. Whatever [cleanBaseUrl] returns as an override is not the
    official endpoint, does not end in a slash, and comes from an input
    that is not blank. *)
Theorem cleanBaseUrl_override (url : option jsstring) (cleaned : jsstring) :
  cleanBaseUrl url = Some cleaned ->
  cleaned <> OFFICIAL_ENDPOINT
  /\ endsWith cleaned (js "/") = false
  /\ stripTrailingSlashes cleaned = cleaned
  /\ exists raw, url = Some raw /\ trim raw <> [].
Proof.
  unfold cleanBaseUrl. destruct url as [raw|]; [|done].
  destruct (bool_decide (raw = []) || bool_decide (trim raw = [])) eqn:Hblank;
    [done|].
  apply orb_false_iff in Hblank as [_ Htrim%bool_decide_eq_false].
  case_bool_decide as Hoff; [done|]. intros [= <-].
  split; [done|]. split; [apply stripTrailingSlashes_no_slash|].
  split; [apply dropEndWhile_idem | eauto].
Qed.

Lemma cleanBaseUrl_override_witness :
  js "https://api.example.com/v1" <> OFFICIAL_ENDPOINT
  /\ endsWith (js "https://api.example.com/v1") (js "/") = false
  /\ stripTrailingSlashes (js "https://api.example.com/v1")
     = js "https://api.example.com/v1"
  /\ exists raw, Some Fixtures.DOUBLE_SUFFIX = Some raw /\ trim raw <> [].
Proof.
  apply (cleanBaseUrl_override (Some Fixtures.DOUBLE_SUFFIX)).
  vm_compute. reflexivity.
Defined.

Lemma dropStartWhile_idem (p : N -> bool) (s : jsstring) :
  dropStartWhile p (dropStartWhile p s) = dropStartWhile p s.
Proof.
  induction s as [|c r IH]; [done|]. simpl.
  destruct (p c) eqn:Hc; [done|]. simpl. by rewrite Hc.
Qed.

Lemma dropStartWhile_dropEndWhile (p : N -> bool) (s : jsstring) :
  dropStartWhile p s = s -> dropStartWhile p (dropEndWhile p s) = dropEndWhile p s.
Proof.
  destruct s as [|c r]; [done|]. simpl.
  destruct (p c) eqn:Hc.
  - intros H. pose proof (dropStartWhile_length p r) as Hl.
    rewrite H in Hl. simpl in Hl. lia.
  - intros _. destruct (dropEndWhile p r); simpl; by rewrite Hc.
Qed.

Lemma trim_idem (s : jsstring) : trim (trim s) = trim s.
Proof.
  unfold trim.
  rewrite dropStartWhile_dropEndWhile by apply dropStartWhile_idem.
  apply dropEndWhile_idem.
Qed.

Lemma trim_no_whitespace (s : jsstring) :
  Forall (fun c => isWhiteSpace c = false) s -> trim s = s.
Proof.
  intros Hs. unfold trim.
  assert (Hstart : dropStartWhile isWhiteSpace s = s).
  { destruct Hs as [|c r Hc _]; [done|]. simpl. by rewrite Hc. }
  rewrite Hstart. by apply dropEndWhile_none.
Qed.

Lemma removeWhitespace_no_whitespace (s : jsstring) :
  Forall (fun c => isWhiteSpace c = false) s -> removeWhitespace s = s.
Proof.
  unfold removeWhitespace. induction 1 as [|c r Hc _ IH]; [done|].
  rewrite filter_cons_True by done. by rewrite IH.
Qed.

(** X2. Both revisions of [cleanApiKey] are idempotent and return a
    string that neither begins nor ends with whitespace; the revision
    that removes whitespace returns none at all. *)
Theorem cleanApiKey_idempotent (rev : Revision) (key : jsstring) :
  cleanApiKey rev (cleanApiKey rev key) = cleanApiKey rev key
  /\ trim (cleanApiKey rev key) = cleanApiKey rev key
  /\ Forall (fun c => isWhiteSpace c = false) (cleanApiKey RevServices key).
Proof.
  assert (Hclean : Forall (fun c => isWhiteSpace c = false)
                     (cleanApiKey RevServices key)).
  { rewrite cleanApiKey_services_is_removeWhitespace.
    apply removeWhitespace_clean. }
  split; [|split; [|done]].
  - destruct rev.
    + rewrite !cleanApiKey_services_is_removeWhitespace.
      apply removeWhitespace_no_whitespace, removeWhitespace_clean.
    + unfold cleanApiKey. case_bool_decide as Hk; [by subst|].
      case_bool_decide as Ht; [done | apply trim_idem].
  - destruct rev.
    + by apply trim_no_whitespace.
    + unfold cleanApiKey. case_bool_decide; [done | apply trim_idem].
Qed.

Lemma startsWith_app (p s : jsstring) : startsWith (p ++ s) p = true.
Proof.
  induction p as [|c p IH]; [by destruct s|]. simpl.
  by rewrite N.eqb_refl, IH.
Qed.

Lemma dropStartWhile_app_all (p : N -> bool) (s t : jsstring) :
  Forall (fun c => p c = true) s ->
  dropStartWhile p (s ++ t) = dropStartWhile p t.
Proof. induction 1 as [|c r Hc _ IH]; [done|]. simpl. by rewrite Hc. Qed.

Lemma startsWith_true (s p : jsstring) :
  startsWith s p = true -> s = p ++ drop (length p) s.
Proof.
  revert s. induction p as [|a p IH]; intros s; [done|].
  destruct s as [|c s]; [done|]. simpl.
  intros [->%N.eqb_eq Hrest]%andb_true_iff. f_equal. by apply IH.
Qed.

Lemma dropStartWhile_split (p : N -> bool) (s : jsstring) :
  exists run,
    s = run ++ dropStartWhile p s /\ Forall (fun c => p c = true) run.
Proof.
  induction s as [|c r (run & Hrun & Hall)]; [by exists []|]. simpl.
  destruct (p c) eqn:Hc; [|by exists []].
  exists (c :: run). split; [simpl; by rewrite <- Hrun | by constructor].
Qed.

(** X3. The replacement that [generateImage] applies to a reference
    image removes a prefix exactly from the strings that are
    [data:image/], a format name of one or more word characters,
    [;base64,] and a payload, and returns the payload; every other
    string comes back as it is, such as a data URL of the format
    [svg+xml], whose name has a character outside [\w]. In particular a
    PNG data URL, which is what [generateImage] returns, is sent as the
    bare payload. *)
Theorem stripDataUrl_payload (s format payload : jsstring) :
  (format <> [] -> Forall (fun c => isWordChar c = true) format ->
   stripDataUrl (js "data:image/" ++ format ++ js ";base64," ++ payload)
   = payload)
  /\ stripDataUrl (js "data:image/png;base64," ++ payload) = payload
  /\ (stripDataUrl s = s
      \/ exists format' payload',
           format' <> []
           /\ Forall (fun c => isWordChar c = true) format'
           /\ s = js "data:image/" ++ format' ++ js ";base64," ++ payload'
           /\ stripDataUrl s = payload')
  /\ stripDataUrl (js "data:image/svg+xml;base64," ++ payload)
     = js "data:image/svg+xml;base64," ++ payload.
Proof.
  assert (Hgen : forall fmt, fmt <> [] ->
            Forall (fun c => isWordChar c = true) fmt ->
            stripDataUrl (js "data:image/" ++ fmt ++ js ";base64," ++ payload)
            = payload).
  { intros fmt Hne Hword. unfold stripDataUrl.
    rewrite startsWith_app.
    replace (drop 11 (js "data:image/" ++ fmt ++ js ";base64," ++ payload))
      with (fmt ++ js ";base64," ++ payload) by reflexivity.
    rewrite dropStartWhile_app_all by done.
    replace (dropStartWhile isWordChar (js ";base64," ++ payload))
      with (js ";base64," ++ payload) by reflexivity.
    rewrite startsWith_app, !length_app.
    rewrite (proj2 (Nat.ltb_lt _ _)) by (destruct fmt; [done | simpl; lia]).
    reflexivity. }
  split; [apply Hgen|]. split; [|split].
  - apply (Hgen (js "png")); [done | by repeat constructor].
  - unfold stripDataUrl.
    destruct (startsWith s (js "data:image/")) eqn:Hprefix; [|by left].
    apply startsWith_true in Hprefix.
    change (length (js "data:image/")) with 11%nat in Hprefix.
    destruct (dropStartWhile_split isWordChar (drop 11 s)) as (run & Hrun & Hword).
    set (after := dropStartWhile isWordChar (drop 11 s)) in *.
    destruct ((length after <? length (drop 11 s))%nat
              && startsWith after (js ";base64,")) eqn:Hcond; [|by left].
    apply andb_true_iff in Hcond as [Hshorter%Nat.ltb_lt Hmark].
    apply startsWith_true in Hmark.
    change (length (js ";base64,")) with 8%nat in Hmark.
    right. exists run, (drop 8 after). split; [|split; [done|split; [|done]]].
    + intros ->. simpl in Hrun. rewrite <- Hrun in Hshorter. lia.
    + rewrite <- Hmark, <- Hrun. exact Hprefix.
  - unfold stripDataUrl.
    change (js "data:image/svg+xml;base64," ++ payload)
      with (js "data:image/" ++ js "svg+xml;base64," ++ payload).
    rewrite startsWith_app.
    replace (drop 11 (js "data:image/" ++ js "svg+xml;base64," ++ payload))
      with (js "svg+xml;base64," ++ payload) by reflexivity.
    replace (dropStartWhile isWordChar (js "svg+xml;base64," ++ payload))
      with (js "+xml;base64," ++ payload) by reflexivity.
    replace (startsWith (js "+xml;base64," ++ payload) (js ";base64,"))
      with false by reflexivity.
    by rewrite andb_false_r.
Qed.

Lemma stripDataUrl_payload_witness :
  stripDataUrl (js "data:image/" ++ js "jpeg" ++ js ";base64," ++ MoreFixtures.PIXELS)
  = MoreFixtures.PIXELS
  /\ stripDataUrl MoreFixtures.PIXELS = MoreFixtures.PIXELS.
Proof.
  destruct (stripDataUrl_payload MoreFixtures.PIXELS (js "jpeg") MoreFixtures.PIXELS)
    as (Hstrip & _ & [Hsame|(format & payload & _ & _ & Hform & _)] & _).
  - split; [|exact Hsame].
    apply Hstrip; [intros H; vm_compute in H; discriminate H | by repeat constructor].
  - vm_compute in Hform. discriminate Hform.
Defined.

(** ** Retry wrapper, for every operation *)

Lemma quiet_liftOp {St T} (op : St -> Outcome T * St) : quiet (liftOp op).
Proof.
  intros w. exists []. unfold liftOp. destruct (op (ext w)). simpl.
  by rewrite app_nil_r.
Qed.

Lemma quiet_exchangeOp {St T}
    (generateContent : Client -> Request -> St -> Outcome Response * St)
    ai request (post : Outcome Response -> Outcome T) :
  quiet (exchangeOp generateContent ai request post).
Proof.
  intros w. unfold exchangeOp.
  destruct (generateContent ai request (ext w)) as [o s'].
  exists [EvExchange ai request o]. split; [done | by repeat constructor].
Qed.

Lemma exchanges_only (evs : list Event) :
  Forall (fun ev => isExchange ev = true) evs ->
  invocations evs = 0%nat /\ sleeps evs = 0%nat /\ totalWait evs = 0%Z.
Proof.
  unfold invocations, sleeps, totalWait.
  induction 1 as [|ev evs Hev _ (IH1 & IH2 & IH3)]; [done|].
  destruct ev; done.
Qed.

Lemma sleeps_app (tr1 tr2 : list Event) :
  sleeps (tr1 ++ tr2) = (sleeps tr1 + sleeps tr2)%nat.
Proof. unfold sleeps. by rewrite filter_app, length_app. Qed.

Section RetryBound.
Context {St T : Type}.
Variable operation : M St T.
Variables maxRetries baseDelay : Z.
Hypothesis operation_quiet : quiet operation.

Lemma calling_quiet (w : World St) :
  exists evs,
    trace (snd (operation (calling w))) = trace w ++ EvInvoke :: evs
    /\ invocations (EvInvoke :: evs) = 1%nat
    /\ sleeps (EvInvoke :: evs) = 0%nat
    /\ totalWait (EvInvoke :: evs) = 0%Z.
Proof.
  destruct (operation_quiet (calling w)) as (evs & Htr & Hall).
  destruct (exchanges_only evs Hall) as (Hi & Hs & Hw).
  exists evs. split.
  - rewrite Htr. simpl. by rewrite <- app_assoc.
  - change (EvInvoke :: evs) with ([EvInvoke] ++ evs).
    rewrite invocations_app, sleeps_app, totalWait_app, Hi, Hs, Hw. done.
Qed.

(** The events of a run of the loop: as many calls as rounds at most,
    one wait less than calls, and a total wait that the number of calls
    determines. *)
Lemma retryLoop_bounded n : forall a le (w : World St) o w',
  (0 <= a)%Z -> (0 < n)%nat -> Z.of_nat n = (maxRetries + 1 - a)%Z ->
  retryLoop operation maxRetries baseDelay n a le w = (o, w') ->
  exists evs,
    trace w' = trace w ++ evs
    /\ (1 <= invocations evs <= n)%nat
    /\ sleeps evs = (invocations evs - 1)%nat
    /\ totalWait evs
       = (baseDelay * 2 ^ a * (2 ^ Z.of_nat (invocations evs - 1) - 1))%Z.
Proof.
  induction n as [|n IH]; intros a le w o w' Ha Hn Hinv Hrun; [lia|].
  destruct (calling_quiet w) as (evs1 & Htr & Hi & Hs & Hw).
  destruct (operation (calling w)) as [o1 w1] eqn:Hop. simpl in Htr.
  assert (Hstop : w' = w1 ->
            exists evs,
              trace w' = trace w ++ evs
              /\ (1 <= invocations evs <= S n)%nat
              /\ sleeps evs = (invocations evs - 1)%nat
              /\ totalWait evs
                 = (baseDelay * 2 ^ a * (2 ^ Z.of_nat (invocations evs - 1) - 1))%Z).
  { intros ->. exists (EvInvoke :: evs1). rewrite Hi, Hs, Hw. simpl.
    repeat split; [done | lia | lia | lia]. }
  destruct o1 as [v|e].
  - rewrite (retryLoop_ok _ _ _ _ _ _ _ _ _ Hop) in Hrun. apply Hstop. by simplify_eq.
  - destruct (messageOrString e) as [msg|te] eqn:Hmsg.
    + destruct (isTransient msg) eqn:Ht.
      * destruct (Z_lt_le_dec a maxRetries) as [Hlt|Hge].
        -- rewrite (retryLoop_retry _ _ _ _ _ _ _ _ _ _ Hop Hmsg Ht Hlt) in Hrun.
           apply IH in Hrun as (evs & Htr' & Hi' & Hs' & Hw'); [|lia|lia|lia].
           simpl in Htr'.
           exists ((EvInvoke :: evs1) ++ [EvSleep (baseDelay * 2 ^ a)] ++ evs).
           split; [rewrite Htr', Htr; by rewrite <- !app_assoc|].
           rewrite !invocations_app, !sleeps_app, !totalWait_app, Hi, Hs, Hw.
           change (invocations [EvSleep (baseDelay * 2 ^ a)]) with 0%nat.
           change (sleeps [EvSleep (baseDelay * 2 ^ a)]) with 1%nat.
           change (totalWait [EvSleep (baseDelay * 2 ^ a)])
             with (baseDelay * 2 ^ a + 0)%Z.
           rewrite Hs', Hw'. repeat split; [lia | lia | lia |].
           replace (1 + (0 + invocations evs) - 1)%nat
             with (S (invocations evs - 1)) by lia.
           rewrite Nat2Z.inj_succ, Z.pow_succ_r by lia.
           rewrite Z.add_1_r, Z.pow_succ_r by lia. ring.
        -- rewrite (retryLoop_rethrow _ _ _ _ _ _ _ _ _ _ Hop Hmsg (or_intror Hge))
             in Hrun.
           apply Hstop. by simplify_eq.
      * rewrite (retryLoop_rethrow _ _ _ _ _ _ _ _ _ _ Hop Hmsg (or_introl Ht))
          in Hrun.
        apply Hstop. by simplify_eq.
    + rewrite (retryLoop_type_error _ _ _ _ _ _ _ _ _ _ Hop Hmsg) in Hrun.
      apply Hstop. by simplify_eq.
Qed.

End RetryBound.


(** X5. With a negative retry count [retryOperation] never calls the
    operation and throws [undefined], the initial value of [lastError]. *)
Theorem retryOperation_negative {St T} (operation : M St T)
    (maxRetries baseDelay : Z) (w : World St) :
  (maxRetries < 0)%Z ->
  retryOperation operation maxRetries baseDelay w = (Throw ThrownUndefined, w).
Proof.
  intros Hneg. unfold retryOperation.
  replace (Z.to_nat (maxRetries + 1)) with 0%nat by lia. reflexivity.
Qed.

Lemma retryOperation_negative_witness :
  retryOperation (liftOp Fixtures.flaky) (-1) 2000 (initial 0%nat)
  = (Throw ThrownUndefined, initial 0%nat).
Proof. apply retryOperation_negative. lia. Defined.

(** X6. When the operation throws [null] or [undefined], the wrapper
    does not rethrow it: reading [message] off it throws inside the
    [catch] clause, and that [TypeError] is what escapes, after one call
    and no wait. *)
Theorem retryOperation_null {St T} (op : St -> Outcome T * St)
    (maxRetries baseDelay : Z) (s s1 : St) (e : JsThrown) :
  (0 <= maxRetries)%Z ->
  op s = (Throw e, s1) ->
  e = ThrownNull \/ e = ThrownUndefined ->
  exists message,
    retryOperation (liftOp op) maxRetries baseDelay (initial s)
    = (Throw (ErrorObj message), {| ext := s1; trace := [EvInvoke] |})
    /\ ErrorObj message <> e.
Proof.
  intros Hmr Hop He. unfold retryOperation.
  destruct (Z.to_nat (maxRetries + 1)) as [|n] eqn:Hn; [lia|].
  assert (Hcall : liftOp op (calling (initial s))
                  = (Throw e, {| ext := s1; trace := [EvInvoke] |})).
  { rewrite liftOp_calling. simpl. by rewrite Hop. }
  destruct He as [-> | ->].
  - exists (js "Cannot read properties of " ++ js "null" ++ js " (reading '"
            ++ js "message" ++ js "')").
    split; [|done].
    by apply (retryLoop_type_error _ _ _ _ _ _ _ ThrownNull).
  - exists (js "Cannot read properties of " ++ js "undefined" ++ js " (reading '"
            ++ js "message" ++ js "')").
    split; [|done].
    by apply (retryLoop_type_error _ _ _ _ _ _ _ ThrownUndefined).
Qed.

Lemma retryOperation_null_witness :
  exists message,
    retryOperation (liftOp MoreFixtures.throwsNull) 3 2000 (initial 0%nat)
    = (Throw (ErrorObj message), {| ext := 1%nat; trace := [EvInvoke] |})
    /\ ErrorObj message <> ThrownNull.
Proof.
  apply (retryOperation_null MoreFixtures.throwsNull 3 2000 0%nat 1%nat ThrownNull).
  - lia.
  - reflexivity.
  - left. reflexivity.
Defined.

(** ** Call orchestrator, for every task *)

(** The retry loop ends in the world in which the last call of the
    operation ended, with the value of that call, or with what the
    [catch] clause rethrows of what the call threw. *)
Lemma retryLoop_last_call {St T} (operation : M St T) maxRetries baseDelay n :
  forall a le (w : World St) o w',
  (0 < n)%nat -> Z.of_nat n = (maxRetries + 1 - a)%Z ->
  retryLoop operation maxRetries baseDelay n a le w = (o, w') ->
  exists w0 ended,
    operation w0 = (ended, w')
    /\ o = match ended with
           | Ok v => Ok v
           | Throw cause => Throw (rethrown cause)
           end.
Proof.
  induction n as [|n IH]; intros a le w o w' Hn Hinv Hrun; [lia|].
  destruct (operation (calling w)) as [[v|e] w1] eqn:Hop.
  - rewrite (retryLoop_ok _ _ _ _ _ _ _ _ _ Hop) in Hrun. simplify_eq.
    exists (calling w), (Ok v). done.
  - unfold rethrown.
    destruct (messageOrString e) as [msg|te] eqn:Hmsg.
    + destruct (isTransient msg) eqn:Ht.
      * destruct (Z_lt_le_dec a maxRetries) as [Ha|Ha].
        -- rewrite (retryLoop_retry _ _ _ _ _ _ _ _ _ _ Hop Hmsg Ht Ha) in Hrun.
           eapply IH; [| |exact Hrun]; lia.
        -- rewrite (retryLoop_rethrow _ _ _ _ _ _ _ _ _ _ Hop Hmsg (or_intror Ha))
             in Hrun.
           simplify_eq. exists (calling w), (Throw e). by rewrite Hmsg.
      * rewrite (retryLoop_rethrow _ _ _ _ _ _ _ _ _ _ Hop Hmsg (or_introl Ht))
          in Hrun.
        simplify_eq. exists (calling w), (Throw e). by rewrite Hmsg.
    + rewrite (retryLoop_type_error _ _ _ _ _ _ _ _ _ _ Hop Hmsg) in Hrun.
      simplify_eq. exists (calling w), (Throw e). by rewrite Hmsg.
Qed.

(** With a credential, the orchestrator ends in the world in which the
    last call of the operation ended: it returns the value of that call,
    or throws the classified form of what the retry wrapper rethrows of
    what the call threw. *)
Lemma executeGeminiCall_last_call {St T} rev settings
    (operation : Client -> M St T) contextName (w : World St) res w' :
  executeGeminiCall rev settings operation contextName w = (res, w') ->
  cleanApiKey rev (apiKey settings) <> [] ->
  exists w0 ended,
    operation (createClient rev (cleanApiKey rev (apiKey settings))
                 (cleanBaseUrl (Some (baseUrl settings)))) w0
    = (ended, w')
    /\ res = match ended with
             | Ok v => Ok v
             | Throw cause =>
                 Throw (ErrorObj (contextName ++ js ": "
                                  ++ classify rev (messageOf (rethrown cause))))
             end.
Proof.
  unfold executeGeminiCall. intros Hrun Hkey.
  rewrite bool_decide_eq_false_2 in Hrun by done.
  unfold try_catch in Hrun.
  set (ai := createClient rev (cleanApiKey rev (apiKey settings))
               (cleanBaseUrl (Some (baseUrl settings)))) in *.
  destruct (retryOperation (operation ai) 3 2000 w) as [o1 w1] eqn:Hretry.
  unfold retryOperation in Hretry.
  apply retryLoop_last_call in Hretry as (w0 & ended & Hcall & Ho1);
    [|simpl; lia|simpl; lia].
  exists w0, ended. destruct ended as [v|cause]; subst o1.
  - by simplify_eq.
  - unfold throw, formatError in Hrun. by simplify_eq.
Qed.

(** The same for an operation that is one exchange, read off the last
    event of the run. *)
Lemma executeGeminiCall_last_exchange {St T}
    (generateContent : Client -> Request -> St -> Outcome Response * St)
    rev settings (operation : Client -> M St T) contextName request post
    (s : St) res w' ai rq o :
  (forall ai w0, operation ai w0 = exchangeOp generateContent ai request post w0) ->
  executeGeminiCall rev settings operation contextName (initial s) = (res, w') ->
  last (trace w') = Some (EvExchange ai rq o) ->
  res = match post o with
        | Ok v => Ok v
        | Throw cause =>
            Throw (ErrorObj (contextName ++ js ": "
                             ++ classify rev (messageOf (rethrown cause))))
        end.
Proof.
  intros Hop Hrun Hlast.
  destruct (decide (cleanApiKey rev (apiKey settings) = [])) as [Hkey|Hkey].
  { unfold executeGeminiCall in Hrun.
    rewrite bool_decide_eq_true_2 in Hrun by done.
    unfold throw in Hrun. by simplify_eq. }
  apply executeGeminiCall_last_call in Hrun as (w0 & ended & Hcall & ->);
    [|done].
  rewrite Hop in Hcall. unfold exchangeOp in Hcall.
  destruct (generateContent _ request (ext w0)) as [o' s'] eqn:Hg.
  simplify_eq. simpl in Hlast. rewrite last_snoc in Hlast. by simplify_eq.
Qed.



(** ** Connectivity prober, for every run *)

Lemma requestedModels_cons_exchange ai rq o (evs : list Event) :
  requestedModels (EvExchange ai rq o :: evs) = reqModel rq :: requestedModels evs.
Proof. reflexivity. Qed.

Section ProbeRuns.
Context {St : Type}.
Variable generateContent : Client -> Request -> St -> Outcome Response * St.
Variable TEXT_MODELS : list ModelRef.

(** The events of a run of the probing loop. *)
Lemma probeModels_run rev ai models : forall le (w : World St) o w',
  probeModels generateContent rev ai models le w = (o, w') ->
  exists evs,
    trace w' = trace w ++ evs
    /\ requestedModels evs `prefix_of` probed rev models
    /\ match o with
       | Ok m =>
           m ∈ models
           /\ last (requestedModels evs) = Some m
           /\ successfulAttempts evs = 1%nat
           /\ (failedAttempts evs + 1)%nat = length evs
       | Throw _ =>
           requestedModels evs = probed rev models
           /\ successfulAttempts evs = 0%nat
           /\ failedAttempts evs = length evs
       end.
Proof.
  induction models as [|m rest IH]; intros le w o w' Hrun.
  - simpl in Hrun. unfold throw in Hrun. simplify_eq.
    exists []. rewrite app_nil_r. done.
  - unfold probed. destruct (skipsModel rev m) eqn:Hskip.
    + rewrite probeModels_skip in Hrun by done.
      rewrite filter_cons_False by (by rewrite Hskip).
      apply IH in Hrun as (evs & Htr & Hpre & Hres).
      exists evs. split; [done|]. split; [done|].
      destruct o; [|done]. destruct Hres as (Hin & ?). split; [by right | done].
    + rewrite filter_cons_True by done.
      destruct (generateContent ai (pingRequest rev m) (ext w)) as [[r|e] s1] eqn:Hg.
      * rewrite (probeModels_ok _ _ _ _ _ _ _ _ _ Hskip Hg) in Hrun. simplify_eq.
        exists [EvExchange ai (pingRequest rev m) (Ok r)].
        split; [done|]. split; [|by repeat split; [left|..]].
        simpl. by apply prefix_cons, prefix_nil.
      * rewrite (probeModels_fail _ _ _ _ _ _ _ _ _ Hskip Hg) in Hrun.
        apply IH in Hrun as (evs & Htr & Hpre & Hres). simpl in Htr.
        exists (EvExchange ai (pingRequest rev m) (Throw e) :: evs).
        split; [rewrite Htr; by rewrite <- app_assoc|].
        rewrite requestedModels_cons_exchange. simpl.
        split; [by apply prefix_cons|].
        unfold successfulAttempts, failedAttempts in *.
        rewrite filter_cons_False by done. rewrite filter_cons_True by done.
        destruct o as [m'|e'].
        -- destruct Hres as (Hin & Hlast & Hok & Hfail).
           split; [by right|]. split; [|split; [done | simpl; lia]].
           rewrite last_cons, Hlast. done.
        -- destruct Hres as (-> & Hok & Hfail). simpl. by rewrite Hfail.
Qed.

(** X8. A run of [testApiConnection] requests candidates in their
    order, never one that the loop skips (in [RevPart000], an empty
    name): a success returns the candidate requested last, after one
    successful attempt and failed ones only before it; a failure with a
    credential has requested every candidate, none with success; without
    a credential nothing is requested. *)
Theorem testApiConnection_attempts rev apiKey baseUrl priorityModels
    (w : World St) o w' :
  testApiConnection generateContent TEXT_MODELS rev apiKey baseUrl
    priorityModels w = (o, w') ->
  exists evs,
    trace w' = trace w ++ evs
    /\ requestedModels evs
       `prefix_of` probed rev (modelsToTry TEXT_MODELS rev priorityModels)
    /\ match o with
       | Ok m =>
           cleanApiKey rev apiKey <> []
           /\ m ∈ modelsToTry TEXT_MODELS rev priorityModels
           /\ last (requestedModels evs) = Some m
           /\ successfulAttempts evs = 1%nat
           /\ (failedAttempts evs + 1)%nat = length evs
       | Throw e =>
           successfulAttempts evs = 0%nat
           /\ (cleanApiKey rev apiKey = [] ->
               evs = [] /\ e = ErrorObj (js "API Key 为空"))
           /\ (cleanApiKey rev apiKey <> [] ->
               requestedModels evs
               = probed rev (modelsToTry TEXT_MODELS rev priorityModels))
       end.
Proof.
  unfold testApiConnection. case_bool_decide as Hkey.
  - unfold throw. intros ?; simplify_eq. exists []. rewrite app_nil_r.
    split; [done|]. split; [apply prefix_nil|]. by repeat split.
  - intros Hrun. apply probeModels_run in Hrun as (evs & Htr & Hpre & Hres).
    exists evs. split; [done|]. split; [done|].
    destruct o; [by destruct Hres as (? & ? & ? & ?)|].
    destruct Hres as (Hreq & Hok & _). by repeat split.
Qed.
End ProbeRuns.

Lemma testApiConnection_attempts_witness :
  exists evs,
    trace (snd (testApiConnection Fixtures.onlyB [] RevPart000 Fixtures.KEY
                  Fixtures.PROXY [Fixtures.MODEL_A; []; Fixtures.MODEL_B]
                  (initial 0%nat)))
    = trace (initial 0%nat) ++ evs
    /\ requestedModels evs
       `prefix_of` probed RevPart000
                     (modelsToTry [] RevPart000
                        [Fixtures.MODEL_A; []; Fixtures.MODEL_B])
    /\ Fixtures.KEY <> []
    /\ Fixtures.MODEL_B ∈ modelsToTry [] RevPart000
                            [Fixtures.MODEL_A; []; Fixtures.MODEL_B]
    /\ last (requestedModels evs) = Some Fixtures.MODEL_B
    /\ successfulAttempts evs = 1%nat
    /\ (failedAttempts evs + 1)%nat = length evs.
Proof.
  pose proof (testApiConnection_attempts Fixtures.onlyB [] RevPart000
                Fixtures.KEY Fixtures.PROXY
                [Fixtures.MODEL_A; []; Fixtures.MODEL_B] (initial 0%nat)
                (Ok Fixtures.MODEL_B)
                (snd (testApiConnection Fixtures.onlyB [] RevPart000 Fixtures.KEY
                        Fixtures.PROXY [Fixtures.MODEL_A; []; Fixtures.MODEL_B]
                        (initial 0%nat)))) as H.
  apply H. apply injective_projections; [vm_compute; reflexivity | reflexivity].
Defined.

(** ** The tasks on their responses *)

Lemma toInferenceResult_not_null (item : Json) :
  item <> JNull -> exists r, toInferenceResult item = Ok r.
Proof. destruct item; [done|eauto..]. Qed.

Lemma mapOutcome_toInferenceResult (items : list Json) :
  (JNull ∉ items ->
   exists results,
     mapOutcome toInferenceResult items = Ok results
     /\ length results = length items)
  /\ (JNull ∈ items -> exists e, mapOutcome toInferenceResult items = Throw e).
Proof.
  induction items as [|item rest [IHok IHnull]].
  - split; [by exists [] | by intros ?%elem_of_nil].
  - split.
    + intros Hnot. rewrite not_elem_of_cons in Hnot. destruct Hnot as [Hne Hrest].
      destruct (toInferenceResult_not_null item) as [r Hr]; [done|].
      destruct (IHok Hrest) as (results & Hres & Hlen).
      exists (r :: results). simpl. rewrite Hr. simpl. rewrite Hres. simpl.
      by rewrite Hlen.
    + intros Hin. simpl. destruct item; try (simpl; eauto; fail).
      all: apply elem_of_cons in Hin as [?|Hin]; [done|].
      all: destruct (IHnull Hin) as [e He]; rewrite He; simpl; eauto.
Qed.

Section TaskRuns.
Context {St : Type}.
Variable generateContent : Client -> Request -> St -> Outcome Response * St.
Variable JSON_parse : jsstring -> Outcome Json.

(** A response received in a run of [inferBatchPrompts] decides the
    result. *)
Lemma inferBatchPrompts_of_response rev scripts allCharacters settings prev
    s res w' ai rq response :
  inferBatchPrompts generateContent JSON_parse rev scripts allCharacters
    settings prev (initial s) = (res, w') ->
  EvExchange ai rq (Ok response) ∈ trace w' ->
  res = batchPost JSON_parse (length scripts) (Ok response).
Proof.
  intros Hrun Hin.
  destruct (inferBatchPrompts_cases _ _ _ _ _ _ _ _ _ _ Hrun)
    as [(results & Hexec & ->)|(e & Hexec & ->)].
  all: assert (Hlast : last (trace w') = Some (EvExchange ai rq (Ok response))).
  1, 3: eapply executeGeminiCall_resolved_last;
    [apply batchOperation_exchange | exact Hexec | | exact Hin | simpl; eauto];
    intros ev0 Hin0 Hr; apply list_elem_of_singleton in Hin0;
    subst ev0; exact Hr.
  all: eapply executeGeminiCall_exchange in Hexec;
    [|apply batchOperation_exchange].
  all: destruct Hexec as [(_ & Hw & _)|(_ & ai' & tr & o & Htr & Hpost)];
    [subst w'; by simpl in Hlast|].
  all: rewrite Htr, last_snoc in Hlast; simplify_eq.
  - exact Hpost.
  - simpl in Hpost. discriminate Hpost.
Qed.

(** X9. When a response parses to an array, [inferBatchPrompts] returns
    one entry per item of the array, whatever the number of input
    segments, provided no item is [null]; a single [null] item makes the
    callback throw, and the whole answer is replaced by the
    placeholders. *)
Theorem inferBatchPrompts_array rev scripts allCharacters settings prev
    s res w' ai rq response items :
  inferBatchPrompts generateContent JSON_parse rev scripts allCharacters
    settings prev (initial s) = (res, w') ->
  EvExchange ai rq (Ok response) ∈ trace w' ->
  JSON_parse (parsedText response) = Ok (JArr items) ->
  (JNull ∉ items ->
   exists results,
     res = Ok results
     /\ mapOutcome toInferenceResult items = Ok results
     /\ length results = length items)
  /\ (JNull ∈ items -> res = Ok (placeholders (length scripts))).
Proof.
  intros Hrun Hin Hparse.
  rewrite (inferBatchPrompts_of_response _ _ _ _ _ _ _ _ _ _ _ Hrun Hin).
  simpl. rewrite Hparse.
  destruct (mapOutcome_toInferenceResult items) as [Hok Hnull]. split.
  - intros Hnot. destruct (Hok Hnot) as (results & -> & Hlen). eauto.
  - intros Hhas. destruct (Hnull Hhas) as [e ->]. done.
Qed.

Lemma rolesOperation_exchange rev settings prompt ai (w : World St) :
  rolesOperation generateContent JSON_parse rev settings prompt ai w
  = exchangeOp generateContent ai (textRequest rev (textModel settings) prompt)
      (rolesPost JSON_parse) w.
Proof.
  unfold rolesOperation, exchangeOp, bind, generate, try_catch, liftOutcome, ret.
  destruct (generateContent _ _ _) as [[r|e] s']; [|done].
  unfold rolesPost, parsedText.
  destruct (JSON_parse _) as [[| | | |items|]|]; try done.
  by destruct (mapOutcome toRole items).
Qed.

Lemma frameOperation_exchange rev settings prompt ai (w : World St) :
  frameOperation generateContent JSON_parse rev settings prompt ai w
  = exchangeOp generateContent ai (textRequest rev (textModel settings) prompt)
      (framePost JSON_parse) w.
Proof.
  unfold frameOperation, exchangeOp, bind, generate, liftOutcome.
  destruct (generateContent _ _ _) as [[r|e] s']; [|done].
  unfold framePost. by destruct (JSON_parse _).
Qed.

(** X10. Role analysis degrades in silence on the response and only
    there: a response that does not parse, or parses to something that
    is not an array, or to an array with a [null] item, gives the empty
    list; a run that ends with a failed exchange throws an [Error] whose
    message is the label of the task, [": "], and the classified message
    of what the exchange threw (of the [TypeError] of the retry wrapper,
    when it threw [null] or [undefined]). *)
Theorem analyzeRoles_silent rev script settings s res w' :
  analyzeRoles generateContent JSON_parse rev script settings (initial s)
  = (res, w') ->
  (forall ai rq response,
     EvExchange ai rq (Ok response) ∈ trace w' ->
     (exists e, JSON_parse (parsedText response) = Throw e)
     \/ (exists v, JSON_parse (parsedText response) = Ok v /\ isArray v = false)
     \/ (exists items, JSON_parse (parsedText response) = Ok (JArr items)
                       /\ JNull ∈ items) ->
     res = Ok [])
  /\ (forall ai rq e,
        last (trace w') = Some (EvExchange ai rq (Throw e)) ->
        res = Throw (ErrorObj (ROLES_CONTEXT ++ js ": "
                               ++ classify rev (messageOf (rethrown e))))).
Proof.
  unfold analyzeRoles. intros Hrun. split.
  - intros ai rq response Hin Hbad.
    assert (Hlast : last (trace w') = Some (EvExchange ai rq (Ok response))).
    { eapply executeGeminiCall_resolved_last;
        [apply rolesOperation_exchange | exact Hrun | | exact Hin | simpl; eauto].
      simpl. by intros ? ?%elem_of_nil. }
    eapply executeGeminiCall_exchange in Hrun; [|apply rolesOperation_exchange].
    destruct Hrun as [(_ & -> & _)|(_ & ai' & tr & o & Htr & Hpost)]; [done|].
    rewrite Htr, last_snoc in Hlast. simplify_eq. simpl in Hpost. subst res.
    f_equal.
    destruct Hbad as [(e & ->)|[(v & -> & Harr)|(items & -> & Hnull)]].
    + done.
    + by destruct v.
    + assert (Hthrow : exists e, mapOutcome toRole items = Throw e).
      { clear -Hnull. induction items as [|item rest IH];
          [by apply elem_of_nil in Hnull|].
        simpl. destruct item; try (simpl; eauto; fail).
        all: apply elem_of_cons in Hnull as [?|Hnull]; [done|].
        all: destruct (IH Hnull) as [e ->]; simpl; eauto. }
      by destruct Hthrow as [e ->].
  - intros ai rq e Hlast.
    by rewrite (executeGeminiCall_last_exchange generateContent _ _ _ _ _ _ _ _ _
                  _ _ _ (rolesOperation_exchange rev settings (rolesPrompt script))
                  Hrun Hlast).
Qed.

(** X11. Single-frame inference has no fallback. When the run ends on a
    response that does not parse, it throws an [Error] whose message is
    the label of the task, [": "], and the classified message of what
    [JSON.parse] threw; when the response parses to [null], the message
    is the label, [": "], and the message of the [TypeError] of reading
    [prompt] off [null]; and when it parses to anything else, the run
    returns the frame built from the parsed value. *)
Theorem inferFrameData_propagates rev currentScript allCharacters settings
    contextBefore contextAfter s res w' ai rq response :
  inferFrameData generateContent JSON_parse rev currentScript allCharacters
    settings contextBefore contextAfter (initial s) = (res, w') ->
  last (trace w') = Some (EvExchange ai rq (Ok response)) ->
  match JSON_parse (stripFences (textOr response (js "{}"))) with
  | Throw e =>
      res = Throw (ErrorObj (FRAME_CONTEXT ++ js ": "
                             ++ classify rev (messageOf (rethrown e))))
  | Ok JNull =>
      res = Throw (ErrorObj
                     (FRAME_CONTEXT ++ js ": "
                      ++ messageOf (TYPE_ERROR_READ (js "null") (js "prompt"))))
  | Ok json =>
      exists result, toFrameResult json = Ok result /\ res = Ok result
  end.
Proof.
  unfold inferFrameData. intros Hrun Hlast.
  rewrite (executeGeminiCall_last_exchange generateContent _ _ _ _ _ _ _ _ _
             _ _ _
             (frameOperation_exchange rev settings
                (framePrompt currentScript allCharacters contextBefore
                   contextAfter))
             Hrun Hlast).
  unfold framePost.
  destruct (JSON_parse (stripFences (textOr response (js "{}"))))
    as [json|e]; [|done].
  destruct json as [| | | | |fields]; simpl.
  - reflexivity.
  - eexists. split; reflexivity.
  - eexists. split; reflexivity.
  - eexists. split; reflexivity.
  - eexists. split; reflexivity.
  - eexists. split; reflexivity.
Qed.
End TaskRuns.

Lemma inferBatchPrompts_array_witness :
  (exists results,
     fst (inferBatchPrompts (Fixtures.answering MoreFixtures.SHOTS_TEXT)
            MoreFixtures.parseMore RevPart000 Fixtures.SEGMENTS []
            Fixtures.SETTINGS [] (initial 0%nat)) = Ok results
     /\ mapOutcome toInferenceResult MoreFixtures.SHOTS = Ok results
     /\ length results = length MoreFixtures.SHOTS)
  /\ fst (inferBatchPrompts (Fixtures.answering MoreFixtures.NULL_ITEM_TEXT)
            MoreFixtures.parseMore RevPart000 Fixtures.SEGMENTS []
            Fixtures.SETTINGS [] (initial 0%nat))
     = Ok (placeholders (length Fixtures.SEGMENTS)).
Proof.
  split.
  - eapply (inferBatchPrompts_array (Fixtures.answering MoreFixtures.SHOTS_TEXT)
              MoreFixtures.parseMore RevPart000 Fixtures.SEGMENTS []
              Fixtures.SETTINGS [] 0%nat _ _
              Fixtures.TASK_CLIENT Fixtures.BATCH_REQUEST
              {| text := Some MoreFixtures.SHOTS_TEXT |} MoreFixtures.SHOTS).
    + apply surjective_pairing.
    + apply (list_elem_of_lookup_2 _ 2). vm_compute. reflexivity.
    + vm_compute. reflexivity.
    + intros H. repeat (apply elem_of_cons in H as [H|H]; [discriminate H|]).
      by apply elem_of_nil in H.
  - eapply (inferBatchPrompts_array (Fixtures.answering MoreFixtures.NULL_ITEM_TEXT)
              MoreFixtures.parseMore RevPart000 Fixtures.SEGMENTS []
              Fixtures.SETTINGS [] 0%nat _ _
              Fixtures.TASK_CLIENT Fixtures.BATCH_REQUEST
              {| text := Some MoreFixtures.NULL_ITEM_TEXT |} [JNull]).
    + apply surjective_pairing.
    + apply (list_elem_of_lookup_2 _ 2). vm_compute. reflexivity.
    + vm_compute. reflexivity.
    + left.
Defined.

Lemma analyzeRoles_silent_witness :
  fst (analyzeRoles (Fixtures.answering Fixtures.APOLOGY) Fixtures.parse
         RevPart000 Fixtures.SCRIPT Fixtures.SETTINGS (initial 0%nat)) = Ok []
  /\ fst (analyzeRoles Fixtures.overloaded Fixtures.parse RevPart000
            Fixtures.SCRIPT Fixtures.SETTINGS (initial 0%nat))
     = Throw (ErrorObj (ROLES_CONTEXT ++ js ": "
                        ++ classify RevPart000
                             (messageOf (rethrown Fixtures.OVERLOADED_PRO)))).
Proof.
  split.
  - eapply (analyzeRoles_silent (Fixtures.answering Fixtures.APOLOGY)
              Fixtures.parse RevPart000 Fixtures.SCRIPT Fixtures.SETTINGS 0%nat).
    + apply surjective_pairing.
    + apply (list_elem_of_lookup_2 _ 1
               (EvExchange Fixtures.TASK_CLIENT MoreFixtures.ROLES_REQUEST
                  (Ok {| text := Some Fixtures.APOLOGY |}))).
      vm_compute. reflexivity.
    + left. exists (ErrorObj (js "Unexpected token")). vm_compute. reflexivity.
  - eapply (analyzeRoles_silent Fixtures.overloaded
              Fixtures.parse RevPart000 Fixtures.SCRIPT Fixtures.SETTINGS 0%nat
              _ _).
    + apply surjective_pairing.
    + instantiate (1 := MoreFixtures.ROLES_REQUEST).
      instantiate (1 := Fixtures.TASK_CLIENT).
      vm_compute. reflexivity.
Defined.

Lemma inferFrameData_propagates_witness :
  fst (inferFrameData (Fixtures.answering MoreFixtures.NULL_TEXT)
         MoreFixtures.parseMore RevPart000 Fixtures.SCRIPT []
         Fixtures.SETTINGS [] [] (initial 0%nat))
  = Throw (ErrorObj
             (FRAME_CONTEXT ++ js ": "
              ++ messageOf (TYPE_ERROR_READ (js "null") (js "prompt")))).
Proof.
  pose proof (inferFrameData_propagates (Fixtures.answering MoreFixtures.NULL_TEXT)
                MoreFixtures.parseMore RevPart000 Fixtures.SCRIPT []
                Fixtures.SETTINGS [] [] 0%nat _ _
                Fixtures.TASK_CLIENT MoreFixtures.FRAME_REQUEST
                {| text := Some MoreFixtures.NULL_TEXT |}
                (surjective_pairing _)) as H.
  apply H. vm_compute. reflexivity.
Defined.

(** ** Image generation *)

Lemma classify_none (rev : Revision) (msg : jsstring) :
  matchesNone PATTERNS msg -> classify rev msg = msg.
Proof.
  intros Hnone. unfold classify.
  unfold PATTERNS, PATTERNS_BEFORE_429 in Hnone. simpl in Hnone.
  repeat (apply matchesNone_cons in Hnone as [-> Hnone]). done.
Qed.

Lemma isTransient_none (msg : jsstring) :
  matchesNone PATTERNS msg -> includes msg (js "Quota exceeded") = false ->
  isTransient msg = false.
Proof.
  intros Hnone Hquota. unfold isTransient.
  unfold PATTERNS, PATTERNS_BEFORE_429 in Hnone. simpl in Hnone.
  repeat (apply matchesNone_cons in Hnone as [? Hnone]).
  repeat match goal with H : includes msg _ = false |- _ => rewrite H; clear H end.
  done.
Qed.

Lemma firstInlineData_skip (pre post : list ResponsePart) :
  Forall (fun part => firstInlineData [part] = None) pre ->
  firstInlineData (pre ++ post) = firstInlineData post.
Proof.
  induction 1 as [|part pre Hpart _ IH]; [done|]. simpl in *.
  destruct (inlineData part) as [inline|]; [|done].
  by destruct (truthyString (data inline)).
Qed.

(** X12. [generateImage] reads the first candidate only and returns, as
    a PNG data URL, the data of its first part that has any: parts
    without data before it, the parts after it, the finish reason and
    the other candidates do not matter. *)
Theorem imageResult_first_inline (c : Candidate) (others : list Candidate)
    (pre post : list ResponsePart) (d : jsstring) :
  contentParts c
  = Some (pre ++ {| inlineData := Some {| data := Some d |} |} :: post) ->
  d <> [] ->
  Forall (fun part => firstInlineData [part] = None) pre ->
  imageResult {| candidates := Some (c :: others) |}
  = Ok (js "data:image/png;base64," ++ d).
Proof.
  intros Hparts Hd Hpre. unfold imageResult. simpl. rewrite Hparts.
  rewrite firstInlineData_skip by done. simpl.
  by rewrite bool_decide_eq_false_2.
Qed.

Lemma imageResult_first_inline_witness :
  imageResult
    {| candidates :=
         Some [{| contentParts :=
                    Some ([{| inlineData := None |}]
                          ++ {| inlineData := Some {| data := Some MoreFixtures.PIXELS |} |}
                          :: []);
                  finishReason := Some (js "STOP") |}] |}
  = Ok (js "data:image/png;base64," ++ MoreFixtures.PIXELS).
Proof.
  apply (imageResult_first_inline _ [] [{| inlineData := None |}] []
           MoreFixtures.PIXELS).
  - reflexivity.
  - intros H. vm_compute in H. discriminate H.
  - repeat constructor.
Defined.

Section ImageRuns.
Context {St : Type}.
Variable generateImageContent :
  Client -> ImageRequest -> St -> Outcome ImageResponse * St.

(** X13. [generateImage] asks for the HD model when [isHD] is set and
    for the configured image model otherwise; on the first answer it
    returns the image, if there is one, after one call and no wait, and
    otherwise throws, after one call and no wait, the message of the
    operation behind the label of the task: the empty-response message,
    or the stop reason when the reason looks like none of the
    classifier's and the retry wrapper's patterns. *)
Theorem generateImage_first_answer rev prompt settings aspectRatio
    characterImageBase64 styleImageBase64 (isHD : bool) (s s' : St) response :
  cleanApiKey rev (apiKey settings) <> [] ->
  generateImageContent
    (createClient rev (cleanApiKey rev (apiKey settings))
       (cleanBaseUrl (Some (baseUrl settings))))
    (imageRequest rev
       (if isHD then GEMINI_3_PRO_IMAGE_PREVIEW else imageModel settings)
       prompt aspectRatio characterImageBase64 styleImageBase64) s
  = (Ok response, s') ->
  (forall url,
     imageResult response = Ok url ->
     generateImage generateImageContent rev prompt settings aspectRatio
       characterImageBase64 styleImageBase64 isHD (initial s)
     = (Ok url, {| ext := s'; trace := [EvInvoke] |}))
  /\ (forall message,
        imageResult response = Throw (ErrorObj message) ->
        message = EMPTY_RESPONSE
        \/ (matchesNone PATTERNS message
            /\ includes message (js "Quota exceeded") = false) ->
        generateImage generateImageContent rev prompt settings aspectRatio
          characterImageBase64 styleImageBase64 isHD (initial s)
        = (Throw (ErrorObj (IMAGE_CONTEXT ++ js ": " ++ message)),
           {| ext := s'; trace := [EvInvoke] |})).
Proof.
  intros Hkey Hgen.
  set (ai := createClient rev (cleanApiKey rev (apiKey settings))
               (cleanBaseUrl (Some (baseUrl settings)))) in *.
  set (request := imageRequest rev
                    (if isHD then GEMINI_3_PRO_IMAGE_PREVIEW else imageModel settings)
                    prompt aspectRatio characterImageBase64 styleImageBase64) in *.
  assert (Hcall : liftOp (imageCall generateImageContent ai request)
                    (calling (initial s))
                  = (imageResult response, {| ext := s'; trace := [EvInvoke] |})).
  { rewrite liftOp_calling. change (ext (initial s)) with s.
    unfold imageCall. by rewrite Hgen. }
  split.
  - intros url Hurl. rewrite Hurl in Hcall.
    unfold generateImage, executeGeminiCall.
    rewrite bool_decide_eq_false_2 by done.
    unfold try_catch, retryOperation. change (Z.to_nat (3 + 1)) with 4%nat.
    fold ai request. by rewrite (retryLoop_ok _ _ _ _ _ _ _ _ _ Hcall).
  - intros message Hres Hmsg. rewrite Hres in Hcall.
    assert (Hnone : matchesNone PATTERNS message
                    /\ includes message (js "Quota exceeded") = false).
    { destruct Hmsg as [-> | ?]; [|done]. split; [by repeat constructor | done]. }
    destruct Hnone as [Hnone Hquota].
    assert (Hne : message <> []).
    { intros ->. unfold imageResult in Hres.
      repeat case_match; simplify_eq. }
    assert (Hmessage : messageOrString (ErrorObj message) = Ok message).
    { unfold messageOrString. by rewrite bool_decide_eq_false_2. }
    unfold generateImage, executeGeminiCall.
    rewrite bool_decide_eq_false_2 by done.
    unfold try_catch, retryOperation. change (Z.to_nat (3 + 1)) with 4%nat.
    fold ai request.
    rewrite (retryLoop_rethrow _ _ _ _ _ _ _ _ _ _ Hcall Hmessage
               (or_introl (isTransient_none _ Hnone Hquota))).
    unfold throw, formatError, messageOf. by rewrite classify_none.
Qed.
End ImageRuns.

Lemma generateImage_first_answer_witness :
  generateImage MoreFixtures.painting RevPart000 (js "a door") Fixtures.SETTINGS
    (js "16:9") None None true (initial 0%nat)
  = (Ok (js "data:image/png;base64," ++ MoreFixtures.PIXELS),
     {| ext := 1%nat; trace := [EvInvoke] |})
  /\ generateImage MoreFixtures.blank RevPart000 (js "a door") Fixtures.SETTINGS
       (js "16:9") None None true (initial 0%nat)
     = (Throw (ErrorObj (IMAGE_CONTEXT ++ js ": " ++ EMPTY_RESPONSE)),
        {| ext := 1%nat; trace := [EvInvoke] |})
  /\ generateImage MoreFixtures.censoring RevPart000 (js "a door")
       Fixtures.SETTINGS (js "16:9") None None true (initial 0%nat)
     = (Throw (ErrorObj (IMAGE_CONTEXT ++ js ": " ++ BLOCKED (js "SAFETY"))),
        {| ext := 1%nat; trace := [EvInvoke] |}).
Proof.
  split; [|split].
  - eapply (generateImage_first_answer MoreFixtures.painting RevPart000
              (js "a door") Fixtures.SETTINGS (js "16:9") None None true
              0%nat 1%nat).
    + intros H. vm_compute in H. discriminate H.
    + reflexivity.
    + vm_compute. reflexivity.
  - eapply (generateImage_first_answer MoreFixtures.blank RevPart000
              (js "a door") Fixtures.SETTINGS (js "16:9") None None true
              0%nat 1%nat).
    + intros H. vm_compute in H. discriminate H.
    + reflexivity.
    + reflexivity.
    + left. reflexivity.
  - eapply (generateImage_first_answer MoreFixtures.censoring RevPart000
              (js "a door") Fixtures.SETTINGS (js "16:9") None None true
              0%nat 1%nat).
    + intros H. vm_compute in H. discriminate H.
    + reflexivity.
    + reflexivity.
    + right. split; [repeat constructor | vm_compute; reflexivity].
Defined.

(** ** Project store *)

Section ProjectFacts.
Variable Project : Type.
Variable projectId : Project -> jsstring.
Variable stringifyProjects : list Project -> jsstring.
Variable parseProjects : jsstring -> Outcome (list Project).

Lemma upsertProject_ids (project : Project) (projects : list Project) :
  map projectId (upsertProject _ projectId project projects)
  = if bool_decide (Exists (fun p => projectId p = projectId project) projects)
    then map projectId projects
    else projectId project :: map projectId projects.
Proof.
  unfold upsertProject. case_bool_decide; [|done].
  rewrite <- list_fmap_compose. apply list_fmap_ext. intros i p _. simpl.
  by case_bool_decide.
Qed.

Lemma upsertProject_others (project : Project) (projects : list Project) :
  filter (fun p => projectId p <> projectId project)
    (upsertProject _ projectId project projects)
  = filter (fun p => projectId p <> projectId project) projects.
Proof.
  unfold upsertProject. case_bool_decide as Hex.
  - clear Hex. induction projects as [|p rest IH]; [done|]. simpl.
    case_bool_decide as Hid.
    + rewrite !filter_cons_False by (intros H; by apply H). done.
    + rewrite !filter_cons_True by done. by rewrite IH.
  - rewrite filter_cons_False by (intros H; by apply H). done.
Qed.

Lemma upsertProject_elem (project : Project) (projects : list Project) :
  project ∈ upsertProject _ projectId project projects
  /\ forall p, p ∈ upsertProject _ projectId project projects ->
               projectId p = projectId project -> p = project.
Proof.
  unfold upsertProject. case_bool_decide as Hex.
  - split.
    + apply Exists_exists in Hex as (p & Hin & Hid).
      apply list_elem_of_fmap. exists p. by rewrite bool_decide_eq_true_2.
    + intros p (q & -> & Hq)%list_elem_of_fmap. by case_bool_decide.
  - split; [left|].
    intros p [->|Hin]%elem_of_cons Hid; [done|].
    exfalso. apply Hex. apply Exists_exists. eauto.
Qed.

Lemma getProjectsSync_saveProjects ls (projects : list Project) :
  parseProjects (stringifyProjects projects) = Ok projects ->
  stringifyProjects projects <> [] ->
  getProjectsSync _ parseProjects (saveProjects _ stringifyProjects ls projects)
  = Ok projects.
Proof.
  intros Hround Hne. unfold getProjectsSync, saveProjects.
  rewrite lookup_insert_eq. by rewrite bool_decide_eq_false_2.
Qed.

(** X14. [saveSingleProject] is an upsert by [id]. When the stored list
    reads back, afterwards the store holds the project, and nothing else
    under its [id]; the other projects are the same, in the same order;
    distinct ids stay distinct; and no other key of the store changes. *)
Theorem saveSingleProject_upsert ls (project : Project) (projects : list Project) :
  getProjectsSync _ parseProjects ls = Ok projects ->
  parseProjects (stringifyProjects (upsertProject _ projectId project projects))
  = Ok (upsertProject _ projectId project projects) ->
  stringifyProjects (upsertProject _ projectId project projects) <> [] ->
  exists ls' stored,
    saveSingleProject _ projectId stringifyProjects parseProjects ls project
    = Ok ls'
    /\ getProjectsSync _ parseProjects ls' = Ok stored
    /\ project ∈ stored
    /\ (forall p, p ∈ stored -> projectId p = projectId project -> p = project)
    /\ filter (fun p => projectId p <> projectId project) stored
       = filter (fun p => projectId p <> projectId project) projects
    /\ (NoDup (map projectId projects) -> NoDup (map projectId stored))
    /\ (forall k, k <> KEYS_PROJECTS -> ls' !! k = ls !! k).
Proof.
  intros Hread Hround Hne.
  exists (saveProjects _ stringifyProjects ls
            (upsertProject _ projectId project projects)),
         (upsertProject _ projectId project projects).
  destruct (upsertProject_elem project projects) as [Hin Huniq].
  split; [unfold saveSingleProject; by rewrite Hread|].
  split; [by apply getProjectsSync_saveProjects|].
  split; [done|]. split; [done|].
  split; [apply upsertProject_others|]. split.
  - intros Hnodup. rewrite upsertProject_ids. case_bool_decide as Hex; [done|].
    constructor; [|done].
    intros (p & Hid & Hp)%list_elem_of_fmap. apply Hex.
    apply Exists_exists. eauto.
  - intros k Hk. unfold saveProjects. by rewrite lookup_insert_ne.
Qed.

(** X15. [deleteProject] removes every project with the given [id] and
    nothing else: when the stored list reads back, what is left are the
    projects with another [id], in their order, and no other key of the
    store changes. *)
Theorem deleteProject_removes ls (id : jsstring) (projects : list Project) :
  getProjectsSync _ parseProjects ls = Ok projects ->
  parseProjects (stringifyProjects (filter (fun p => projectId p <> id) projects))
  = Ok (filter (fun p => projectId p <> id) projects) ->
  stringifyProjects (filter (fun p => projectId p <> id) projects) <> [] ->
  exists ls' stored,
    deleteProject _ projectId stringifyProjects parseProjects ls id = Ok ls'
    /\ getProjectsSync _ parseProjects ls' = Ok stored
    /\ (forall p, p ∈ stored <-> p ∈ projects /\ projectId p <> id)
    /\ stored `sublist_of` projects
    /\ (id ∉ map projectId projects -> stored = projects)
    /\ (forall k, k <> KEYS_PROJECTS -> ls' !! k = ls !! k).
Proof.
  intros Hread Hround Hne.
  exists (saveProjects _ stringifyProjects ls
            (filter (fun p => projectId p <> id) projects)),
         (filter (fun p => projectId p <> id) projects).
  split; [unfold deleteProject; by rewrite Hread|].
  split; [by apply getProjectsSync_saveProjects|].
  split; [|split; [apply sublist_filter|split]].
  - intros p. rewrite list_elem_of_filter. tauto.
  - intros Hnot. clear -Hnot. induction projects as [|p rest IH]; [done|].
    simpl in Hnot. rewrite not_elem_of_cons in Hnot. destruct Hnot as [Hp Hrest].
    rewrite filter_cons_True by done. by rewrite IH.
  - intros k Hk. unfold saveProjects. by rewrite lookup_insert_ne.
Qed.
End ProjectFacts.

Lemma saveSingleProject_upsert_witness :
  exists ls' stored,
    saveSingleProject _ MoreFixtures.projectId MoreFixtures.stringifyProjects
      MoreFixtures.parseProjects MoreFixtures.STORE MoreFixtures.DRAFT_RENAMED
    = Ok ls'
    /\ getProjectsSync _ MoreFixtures.parseProjects ls' = Ok stored
    /\ MoreFixtures.DRAFT_RENAMED ∈ stored
    /\ (forall p, p ∈ stored ->
          MoreFixtures.projectId p
          = MoreFixtures.projectId MoreFixtures.DRAFT_RENAMED ->
          p = MoreFixtures.DRAFT_RENAMED)
    /\ filter (fun p => MoreFixtures.projectId p
                        <> MoreFixtures.projectId MoreFixtures.DRAFT_RENAMED)
         stored
       = filter (fun p => MoreFixtures.projectId p
                          <> MoreFixtures.projectId MoreFixtures.DRAFT_RENAMED)
           [MoreFixtures.DRAFT; MoreFixtures.TRAILER]
    /\ (NoDup (map MoreFixtures.projectId [MoreFixtures.DRAFT; MoreFixtures.TRAILER])
        -> NoDup (map MoreFixtures.projectId stored))
    /\ (forall k, k <> KEYS_PROJECTS -> ls' !! k = MoreFixtures.STORE !! k).
Proof.
  apply (saveSingleProject_upsert _ MoreFixtures.projectId
           MoreFixtures.stringifyProjects MoreFixtures.parseProjects
           MoreFixtures.STORE MoreFixtures.DRAFT_RENAMED
           [MoreFixtures.DRAFT; MoreFixtures.TRAILER]).
  - vm_compute. reflexivity.
  - vm_compute. reflexivity.
  - vm_compute. discriminate.
Defined.

Lemma deleteProject_removes_witness :
  exists ls' stored,
    deleteProject _ MoreFixtures.projectId MoreFixtures.stringifyProjects
      MoreFixtures.parseProjects MoreFixtures.STORE (js "p1")
    = Ok ls'
    /\ getProjectsSync _ MoreFixtures.parseProjects ls' = Ok stored
    /\ (forall p, p ∈ stored <->
                  p ∈ [MoreFixtures.DRAFT; MoreFixtures.TRAILER]
                  /\ MoreFixtures.projectId p <> js "p1")
    /\ stored `sublist_of` [MoreFixtures.DRAFT; MoreFixtures.TRAILER]
    /\ (js "p1" ∉ map MoreFixtures.projectId
                    [MoreFixtures.DRAFT; MoreFixtures.TRAILER]
        -> stored = [MoreFixtures.DRAFT; MoreFixtures.TRAILER])
    /\ (forall k, k <> KEYS_PROJECTS -> ls' !! k = MoreFixtures.STORE !! k).
Proof.
  apply (deleteProject_removes _ MoreFixtures.projectId
           MoreFixtures.stringifyProjects MoreFixtures.parseProjects
           MoreFixtures.STORE (js "p1")
           [MoreFixtures.DRAFT; MoreFixtures.TRAILER]).
  - vm_compute. reflexivity.
  - vm_compute. reflexivity.
  - vm_compute. discriminate.
Defined.

(** ** Settings store *)

Lemma DEFAULT_SETTINGS_schema (k : jsstring) :
  is_Some (DEFAULT_SETTINGS !! k) <-> k ∈ SETTINGS_SCHEMA.
Proof.
  split.
  - intros [v Hv]. apply elem_of_list_to_map_2 in Hv.
    apply (list_elem_of_fmap_2 fst) in Hv. exact Hv.
  - intros Hk. unfold SETTINGS_SCHEMA in Hk.
    repeat (apply elem_of_cons in Hk as [->|Hk];
            [eexists; vm_compute; reflexivity|]).
    by apply elem_of_nil in Hk.
Qed.

Lemma apiKeys_not_in_schema : js "apiKeys" ∉ SETTINGS_SCHEMA.
Proof.
  rewrite <- DEFAULT_SETTINGS_schema, DEFAULT_SETTINGS_apiKeys.
  by intros [? ?].
Qed.

Lemma customTextModels_in_schema : js "customTextModels" ∈ SETTINGS_SCHEMA.
Proof. apply DEFAULT_SETTINGS_schema. eexists. vm_compute. reflexivity. Qed.

(** The objects that the merge of [getSettingsSync] leaves as they are. *)
Lemma mergeSettings_fixed (props : gmap jsstring Json) :
  mergeSettings props = props
  <-> props !! js "apiKeys" = None
      /\ truthyOpt (props !! js "customTextModels") = true
      /\ forall k, k ∈ SETTINGS_SCHEMA -> is_Some (props !! k).
Proof.
  split.
  - intros Hfix. split; [|split].
    + rewrite <- Hfix, mergeSettings_lookup. by rewrite bool_decide_eq_true_2.
    + rewrite <- Hfix, mergeSettings_lookup.
      rewrite bool_decide_eq_false_2
        by (intros E; symmetry in E; by apply customTextModels_not_apiKeys in E).
      rewrite bool_decide_eq_true_2 by done.
      destruct (props !! js "customTextModels") as [v|]; simpl; [|done].
      by destruct (truthy v) eqn:Ht.
    + intros k Hk. rewrite <- Hfix, mergeSettings_lookup.
      case_bool_decide as Hk1; [subst k; by apply apiKeys_not_in_schema in Hk|].
      case_bool_decide as Hk2; [by destruct (props !! k)|].
      destruct (props !! k); [done|]. by apply DEFAULT_SETTINGS_schema.
  - intros (Hkeys & Hmodels & Hall). apply map_eq. intros k.
    rewrite mergeSettings_lookup.
    case_bool_decide as Hk1; [by subst k|].
    case_bool_decide as Hk2.
    + subst k. destruct (props !! js "customTextModels") as [v|]; [|done].
      simpl in Hmodels. by rewrite Hmodels.
    + destruct (props !! k) eqn:Hp; [done|].
      destruct (DEFAULT_SETTINGS !! k) eqn:Hd; [|done].
      assert (Hin : k ∈ SETTINGS_SCHEMA) by (apply DEFAULT_SETTINGS_schema; eauto).
      apply Hall in Hin as [? Hin]. congruence.
Qed.

Lemma mergeSettings_idem (props : gmap jsstring Json) :
  mergeSettings (mergeSettings props) = mergeSettings props.
Proof.
  apply mergeSettings_fixed. split; [|split].
  - rewrite mergeSettings_lookup. by rewrite bool_decide_eq_true_2.
  - rewrite mergeSettings_lookup.
    rewrite bool_decide_eq_false_2
      by (intros E; symmetry in E; by apply customTextModels_not_apiKeys in E).
    rewrite bool_decide_eq_true_2 by done.
    destruct (props !! js "customTextModels") as [v|]; simpl; [|done].
    by destruct (truthy v) eqn:Ht.
  - intros k Hk. rewrite mergeSettings_lookup.
    case_bool_decide as Hk1; [subst k; by apply apiKeys_not_in_schema in Hk|].
    case_bool_decide as Hk2; [by destruct (props !! k)|].
    destruct (props !! k); [done|]. by apply DEFAULT_SETTINGS_schema.
Qed.

Lemma getSettingsSync_merged (JSON_parse : jsstring -> Outcome Json)
    (ls : gmap jsstring jsstring) (settings : gmap jsstring Json) :
  getSettingsSync JSON_parse ls = Ok settings ->
  exists props, settings = mergeSettings props.
Proof.
  unfold getSettingsSync. intros H.
  repeat case_match; simplify_eq; eauto.
Qed.

Section SettingsFacts.
Variable JSON_parse : jsstring -> Outcome Json.
Variable JSON_stringify : Json -> jsstring.

(** X16. What [getSettingsSync] reads after [saveSettings] is the merge
    of the saved object, whenever the saved text parses back to the
    object. The merge gives the object back exactly when the object has
    no [apiKeys], a truthy [customTextModels] and every key of the
    defaults. *)
Theorem saveSettings_round_trip (ls : gmap jsstring jsstring)
    (settings : gmap jsstring Json) :
  JSON_parse (JSON_stringify (JObj settings)) = Ok (JObj settings) ->
  JSON_stringify (JObj settings) <> [] ->
  getSettingsSync JSON_parse (saveSettings JSON_stringify ls settings)
  = Ok (mergeSettings settings)
  /\ (mergeSettings settings = settings
      <-> settings !! js "apiKeys" = None
          /\ truthyOpt (settings !! js "customTextModels") = true
          /\ forall k, k ∈ SETTINGS_SCHEMA -> is_Some (settings !! k))
  /\ forall k, k <> KEYS_SETTINGS ->
       saveSettings JSON_stringify ls settings !! k = ls !! k.
Proof.
  intros Hround Hne. split; [|split].
  - unfold getSettingsSync, saveSettings. rewrite lookup_insert_eq.
    rewrite bool_decide_eq_false_2 by done. by rewrite Hround.
  - apply mergeSettings_fixed.
  - intros k Hk. unfold saveSettings. by rewrite lookup_insert_ne.
Qed.

(** X17. Settings that [getSettingsSync] has returned survive a save
    and a read unchanged, whenever their text parses back to them: the
    merge with the defaults is idempotent. *)
Theorem getSettingsSync_stable (ls : gmap jsstring jsstring)
    (settings : gmap jsstring Json) :
  getSettingsSync JSON_parse ls = Ok settings ->
  JSON_parse (JSON_stringify (JObj settings)) = Ok (JObj settings) ->
  JSON_stringify (JObj settings) <> [] ->
  getSettingsSync JSON_parse (saveSettings JSON_stringify ls settings)
  = Ok settings.
Proof.
  intros Hread Hround Hne.
  apply getSettingsSync_merged in Hread as [props ->].
  unfold getSettingsSync, saveSettings. rewrite lookup_insert_eq.
  rewrite bool_decide_eq_false_2 by done. rewrite Hround.
  by rewrite mergeSettings_idem.
Qed.
End SettingsFacts.

Lemma saveSettings_round_trip_witness :
  getSettingsSync Fixtures.parse
    (saveSettings MoreFixtures.stringify ∅ MoreFixtures.LEGACY_SETTINGS)
  = Ok (mergeSettings MoreFixtures.LEGACY_SETTINGS)
  /\ (mergeSettings MoreFixtures.LEGACY_SETTINGS = MoreFixtures.LEGACY_SETTINGS
      <-> MoreFixtures.LEGACY_SETTINGS !! js "apiKeys" = None
          /\ truthyOpt (MoreFixtures.LEGACY_SETTINGS !! js "customTextModels")
             = true
          /\ forall k, k ∈ SETTINGS_SCHEMA ->
                       is_Some (MoreFixtures.LEGACY_SETTINGS !! k))
  /\ forall k, k <> KEYS_SETTINGS ->
       saveSettings MoreFixtures.stringify ∅ MoreFixtures.LEGACY_SETTINGS !! k
       = (∅ : gmap jsstring jsstring) !! k.
Proof.
  apply (saveSettings_round_trip Fixtures.parse MoreFixtures.stringify ∅
           MoreFixtures.LEGACY_SETTINGS).
  - vm_compute. reflexivity.
  - vm_compute. discriminate.
Defined.

Lemma getSettingsSync_stable_witness :
  getSettingsSync MoreFixtures.parseMerged
    (saveSettings MoreFixtures.stringifyMerged MoreFixtures.LEGACY_STORE
       MoreFixtures.MERGED_SETTINGS)
  = Ok MoreFixtures.MERGED_SETTINGS.
Proof.
  apply (getSettingsSync_stable MoreFixtures.parseMerged
           MoreFixtures.stringifyMerged MoreFixtures.LEGACY_STORE
           MoreFixtures.MERGED_SETTINGS).
  - vm_compute. reflexivity.
  - vm_compute. reflexivity.
  - vm_compute. discriminate.
Defined.

(** ** Session store *)

(** X18. After [setAuth] the token read back is the one given, whatever
    was stored before; after [clearAuth] there is none; and neither
    touches the projects, the characters or the settings. *)
Theorem auth_round_trip (JSON_stringify : Json -> jsstring)
    (ls : gmap jsstring jsstring) (token : jsstring) (user : Json) :
  getAuthToken (setAuth JSON_stringify ls token user) = Some token
  /\ getAuthToken (clearAuth (setAuth JSON_stringify ls token user)) = None
  /\ clearAuth (setAuth JSON_stringify ls token user) = clearAuth ls
  /\ forall k, k ∈ [KEYS_PROJECTS; KEYS_CHARACTERS; KEYS_SETTINGS] ->
       setAuth JSON_stringify ls token user !! k = ls !! k
       /\ clearAuth ls !! k = ls !! k.
Proof.
  assert (Hne : KEYS_AUTH_USER <> KEYS_AUTH_TOKEN)
    by (intros E; vm_compute in E; discriminate E).
  unfold getAuthToken, setAuth, clearAuth. split; [|split; [|split]].
  - rewrite lookup_insert_ne by done. apply lookup_insert_eq.
  - rewrite lookup_delete_ne by done. apply lookup_delete_eq.
  - apply map_eq. intros k.
    destruct (decide (k = KEYS_AUTH_USER)) as [->|Hu];
      [by rewrite !lookup_delete_eq|].
    rewrite !(lookup_delete_ne _ KEYS_AUTH_USER) by done.
    destruct (decide (k = KEYS_AUTH_TOKEN)) as [->|Ht];
      [by rewrite !lookup_delete_eq|].
    rewrite !(lookup_delete_ne _ KEYS_AUTH_TOKEN) by done.
    by rewrite !lookup_insert_ne by done.
  - intros k Hk.
    assert (Hu : KEYS_AUTH_USER <> k /\ KEYS_AUTH_TOKEN <> k).
    { repeat (apply elem_of_cons in Hk as [->|Hk];
              [split; intros E; vm_compute in E; discriminate E|]).
      by apply elem_of_nil in Hk. }
    destruct Hu as [Hu Ht].
    rewrite !lookup_insert_ne by done. by rewrite !lookup_delete_ne by done.
Qed.

(** ** Settings dialog *)

Lemma Exists_value (models : list ModelRef) (val : jsstring) :
  Exists (fun m => value m = val) models <-> val ∈ valuesOf models.
Proof.
  unfold valuesOf. rewrite Exists_exists, list_elem_of_fmap.
  split; intros (m & H1 & H2); exists m; done.
Qed.

Lemma valuesOf_filter (models : list ModelRef) (val : jsstring) :
  valuesOf (filter (fun m => value m <> val) models)
  = filter (fun v => v <> val) (valuesOf models).
Proof.
  unfold valuesOf. induction models as [|m rest IH]; [done|]. simpl.
  destruct (decide (value m = val)) as [Hm|Hm].
  - rewrite !filter_cons_False by (intros H; by apply H). done.
  - rewrite !filter_cons_True by done. simpl. by rewrite IH.
Qed.

Lemma DEFAULT_TEXT_MODEL_offered : DEFAULT_TEXT_MODEL ∈ valuesOf DEFAULT_TEXT_MODELS.
Proof. left. Qed.

Lemma customModelsOf_withModels settings models selected :
  customModelsOf (withModels settings models selected) = models.
Proof. reflexivity. Qed.

Lemma textModel_withModels settings models selected :
  textModel (withModels settings models selected) = selected.
Proof. reflexivity. Qed.

(** X19. [handleAddCustomModel] keeps the custom models well formed (no
    value twice, none that is a built-in model, none blank) and the
    selected model among the offered ones. It changes the settings only
    for a trimmed input that is not empty and is no offered model yet:
    then the input goes last, is selected, and the input field is
    emptied. *)
Theorem handleAddCustomModel_invariant (st : DialogState) :
  customModelsOk (localSettings st) ->
  selectable (localSettings st) ->
  customModelsOk (localSettings (handleAddCustomModel st))
  /\ selectable (localSettings (handleAddCustomModel st))
  /\ (trim (customModelInput st) = []
      \/ trim (customModelInput st)
         ∈ valuesOf DEFAULT_TEXT_MODELS
           ++ valuesOf (customModelsOf (localSettings st)) ->
      localSettings (handleAddCustomModel st) = localSettings st)
  /\ (trim (customModelInput st) <> [] ->
      trim (customModelInput st)
      ∉ valuesOf DEFAULT_TEXT_MODELS
        ++ valuesOf (customModelsOf (localSettings st)) ->
      valuesOf (customModelsOf (localSettings (handleAddCustomModel st)))
      = valuesOf (customModelsOf (localSettings st))
        ++ [trim (customModelInput st)]
      /\ textModel (localSettings (handleAddCustomModel st))
         = trim (customModelInput st)
      /\ customModelInput (handleAddCustomModel st) = []).
Proof.
  intros Hcm Hsel. pose proof Hcm as [Hnodup Hok].
  unfold handleAddCustomModel.
  set (val := trim (customModelInput st)).
  set (existing := customModelsOf (localSettings st)) in *.
  destruct (decide (val = [])) as [Hval|Hval].
  { rewrite bool_decide_eq_true_2 by done.
    split; [done|]. split; [done|]. split; [done|]. intros Hne. done. }
  rewrite bool_decide_eq_false_2 by done.
  destruct (decide (val ∈ valuesOf existing)) as [Hex|Hex].
  { rewrite (bool_decide_eq_true_2 (Exists _ existing))
      by (by apply Exists_value).
    cbn [orb localSettings]. split; [done|]. split; [done|]. split; [done|].
    intros _ Hnot. exfalso. apply Hnot, elem_of_app. by right. }
  rewrite (bool_decide_eq_false_2 (Exists _ existing))
    by (by rewrite Exists_value).
  destruct (decide (val ∈ valuesOf DEFAULT_TEXT_MODELS)) as [Hdef|Hdef].
  { rewrite bool_decide_eq_true_2 by (by apply Exists_value).
    cbn [orb localSettings]. split; [done|]. split; [done|]. split; [done|].
    intros _ Hnot. exfalso. apply Hnot, elem_of_app. by left. }
  rewrite bool_decide_eq_false_2 by (by rewrite Exists_value).
  cbn [orb localSettings customModelInput].
  assert (Hvalues : valuesOf (existing ++ [{| value := val; label := val |}])
                    = valuesOf existing ++ [val]).
  { unfold valuesOf. by rewrite map_app. }
  split; [|split; [|split]].
  - unfold customModelsOk. rewrite customModelsOf_withModels, Hvalues. split.
    + apply NoDup_app. split; [done|]. split; [|apply NoDup_singleton].
      intros v Hv ->%list_elem_of_singleton. done.
    + intros v [Hv| ->%list_elem_of_singleton]%elem_of_app; [by apply Hok|done].
  - unfold selectable.
    rewrite customModelsOf_withModels, textModel_withModels, Hvalues.
    rewrite !elem_of_app. right. right. by apply list_elem_of_singleton.
  - intros [?|[?|?]%elem_of_app]; done.
  - intros _ _.
    by rewrite customModelsOf_withModels, textModel_withModels, Hvalues.
Qed.

(** X20. [handleRemoveCustomModel] keeps the custom models well formed
    and the selected model among the offered ones: the removed value is
    no custom model afterwards, the other custom models stay in their
    order, and the selection moves to the first built-in model exactly
    when the removed value was selected. *)
Theorem handleRemoveCustomModel_invariant (st : DialogState) (val : jsstring) :
  customModelsOk (localSettings st) ->
  selectable (localSettings st) ->
  customModelsOk (localSettings (handleRemoveCustomModel st val))
  /\ selectable (localSettings (handleRemoveCustomModel st val))
  /\ valuesOf (customModelsOf (localSettings (handleRemoveCustomModel st val)))
     = filter (fun v => v <> val) (valuesOf (customModelsOf (localSettings st)))
  /\ textModel (localSettings (handleRemoveCustomModel st val))
     = (if bool_decide (textModel (localSettings st) = val)
        then DEFAULT_TEXT_MODEL else textModel (localSettings st)).
Proof.
  intros [Hnodup Hok] Hsel. unfold handleRemoveCustomModel.
  set (existing := customModelsOf (localSettings st)) in *.
  assert (Hsel' : textModel (localSettings st) ∈ valuesOf DEFAULT_TEXT_MODELS
                  \/ textModel (localSettings st) ∈ valuesOf existing).
  { by apply elem_of_app. }
  cbn [localSettings].
  split; [|split; [|split]].
  - unfold customModelsOk. rewrite customModelsOf_withModels, valuesOf_filter.
    split; [by apply NoDup_filter|].
    intros v [_ Hv]%list_elem_of_filter. by apply Hok.
  - unfold selectable.
    rewrite customModelsOf_withModels, textModel_withModels, valuesOf_filter.
    rewrite elem_of_app. case_bool_decide as Ht.
    + left. apply DEFAULT_TEXT_MODEL_offered.
    + destruct Hsel' as [?|?]; [by left|right]. by apply list_elem_of_filter.
  - rewrite customModelsOf_withModels. apply valuesOf_filter.
  - by rewrite textModel_withModels.
Qed.

Lemma handleAddCustomModel_invariant_witness :
  customModelsOk (localSettings (handleAddCustomModel MoreFixtures.DIALOG))
  /\ selectable (localSettings (handleAddCustomModel MoreFixtures.DIALOG))
  /\ (trim (customModelInput MoreFixtures.DIALOG) = []
      \/ trim (customModelInput MoreFixtures.DIALOG)
         ∈ valuesOf DEFAULT_TEXT_MODELS
           ++ valuesOf (customModelsOf (localSettings MoreFixtures.DIALOG)) ->
      localSettings (handleAddCustomModel MoreFixtures.DIALOG)
      = localSettings MoreFixtures.DIALOG)
  /\ (trim (customModelInput MoreFixtures.DIALOG) <> [] ->
      trim (customModelInput MoreFixtures.DIALOG)
      ∉ valuesOf DEFAULT_TEXT_MODELS
        ++ valuesOf (customModelsOf (localSettings MoreFixtures.DIALOG)) ->
      valuesOf (customModelsOf
                  (localSettings (handleAddCustomModel MoreFixtures.DIALOG)))
      = valuesOf (customModelsOf (localSettings MoreFixtures.DIALOG))
        ++ [trim (customModelInput MoreFixtures.DIALOG)]
      /\ textModel (localSettings (handleAddCustomModel MoreFixtures.DIALOG))
         = trim (customModelInput MoreFixtures.DIALOG)
      /\ customModelInput (handleAddCustomModel MoreFixtures.DIALOG) = []).
Proof.
  apply (handleAddCustomModel_invariant MoreFixtures.DIALOG).
  - split.
    + vm_compute. apply NoDup_singleton.
    + intros v Hv. vm_compute in Hv. apply list_elem_of_singleton in Hv.
      subst v. split; [|intros E; discriminate E].
      intros Hin. vm_compute in Hin.
      repeat (apply elem_of_cons in Hin as [Hin|Hin]; [discriminate Hin|]).
      by apply elem_of_nil in Hin.
  - apply (list_elem_of_lookup_2 _ 4%nat). vm_compute. reflexivity.
Defined.

Lemma handleRemoveCustomModel_invariant_witness :
  textModel (localSettings
               (handleRemoveCustomModel MoreFixtures.DIALOG MoreFixtures.CUSTOM))
  = DEFAULT_TEXT_MODEL
  /\ customModelsOf
       (localSettings
          (handleRemoveCustomModel MoreFixtures.DIALOG MoreFixtures.CUSTOM))
     = []
  /\ selectable
       (localSettings
          (handleRemoveCustomModel MoreFixtures.DIALOG MoreFixtures.CUSTOM)).
Proof.
  split; [vm_compute; reflexivity|]. split; [vm_compute; reflexivity|].
  apply (handleRemoveCustomModel_invariant MoreFixtures.DIALOG
           MoreFixtures.CUSTOM).
  - split.
    + vm_compute. apply NoDup_singleton.
    + intros v Hv. vm_compute in Hv. apply list_elem_of_singleton in Hv.
      subst v. split; [|intros E; discriminate E].
      intros Hin. vm_compute in Hin.
      repeat (apply elem_of_cons in Hin as [Hin|Hin]; [discriminate Hin|]).
      by apply elem_of_nil in Hin.
  - apply (list_elem_of_lookup_2 _ 4%nat). vm_compute. reflexivity.
Defined.

Lemma removeWhitespace_dropStartWhile (s : jsstring) :
  removeWhitespace (dropStartWhile isWhiteSpace s) = removeWhitespace s.
Proof.
  unfold removeWhitespace. induction s as [|c r IH]; [done|]. simpl.
  destruct (isWhiteSpace c) eqn:Hc; [|done].
  rewrite filter_cons_False by (by rewrite Hc). exact IH.
Qed.

Lemma removeWhitespace_dropEndWhile (s : jsstring) :
  removeWhitespace (dropEndWhile isWhiteSpace s) = removeWhitespace s.
Proof.
  unfold removeWhitespace. induction s as [|c r IH]; [done|]. simpl.
  destruct (dropEndWhile isWhiteSpace r) as [|d r'] eqn:Er.
  - destruct (isWhiteSpace c) eqn:Hc.
    + rewrite filter_cons_False by (by rewrite Hc). exact IH.
    + rewrite !filter_cons_True by done. by rewrite <- IH.
  - destruct (isWhiteSpace c) eqn:Hc.
    + rewrite !(filter_cons_False _ c) by (by rewrite Hc). exact IH.
    + rewrite !(filter_cons_True _ c) by done. by rewrite IH.
Qed.

(** X21. The credential that [handleSave] stores is the one that
    [cleanApiKey] of the same revision computes from the typed one, so
    the service reads it back unchanged; the endpoint that the older
    revision stores is never empty and never ends in a slash. *)
Theorem handleSave_normalized (rev : Revision) (settings : Settings) :
  apiKey (cleanedSettings rev settings) = cleanApiKey rev (apiKey settings)
  /\ cleanApiKey rev (apiKey (cleanedSettings rev settings))
     = apiKey (cleanedSettings rev settings)
  /\ baseUrl (cleanedSettings RevServices settings) <> []
  /\ endsWith (baseUrl (cleanedSettings RevServices settings)) (js "/") = false.
Proof.
  assert (Hkey : savedApiKey rev settings = cleanApiKey rev (apiKey settings)).
  { destruct rev.
    - rewrite cleanApiKey_services_is_removeWhitespace. unfold savedApiKey, trim.
      by rewrite removeWhitespace_dropEndWhile, removeWhitespace_dropStartWhile.
    - unfold savedApiKey, cleanApiKey. case_bool_decide as Hk; [|done].
      by rewrite Hk. }
  cbn [cleanedSettings apiKey baseUrl]. split; [done|]. split; [|split].
  - rewrite Hkey. destruct rev.
    + rewrite !cleanApiKey_services_is_removeWhitespace.
      apply removeWhitespace_no_whitespace, removeWhitespace_clean.
    + unfold cleanApiKey. case_bool_decide as Hk; [by subst|].
      case_bool_decide as Ht; [done | apply trim_idem].
  - unfold savedBaseUrl. case_bool_decide as Hb; [|done].
    intros E. vm_compute in E. discriminate E.
  - unfold savedBaseUrl. case_bool_decide as Hb.
    + vm_compute. reflexivity.
    + apply stripTrailingSlashes_no_slash.
Qed.

Section DialogRuns.
Context {St : Type}.
Variable generateContent : Client -> Request -> St -> Outcome Response * St.
Variable TEXT_MODELS : list ModelRef.

Lemma NoDup_prefix (xs ys : list jsstring) :
  xs `prefix_of` ys -> NoDup ys -> NoDup xs.
Proof. intros [k ->] H. by apply NoDup_app in H as [? _]. Qed.

Lemma probed_elem rev models (m : jsstring) :
  m ∈ probed rev models <-> skipsModel rev m = false /\ m ∈ models.
Proof. unfold probed. by rewrite list_elem_of_filter. Qed.

(** X22. The newer revision of [testApiConnection] requests no model
    twice, also when the priority models repeat each other or a built-in
    model, and requests only priority models and built-in models, never
    an empty name. *)
Theorem testApiConnection_no_repeat apiKey baseUrl priorityModels
    (w : World St) o w' :
  testApiConnection generateContent TEXT_MODELS RevPart000 apiKey baseUrl
    priorityModels w = (o, w') ->
  exists evs,
    trace w' = trace w ++ evs
    /\ NoDup (requestedModels evs)
    /\ forall m, m ∈ requestedModels evs ->
         m <> [] /\ m ∈ priorityModels ++ valuesOf DEFAULT_TEXT_MODELS.
Proof.
  unfold testApiConnection. case_bool_decide as Hkey.
  - unfold throw. intros ?; simplify_eq. exists []. rewrite app_nil_r.
    split; [done|]. split; [constructor|]. intros m Hm. by apply elem_of_nil in Hm.
  - intros Hrun. apply probeModels_run in Hrun as (evs & Htr & Hpre & _).
    exists evs. split; [done|]. split.
    + apply (NoDup_prefix _ _ Hpre). unfold probed. apply NoDup_filter.
      apply NoDup_dedupFrom.
    + intros m Hm. destruct Hpre as [k Hk].
      assert (Hin : m ∈ probed RevPart000
                      (modelsToTry TEXT_MODELS RevPart000 priorityModels)).
      { rewrite Hk. apply elem_of_app. by left. }
      apply probed_elem in Hin as [Hskip Hin]. split.
      * intros ->. vm_compute in Hskip. discriminate Hskip.
      * unfold modelsToTry, dedup in Hin. by apply elem_of_dedupFrom in Hin as [? _].
Qed.

(** X23. The connection test of the dialog asks the selected text model
    first, and no second time; when the test returns the selected model,
    nothing else was asked. *)
Theorem handleTestKey_selected_first (settings : Settings)
    (w : World St) o w' :
  handleTestKey generateContent TEXT_MODELS settings w = (o, w') ->
  trim (apiKey settings) <> [] ->
  textModel settings <> [] ->
  exists evs rest,
    trace w' = trace w ++ evs
    /\ requestedModels evs = textModel settings :: rest
    /\ (textModel settings ∉ rest)
    /\ (o = Ok (textModel settings) -> rest = []).
Proof.
  intros Hrun Hkey Hmodel. unfold handleTestKey, testApiConnection in Hrun.
  assert (Hclean : cleanApiKey RevPart000 (trim (apiKey settings))
                   = trim (apiKey settings)).
  { unfold cleanApiKey. rewrite bool_decide_eq_false_2 by done. apply trim_idem. }
  rewrite Hclean in Hrun. rewrite bool_decide_eq_false_2 in Hrun by done.
  set (ai := createClient _ _ _) in Hrun.
  set (m := textModel settings) in *.
  assert (Hmodels : modelsToTry TEXT_MODELS RevPart000 [m]
                    = m :: dedupFrom [m] (valuesOf DEFAULT_TEXT_MODELS)).
  { unfold modelsToTry, dedup. cbn [app dedupFrom].
    rewrite bool_decide_eq_false_2 by (by intros ?%elem_of_nil). done. }
  rewrite Hmodels in Hrun.
  assert (Hskip : skipsModel RevPart000 m = false).
  { simpl. by rewrite bool_decide_eq_false_2. }
  destruct (generateContent ai (pingRequest RevPart000 m) (ext w))
    as [[r|e] s1] eqn:Hg.
  - rewrite (probeModels_ok _ _ _ _ _ _ _ _ _ Hskip Hg) in Hrun. simplify_eq.
    exists [EvExchange ai (pingRequest RevPart000 m) (Ok r)], [].
    split; [done|]. split; [done|]. split; [|done]. by intros ?%elem_of_nil.
  - rewrite (probeModels_fail _ _ _ _ _ _ _ _ _ Hskip Hg) in Hrun.
    apply probeModels_run in Hrun as (evs & Htr & Hpre & Hres). simpl in Htr.
    exists (EvExchange ai (pingRequest RevPart000 m) (Throw e) :: evs),
           (requestedModels evs).
    split; [rewrite Htr; by rewrite <- app_assoc|].
    split; [done|]. split.
    + intros Hin. destruct Hpre as [k Hk].
      assert (Hin' : m ∈ probed RevPart000
                       (dedupFrom [m] (valuesOf DEFAULT_TEXT_MODELS))).
      { rewrite Hk. apply elem_of_app. by left. }
      apply probed_elem in Hin' as [_ Hin'].
      apply elem_of_dedupFrom in Hin' as [_ Hnot]. apply Hnot. left.
    + intros ->. destruct Hres as (Hin & _).
      apply elem_of_dedupFrom in Hin as [_ Hnot]. exfalso. apply Hnot. left.
Qed.
End DialogRuns.

Lemma testApiConnection_no_repeat_witness :
  exists evs,
    trace (snd (testApiConnection Fixtures.onlyB [] RevPart000 Fixtures.KEY
                  Fixtures.PROXY
                  [Fixtures.MODEL_A; Fixtures.MODEL_A; []; Fixtures.MODEL_B]
                  (initial 0%nat)))
    = trace (initial 0%nat) ++ evs
    /\ NoDup (requestedModels evs)
    /\ forall m, m ∈ requestedModels evs ->
         m <> []
         /\ m ∈ [Fixtures.MODEL_A; Fixtures.MODEL_A; []; Fixtures.MODEL_B]
                ++ valuesOf DEFAULT_TEXT_MODELS.
Proof.
  apply (testApiConnection_no_repeat Fixtures.onlyB [] Fixtures.KEY
           Fixtures.PROXY
           [Fixtures.MODEL_A; Fixtures.MODEL_A; []; Fixtures.MODEL_B]
           (initial 0%nat)
           (fst (testApiConnection Fixtures.onlyB [] RevPart000 Fixtures.KEY
                   Fixtures.PROXY
                   [Fixtures.MODEL_A; Fixtures.MODEL_A; []; Fixtures.MODEL_B]
                   (initial 0%nat)))).
  apply surjective_pairing.
Defined.

Lemma handleTestKey_selected_first_witness :
  exists evs rest,
    trace (snd (handleTestKey Fixtures.onlyB [] Fixtures.SETTINGS (initial 0%nat)))
    = trace (initial 0%nat) ++ evs
    /\ requestedModels evs = textModel Fixtures.SETTINGS :: rest
    /\ (textModel Fixtures.SETTINGS ∉ rest)
    /\ (fst (handleTestKey Fixtures.onlyB [] Fixtures.SETTINGS (initial 0%nat))
        = Ok (textModel Fixtures.SETTINGS) -> rest = []).
Proof.
  apply (handleTestKey_selected_first Fixtures.onlyB [] Fixtures.SETTINGS
           (initial 0%nat)).
  - apply surjective_pairing.
  - intros E. vm_compute in E. discriminate E.
  - intros E. vm_compute in E. discriminate E.
Defined.

(** ** Script excerpt of the role analysis *)

(** X24. The excerpt of the script in the prompt of [analyzeRoles] has
    at most 30003 code units, whatever the script, and begins like the
    script for 30000 code units: it is the script when that has at most
    30000 code units; taking the excerpt of an excerpt changes
    nothing. *)
Theorem safeScript_bounded (script : jsstring) :
  (Z.of_nat (length (safeScript script)) <= 30003)%Z
  /\ (Z.of_nat (length (rolesPrompt script))
      <= Z.of_nat (length (rolesPrompt [])) + 30003)%Z
  /\ take (Z.to_nat 30000) (safeScript script) = take (Z.to_nat 30000) script
  /\ safeScript (safeScript script) = safeScript script
  /\ ((Z.of_nat (length script) <= 30000)%Z -> safeScript script = script).
Proof.
  assert (Hdots : length (js "...") = 3%nat) by (vm_compute; reflexivity).
  assert (Hlen : (Z.of_nat (length (safeScript script)) <= 30003)%Z).
  { unfold safeScript, substring0.
    destruct (Z.ltb_spec 30000 (Z.of_nat (length script))) as [Hlong|Hshort].
    - rewrite length_app, length_take, Hdots. lia.
    - lia. }
  split; [done|]. split; [|split; [|split]].
  - unfold rolesPrompt. rewrite !length_app.
    change (length (safeScript [])) with 0%nat. lia.
  - unfold safeScript, substring0.
    destruct (Z.ltb_spec 30000 (Z.of_nat (length script))) as [Hlong|Hshort];
      [|done].
    rewrite take_app_le by (rewrite length_take; lia).
    rewrite take_take. f_equal; lia.
  - unfold safeScript at 1.
    destruct (Z.ltb_spec 30000 (Z.of_nat (length (safeScript script))))
      as [Hlong|Hshort]; [|done].
    unfold safeScript in *. unfold substring0 in *.
    destruct (Z.ltb_spec 30000 (Z.of_nat (length script))) as [Hl|Hs]; [|lia].
    f_equal. rewrite take_app_le by (rewrite length_take; lia).
    rewrite take_take. f_equal; lia.
  - intros Hshort. unfold safeScript.
    destruct (Z.ltb_spec 30000 (Z.of_nat (length script))) as [Hlong|_];
      [lia | done].
Qed.
